(** * VOPL: the specification-quality engine and the project store

    A shallow embedding of [src/api/specAnalysis.ts] (heuristic scorer,
    external analysis adapter, field autogeneration inference), of
    [types/vopl.ts] (the data model), of the actions of the project store
    and of the handlers of the panels that call them, together with the
    properties proved about them.

    Conventions of the embedding.
    - A JavaScript string is a [string]: a sequence of characters, each
      standing for one code unit; [length] is the [.length] of the source.
      A character is one byte, so the strings are those of code units
      below 256; [toLowerCase] lower-cases the letters A to Z and the
      capital letters of Latin-1, as the source does on such strings.
    - A JavaScript number is a double. Where the source only counts, adds
      and subtracts integers it is an integer [Z]: the integers involved
      stay far below 2^53 for every array that JavaScript allows, and on
      such integers the arithmetic of doubles is exact. Where the source
      divides, or multiplies by a decimal weight, the number is the
      rational [Q] that the double stands for, and every operation rounds
      its exact result to the nearest double, ties to the even significand
      ([fadd], [fmul], [fdiv]); a decimal literal such as 0.35 is the
      double nearest to it. [Math.round] is [floor (x + 1/2)], computed
      exactly.
    - [Date.now()], the configured credential, the external model call and
      [JSON.parse] belong to the environment and are section variables.
    - A [throw] is the [Throw] constructor of [Completion]; [try]/[catch] is
      [tryCatch]; what the code sends to the network or to the console is
      recorded in a trace of [Event]s. *)

From Stdlib Require Import List String Ascii Bool ZArith QArith Qround Qabs
  Qpower PrimFloat FloatOps SpecFloat Lia Lqa.
Import ListNotations.

Set Warnings "-register-all,-inexact-float".

Local Open Scope string_scope.
Local Open Scope Z_scope.

(** ** The JavaScript runtime the source relies on *)

Module JS.

(** The double-quote character, for messages that quote a node name. *)
Definition dq : string := String "034"%char EmptyString.

(** [s] used as a condition: the empty string is falsy. *)
Definition truthy (s : string) : bool :=
  match s with
  | EmptyString => false
  | String _ _ => true
  end.

(** [a || b] on strings. *)
Definition or_else (a b : string) : string := if truthy a then a else b.

(** [s.startsWith(p)]. *)
Fixpoint startsWith (s p : string) {struct p} : bool :=
  match p with
  | EmptyString => true
  | String c p' =>
      match s with
      | EmptyString => false
      | String d s' => Ascii.eqb d c && startsWith s' p'
      end
  end.

(** [s.includes(sub)]: [sub] starts at some position of [s]. *)
Fixpoint includes (s sub : string) {struct s} : bool :=
  startsWith s sub
  || match s with
     | EmptyString => false
     | String _ s' => includes s' sub
     end.

(** The lower-case form of a one-byte character: the letters A to Z and
    the capital letters of Latin-1 (192 to 222, the multiplication sign 215
    apart) move up by 32; every other character is its own lower case. *)
Definition lower_char (c : ascii) : ascii :=
  let n := nat_of_ascii c in
  if ((65 <=? n)%nat && (n <=? 90)%nat)
     || ((192 <=? n)%nat && (n <=? 222)%nat && negb (n =? 215)%nat)
  then ascii_of_nat (n + 32) else c.

(** [s.toLowerCase()]. *)
Fixpoint toLowerCase (s : string) : string :=
  match s with
  | EmptyString => EmptyString
  | String c s' => String (lower_char c) (toLowerCase s')
  end.

(** [Math.round]: the nearest integer, halves going up. *)
Definition Math_round (x : Q) : Z := Qfloor (x + (1 # 2))%Q.

(** *** Double-precision arithmetic

    A finite double is the rational it stands for. [floor_log2 x] is the
    [k] with [2^k <= x < 2^(k+1)], for a positive [x]. *)
Definition floor_log2 (x : Q) : Z :=
  let k := Z.log2 (Qnum x) - Z.log2 (Zpos (Qden x)) in
  if Qle_bool (2 ^ k) x then k else k - 1.

(** The exponent of the last bit of the significand of the double nearest
    to [x]: 53 bits of precision, and no exponent below that of the
    subnormal numbers. *)
Definition exponent (x : Q) : Z :=
  Z.max (floor_log2 (Qabs x) - 52) (-1074).

(** The nearest integer, a tie going to the even one. *)
Definition round_half_even (x : Q) : Z :=
  let f := Qfloor x in
  match (x - inject_Z f ?= 1 # 2)%Q with
  | Lt => f
  | Gt => f + 1
  | Eq => if Z.even f then f else f + 1
  end.

(** The double nearest to [x] (round to nearest, ties to even), as a
    reduced fraction. The largest double is out of reach of the numbers
    that the source computes, so overflow is not represented. *)
Definition double (x : Q) : Q :=
  if Qeq_bool x 0 then 0%Q
  else
    let e := exponent x in
    Qred (inject_Z (round_half_even (x / 2 ^ e)) * 2 ^ e)%Q.

(** The rational that a finite binary64 number of the kernel stands
    for. *)
Definition of_float (x : float) : Q :=
  match Prim2SF x with
  | S754_finite s m e =>
      ((if s then -1 else 1) * inject_Z (Zpos m) * 2 ^ e)%Q
  | _ => 0%Q
  end.

(** [a + b], [a - b], [a * b] and [a / b] on doubles: the exact result,
    rounded. *)
Definition fadd (a b : Q) : Q := double (a + b)%Q.

Definition fsub (a b : Q) : Q := double (a - b)%Q.

Definition fmul (a b : Q) : Q := double (a * b)%Q.

Definition fdiv (a b : Q) : Q := double (a / b)%Q.

(** A dynamically typed value, as [JSON.parse] returns it ([VUndefined]
    is what reading an absent property gives). *)
Inductive value : Type :=
| VUndefined
| VNull
| VBool (b : bool)
| VNum (q : Q)
| VStr (s : string)
| VArr (items : list value)
| VObj (props : list (string * value)).

Definition truthy_value (v : value) : bool :=
  match v with
  | VUndefined | VNull => false
  | VBool b => b
  | VNum q => negb (Qeq_bool q 0)
  | VStr s => truthy s
  | VArr _ | VObj _ => true
  end.

(** [a || b] on values. *)
Definition vor (a b : value) : value := if truthy_value a then a else b.

Inductive Error : Type :=
| TypeError
| SyntaxError
| TransportError
| ErrorMsg (message : string).

(** The outcome of running a piece of code: a value or a thrown error. *)
Inductive Completion (A : Type) : Type :=
| Return (a : A)
| Throw (e : Error).
Arguments Return {A} a.
Arguments Throw {A} e.

Fixpoint assoc {A : Type} (k : string) (l : list (string * A)) : option A :=
  match l with
  | [] => None
  | (k', a) :: l' => if String.eqb k' k then Some a else assoc k l'
  end.

(** [v.k] for the property names the adapter reads (none of them is a
    member of a built-in prototype): reading a property of [undefined] or
    [null] throws a TypeError, a primitive or an array has no such
    property, an object has it when it is one of its own. *)
Definition get (v : value) (k : string) : Completion value :=
  match v with
  | VUndefined | VNull => Throw TypeError
  | VObj props =>
      Return match assoc k props with Some x => x | None => VUndefined end
  | _ => Return VUndefined
  end.

(** The names that every object literal inherits from [Object.prototype];
    reading any of them on an object literal gives a function (or, for
    [__proto__], the prototype object): a truthy value. *)
Definition Object_prototype_keys : list string :=
  [ "constructor"; "hasOwnProperty"; "isPrototypeOf";
    "propertyIsEnumerable"; "toLocaleString"; "toString"; "valueOf";
    "__proto__"; "__defineGetter__"; "__defineSetter__";
    "__lookupGetter__"; "__lookupSetter__" ].

(** What [obj[key]] gives on an object literal whose own properties are
    [own]. *)
Inductive Lookup (A : Type) : Type :=
| Own (a : A)
| Inherited (key : string)
| Absent.
Arguments Own {A} a.
Arguments Inherited {A} key.
Arguments Absent {A}.

Definition lookup {A : Type} (own : list (string * A)) (key : string)
  : Lookup A :=
  match assoc key own with
  | Some a => Own a
  | None =>
      if existsb (String.eqb key) Object_prototype_keys
      then Inherited key else Absent
  end.

End JS.

(** ** The data model ([types/vopl.ts]) *)

Inductive VOPLNodeType : Type := trigger | process | integration | output.

Definition VOPLNodeType_eqb (a b : VOPLNodeType) : bool :=
  match a, b with
  | trigger, trigger | process, process
  | integration, integration | output, output => true
  | _, _ => false
  end.

Record PortDefinition : Type := mkPort {
  port_name : string;
  port_description : string;
  port_shape : string
}.

Record Example : Type := mkExample {
  ex_input : string;
  ex_output : string;
  ex_notes : string
}.

Record VOPLNodeData : Type := mkData {
  name : string;
  intent : string;
  inputs : list PortDefinition;
  outputs : list PortDefinition;
  behavior : string;
  examples : list Example;
  constraints : list string
}.

Record VOPLNode : Type := mkNode {
  node_id : string;
  node_type : VOPLNodeType;
  position : Q * Q;
  data : VOPLNodeData
}.

Record VOPLEdge : Type := mkEdge {
  edge_id : string;
  source : string;
  target : string;
  sourceHandle : option string;
  targetHandle : option string;
  label : option string;
  dataShape : option string
}.

Record SystemContext : Type := mkContext {
  environment : string;
  ctx_constraints : string;
  infrastructure : string;
  dependencies : string;
  security : string;
  nonFunctional : string
}.

Inductive Severity : Type := error | warning | info.
Inductive Dimension : Type :=
  completeness | ambiguity | consistency | groundedness.

Record SpecIssue : Type := mkIssue {
  severity : Severity;
  dimension : Dimension;
  nodeId : option string;
  edgeId : option string;
  field : option string;
  message : string
}.

Record DimensionScore : Type := mkDim {
  score : Z;
  details : list string
}.

Record SpecScore : Type := mkScore {
  overall : Z;
  sc_completeness : DimensionScore;
  sc_ambiguity : DimensionScore;
  sc_consistency : DimensionScore;
  sc_groundedness : DimensionScore;
  issues : list SpecIssue;
  suggestions : list string;
  lastUpdated : Z
}.

(** A score object as it is stored and handed to the UI: the heuristic
    scorer builds a well-typed [SpecScore]; the object literal that the
    adapter builds from a model response holds whatever the response held,
    the declared type notwithstanding. *)
Inductive SpecScoreValue : Type :=
| Typed (s : SpecScore)
| Dynamic (v : JS.value).

Record VOPLProject : Type := mkProject {
  project_id : string;
  project_name : string;
  systemContext : SystemContext;
  nodes : list VOPLNode;
  edges : list VOPLEdge;
  specScore : option SpecScoreValue;
  lastModified : Z
}.

(** [Object.values(systemContext)]: the six fields in declaration order. *)
Definition Object_values (c : SystemContext) : list string :=
  [ environment c; ctx_constraints c; infrastructure c; dependencies c;
    security c; nonFunctional c ].

Definition defaultSystemContext : SystemContext := mkContext "" "" "" "" "" "".

(** ** The analysis engine ([api/specAnalysis.ts]) *)

Module SpecAnalysis.

Import JS.
Local Open Scope list_scope.

Definition nat_to_Q (n : nat) : Q := inject_Z (Z.of_nat n).

(** The body of the callback that [getMockScore] maps over the nodes: the
    per-node completeness score. *)
Definition nodeScore (node : VOPLNode) : Z :=
  let d := data node in
  let score := 0 in
  let score :=
    if truthy (name d) && negb (startsWith (name d) "New ")
    then score + 10 else score in
  let score :=
    if truthy (intent d) && (20 <? String.length (intent d))%nat
    then score + 20 else score in
  let score :=
    if truthy (behavior d) && (50 <? String.length (behavior d))%nat
    then score + 30 else score in
  let score :=
    if existsb (fun i => truthy (port_shape i)
                         && negb (String.eqb (port_shape i) "unknown"))
               (inputs d)
    then score + 15 else score in
  let score :=
    if existsb (fun o => truthy (port_shape o)
                         && negb (String.eqb (port_shape o) "unknown"))
               (outputs d)
    then score + 15 else score in
  let score :=
    if (0 <? List.length (examples d))%nat then score + 10 else score in
  score.

(** The issue that the same callback pushes for a node, if any. *)
Definition intentIssue (node : VOPLNode) : list SpecIssue :=
  let d := data node in
  if (String.length (intent d) <? 20)%nat || startsWith (intent d) "Describe"
  then [ {| severity := warning;
            dimension := ambiguity;
            nodeId := Some (node_id node);
            edgeId := None;
            field := Some "intent";
            message := (dq ++ name d ++ dq
                        ++ " needs a clearer intent description.")%string |} ]
  else [].

Definition contextIssue : SpecIssue :=
  {| severity := warning;
     dimension := completeness;
     nodeId := None; edgeId := None; field := None;
     message := "System context is incomplete. Fill in environment, infrastructure, and dependencies." |}.

Definition noNodesIssue : SpecIssue :=
  {| severity := error;
     dimension := completeness;
     nodeId := None; edgeId := None; field := None;
     message := "No nodes defined. Add at least one trigger and one output node." |}.

Definition disconnectedIssue (node : VOPLNode) : SpecIssue :=
  {| severity := warning;
     dimension := consistency;
     nodeId := Some (node_id node);
     edgeId := None; field := None;
     message := (dq ++ name (data node) ++ dq
                 ++ " is not connected to any other node.")%string |}.

Definition triggerIssue : SpecIssue :=
  {| severity := info;
     dimension := completeness;
     nodeId := None; edgeId := None; field := None;
     message := "Consider adding a Trigger node to define how the flow starts." |}.

Definition outputIssue : SpecIssue :=
  {| severity := info;
     dimension := completeness;
     nodeId := None; edgeId := None; field := None;
     message := "Consider adding an Output node to define the flow result." |}.

(** The filter callback of the edge consistency check. *)
Definition unconnected (project : VOPLProject) (node : VOPLNode) : bool :=
  let hasIncoming :=
    existsb (fun e => String.eqb (target e) (node_id node)) (edges project) in
  let hasOutgoing :=
    existsb (fun e => String.eqb (source e) (node_id node)) (edges project) in
  negb hasIncoming && negb hasOutgoing.

Definition allSuggestions : list string :=
  [ "Add detailed behavior descriptions with error handling to each node.";
    "Define explicit data shapes (types) for all inputs and outputs.";
    "Include examples for edge cases, not just happy paths.";
    "Fill in the System Context to provide implementation context.";
    "Ensure all nodes are connected in the data flow." ].

Section Scorer.

(** The value of [Date.now()] when the score is built. *)
Variable Date_now : Z.

(** The running completeness total after the system-context step and the
    node step, with the issues pushed so far. The counts, the sum of the
    node scores and the product of the number of nodes by 100 are integers
    that doubles hold exactly; the quotients, the products by 20 and by 80
    and the sums are rounded. *)
Definition completenessPass (project : VOPLProject) : Q * list SpecIssue :=
  let issues : list SpecIssue := [] in
  let completenessScore := 0%Q in
  let contextFields := Object_values (systemContext project) in
  let filledContext :=
    List.length
      (filter (fun v => truthy v && (10 <? String.length v)%nat)
              contextFields) in
  let completenessScore :=
    fadd completenessScore
         (fmul (fdiv (nat_to_Q filledContext)
                     (nat_to_Q (List.length contextFields)))
               20%Q)
  in
  let issues :=
    if (filledContext <? 3)%nat then issues ++ [contextIssue] else issues in
  if (List.length (nodes project) =? 0)%nat
  then (10%Q, issues ++ [noNodesIssue])
  else
    let nodeScores := map nodeScore (nodes project) in
    let issues := issues ++ flat_map intentIssue (nodes project) in
    (fadd completenessScore
          (fmul (fdiv (inject_Z (fold_left Z.add nodeScores 0%Z))
                      (nat_to_Q (List.length (nodes project)) * 100)%Q)
                80%Q),
     issues).

(** The edge consistency check: the consistency score and the issues it
    pushes. *)
Definition consistencyPass (project : VOPLProject) : Z * list SpecIssue :=
  let consistencyScore := 80 in
  if (0 <? List.length (edges project))%nat
  then
    let unconnectedNodes := filter (unconnected project) (nodes project) in
    if (0 <? List.length unconnectedNodes)%nat
    then (consistencyScore - Z.of_nat (List.length unconnectedNodes) * 10,
          map disconnectedIssue unconnectedNodes)
    else (consistencyScore, [])
  else (consistencyScore, []).

(** The check for trigger and output nodes. *)
Definition structurePass (project : VOPLProject) : list SpecIssue :=
  let hasTrigger :=
    existsb (fun n => VOPLNodeType_eqb (node_type n) trigger)
            (nodes project) in
  let hasOutput :=
    existsb (fun n => VOPLNodeType_eqb (node_type n) output)
            (nodes project) in
  (if negb hasTrigger && (0 <? List.length (nodes project))%nat
   then [triggerIssue] else [])
  ++ (if negb hasOutput && (0 <? List.length (nodes project))%nat
      then [outputIssue] else []).

Definition getMockScore (project : VOPLProject) : SpecScore :=
  let ambiguityScore := 50 in
  let groundednessScore := 60 in
  let '(completenessScore, issues) := completenessPass project in
  let '(consistencyScore, consistencyIssues) := consistencyPass project in
  let issues := issues ++ consistencyIssues in
  let issues := issues ++ structurePass project in
  let suggestions := firstn 3 allSuggestions in
  let overall :=
    Math_round
      (fadd (fadd (fadd (fmul completenessScore (double (35 # 100)))
                        (fmul (inject_Z ambiguityScore) (double (25 # 100))))
                  (fmul (inject_Z consistencyScore) (double (25 # 100))))
            (fmul (inject_Z groundednessScore) (double (15 # 100)))) in
  {| overall := overall;
     sc_completeness := {| score := Math_round completenessScore;
                           details := [] |};
     sc_ambiguity := {| score := ambiguityScore; details := [] |};
     sc_consistency := {| score := consistencyScore; details := [] |};
     sc_groundedness := {| score := groundednessScore; details := [] |};
     issues := issues;
     suggestions := suggestions;
     lastUpdated := Date_now |}.

End Scorer.

(** *** Effects of the adapter *)

Inductive ContentBlock : Type :=
| TextBlock (text : string)
| OtherBlock (type : string).

(** What [client.messages.create] does with a request: the promise is
    rejected (a transport error, a non-success status, a time-out) or
    resolved with the content blocks of the response. *)
Inductive Reply : Type :=
| Rejected (e : Error)
| Resolved (content : list ContentBlock).

Record Request : Type := mkRequest {
  req_apiKey : string;
  req_model : string;
  req_max_tokens : Z;
  req_prompt : string
}.

Inductive Event : Type :=
| NetworkCall (r : Request)
| ConsoleError (tag : string) (e : Error).

(** A computation: the events it caused, in order, and how it completed.
    For an [async] function, [Return] is a fulfilled promise and [Throw] a
    rejected one. *)
Definition M (A : Type) : Type := list Event * Completion A.

Definition ret {A : Type} (a : A) : M A := ([], Return a).

Definition throw {A : Type} (e : Error) : M A := ([], Throw e).

Definition lift {A : Type} (c : Completion A) : M A := ([], c).

Definition bind {A B : Type} (m : M A) (k : A -> M B) : M B :=
  match m with
  | (t, Return a) => let '(t', r) := k a in (t ++ t', r)
  | (t, Throw e) => (t, Throw e)
  end.

Definition tryCatch {A : Type} (body : M A) (handler : Error -> M A) : M A :=
  match body with
  | (t, Return a) => (t, Return a)
  | (t, Throw e) => let '(t', r) := handler e in (t ++ t', r)
  end.

Definition console_error (tag : string) (e : Error) : M unit :=
  ([ConsoleError tag e], Return tt).

Notation "x <- m ;; k" := (bind m (fun x => k))
  (at level 61, m at next level, right associativity).
Notation "m ;;; k" := (bind m (fun _ => k))
  (at level 61, right associativity).

Fixpoint mapM {A B : Type} (f : A -> M B) (l : list A) : M (list B) :=
  match l with
  | [] => ret []
  | a :: l' => b <- f a ;; bs <- mapM f l' ;; ret (b :: bs)
  end.

(** *** Field autogeneration: types *)

Inductive AutogenFieldType : Type :=
| f_intent | f_behavior | f_inputs | f_outputs | f_examples | f_constraints.

Inductive AutogenValue : Type :=
| AString (s : string)
| APorts (ports : list PortDefinition)
| AExamples (exs : list Example)
| AStrings (items : list string)
| ADynamic (v : value).

Record AutogenResult : Type := mkResult {
  res_success : bool;
  res_field : AutogenFieldType;
  res_value : AutogenValue;
  res_error : option string
}.

Record AutogenContext : Type := mkAutogenContext {
  ctx_project : VOPLProject;
  ctx_nodeId : string;
  ctx_field : AutogenFieldType;
  issueMessage : string
}.

(** [project.nodes.find(n => n.id === nodeId)]. *)
Definition findNode (project : VOPLProject) (id : string) : option VOPLNode :=
  find (fun n => String.eqb (node_id n) id) (nodes project).

Definition nl : string := String "010"%char EmptyString.

Definition typeName (t : VOPLNodeType) : string :=
  match t with
  | trigger => "trigger"
  | process => "process"
  | integration => "integration"
  | output => "output"
  end.

(** The characters that [\s] matches, among one-byte characters. *)
Definition isWhitespace (c : ascii) : bool :=
  let n := nat_of_ascii c in
  ((9 <=? n)%nat && (n <=? 13)%nat) || (n =? 32)%nat || (n =? 160)%nat.

Fixpoint dropWhitespace (s : string) : string :=
  match s with
  | String c s' => if isWhitespace c then dropWhitespace s' else s
  | EmptyString => EmptyString
  end.

(** [s.replace(/^new\s+/i, '')] on a lower-cased [s]. *)
Definition stripNew (s : string) : string :=
  match s with
  | String "n" (String "e" (String "w" (String c rest))) =>
      if isWhitespace c then dropWhitespace rest else s
  | _ => s
  end.

Definition mockIntent (nodeType : VOPLNodeType) (nodeName : string) : string :=
  ((match nodeType with
    | trigger => "Handle incoming"
    | process => "Process and transform"
    | integration => "Integrate with external service to"
    | output => "Produce output for"
    end)
   ++ " " ++ stripNew (toLowerCase nodeName) ++ " operations")%string.

Definition mockBehavior (nodeType : VOPLNodeType) (nodeName : string) : string :=
  ("## Overview" ++ nl ++ "This " ++ typeName nodeType ++ " node handles "
   ++ toLowerCase nodeName ++ " operations." ++ nl ++ nl
   ++ "## Steps" ++ nl ++ "1. Receive input data" ++ nl
   ++ "2. Validate the input format" ++ nl
   ++ "3. Process according to business rules" ++ nl
   ++ "4. Return the result or appropriate error" ++ nl ++ nl
   ++ "## Error Handling" ++ nl ++ "- Return descriptive error messages" ++ nl
   ++ "- Log errors for debugging")%string.

Definition mockPorts (ports : list PortDefinition)
    (shape describe : string) (fallback : PortDefinition)
  : list PortDefinition :=
  if (0 <? List.length ports)%nat
  then map (fun p =>
              {| port_name := port_name p;
                 port_shape := if String.eqb (port_shape p) "unknown"
                               then shape else port_shape p;
                 port_description :=
                   or_else (port_description p)
                           (describe ++ port_name p)%string |})
           ports
  else [fallback].

Definition mockExamples : list Example :=
  [ {| ex_input := ("{ " ++ dq ++ "data" ++ dq ++ ": " ++ dq
                    ++ "example input" ++ dq ++ " }")%string;
       ex_output := ("{ " ++ dq ++ "result" ++ dq ++ ": " ++ dq
                     ++ "processed output" ++ dq ++ " }")%string;
       ex_notes := "Happy path scenario" |};
    {| ex_input := ("{ " ++ dq ++ "data" ++ dq ++ ": null }")%string;
       ex_output := ("{ " ++ dq ++ "error" ++ dq ++ ": " ++ dq
                     ++ "Invalid input" ++ dq ++ " }")%string;
       ex_notes := "Error handling example" |} ].

Definition mockConstraints : list string :=
  [ "Must complete within reasonable time limits";
    "Should handle invalid input gracefully";
    "Must maintain data consistency" ].

(** The [default:] arm of the source's [switch] is unreachable for a
    [field] of the declared type and has no counterpart here. *)
Definition getMockAutogenResult (context : AutogenContext) : AutogenResult :=
  let project := ctx_project context in
  let nodeId := ctx_nodeId context in
  let field := ctx_field context in
  match findNode project nodeId with
  | None =>
      {| res_success := false;
         res_field := field;
         res_value := AString "";
         res_error := Some "Node not found" |}
  | Some node =>
      let nodeName := name (data node) in
      let nodeType := node_type node in
      match field with
      | f_intent =>
          mkResult true field (AString (mockIntent nodeType nodeName)) None
      | f_behavior =>
          mkResult true field (AString (mockBehavior nodeType nodeName)) None
      | f_inputs =>
          mkResult true field
            (APorts (mockPorts (inputs (data node)) "{ data: unknown }"
                       "Input data for "
                       (mkPort "input" "Primary input data"
                               "{ data: unknown }")))
            None
      | f_outputs =>
          mkResult true field
            (APorts (mockPorts (outputs (data node)) "{ result: unknown }"
                       "Output data from "
                       (mkPort "output" "Primary output data"
                               "{ result: unknown }")))
            None
      | f_examples => mkResult true field (AExamples mockExamples) None
      | f_constraints => mkResult true field (AStrings mockConstraints) None
      end
  end.

(** *** Inference of the field to regenerate *)

(** What [inferFieldFromIssue] hands back: a field kind, [null], or, when
    the lookup in [fieldMap] falls through to the prototype chain, the
    member of [Object.prototype] of that name. *)
Inductive InferredField : Type :=
| IsField (f : AutogenFieldType)
| IsNull
| IsPrototypeMember (key : string).

Definition fieldMap : list (string * AutogenFieldType) :=
  [ ("intent", f_intent); ("behavior", f_behavior); ("inputs", f_inputs);
    ("outputs", f_outputs); ("examples", f_examples);
    ("constraints", f_constraints) ].

Definition inferFieldFromIssue (issue : SpecIssue) : InferredField :=
  let message := toLowerCase (message issue) in
  (* an absent field and an empty one are both falsy *)
  let issue_field := match field issue with Some f => f | None => "" end in
  if truthy issue_field
  then
    (* fieldMap[issue.field] || null *)
    match lookup fieldMap issue_field with
    | Own f => IsField f
    | Inherited key => IsPrototypeMember key
    | Absent => IsNull
    end
  else if includes message "intent" || includes message "purpose"
  then IsField f_intent
  else if includes message "behavior" || includes message "description"
          || includes message "describe"
  then IsField f_behavior
  else if includes message "input" && negb (includes message "output")
  then IsField f_inputs
  else if includes message "output" && negb (includes message "input")
  then IsField f_outputs
  else if includes message "example" || includes message "edge case"
  then IsField f_examples
  else if includes message "constraint" || includes message "requirement"
          || includes message "limit"
  then IsField f_constraints
  else
    match dimension issue with
    | completeness => IsField f_behavior
    | ambiguity => IsField f_intent
    | _ => IsNull
    end.

Definition inferFieldFromSuggestion (suggestion : string)
    (project : VOPLProject) : option (AutogenFieldType * string) :=
  let suggestionLower := toLowerCase suggestion in
  (* project.nodes[0], then the loop that stops at the first match *)
  let targetNode := nth_error (nodes project) 0 in
  let targetNode :=
    match find (fun node => includes suggestion (name (data node)))
               (nodes project) with
    | Some node => Some node
    | None => targetNode
    end in
  match targetNode with
  | None => None
  | Some targetNode =>
      if includes suggestionLower "behavior"
         || includes suggestionLower "description"
         || includes suggestionLower "error handling"
      then Some (f_behavior, node_id targetNode)
      else if includes suggestionLower "example"
              || includes suggestionLower "edge case"
      then Some (f_examples, node_id targetNode)
      else if includes suggestionLower "type"
              || includes suggestionLower "shape"
      then
        if includes suggestionLower "input"
        then Some (f_inputs, node_id targetNode)
        else if includes suggestionLower "output"
        then Some (f_outputs, node_id targetNode)
        else Some (f_inputs, node_id targetNode)
      else if includes suggestionLower "constraint"
              || includes suggestionLower "requirement"
      then Some (f_constraints, node_id targetNode)
      else Some (f_behavior, node_id targetNode)
  end.

(** *** The adapter: [analyzeSpec] and [autogenField] *)

Section Adapter.

(** [import.meta.env.VITE_ANTHROPIC_API_KEY]: absent or a string. *)
Variable ANTHROPIC_API_KEY : option string.

(** The external model call. *)
Variable messages_create : Request -> Reply.

(** [JSON.parse]: [None] when it throws a SyntaxError. *)
Variable JSON_parse : string -> option value.

Variable Date_now : Z.

(** The text of the two prompts. Both are template literals over their
    arguments: they always produce a string, and nothing below depends on
    which. *)
Variable analysisPromptText : VOPLProject -> string.
Variable autogenPromptText :
  VOPLProject -> VOPLNode -> AutogenFieldType -> string -> string.

Definition apiKey : string :=
  match ANTHROPIC_API_KEY with Some k => k | None => "" end.

Definition buildAnalysisPrompt (project : VOPLProject) : string :=
  analysisPromptText project.

Definition call (r : Request) : M (list ContentBlock) :=
  ([NetworkCall r],
   match messages_create r with
   | Rejected e => Throw e
   | Resolved content => Return content
   end).

(** [response.content[0]] followed by the test of [content.type]: an empty
    content has no first block and reading [.type] of [undefined] throws. *)
Definition textOf (content : list ContentBlock) : M string :=
  match nth_error content 0 with
  | None => throw TypeError
  | Some (TextBlock text) => ret text
  | Some (OtherBlock _) => throw (ErrorMsg "Unexpected response type")
  end.

Definition parse (text : string) : M value :=
  match JSON_parse text with
  | Some v => ret v
  | None => throw SyntaxError
  end.

(** [{ score: result.k.score, details: result.k.details || [] }]. *)
Definition dimensionOf (result : value) (k : string) : M value :=
  d <- lift (get result k) ;;
  s <- lift (get d "score") ;;
  dt <- lift (get d "details") ;;
  ret (VObj [("score", s); ("details", vor dt (VArr []))]).

(** The callback mapped over the issues of the response. *)
Definition normalizeIssue (issue : value) : M value :=
  sev <- lift (get issue "severity") ;;
  dim <- lift (get issue "dimension") ;;
  nid <- lift (get issue "nodeId") ;;
  fld <- lift (get issue "field") ;;
  msg <- lift (get issue "message") ;;
  ret (VObj [ ("severity", vor sev (VStr "warning"));
              ("dimension", vor dim (VStr "completeness"));
              ("nodeId", vor nid VUndefined);
              ("field", vor fld VUndefined);
              ("message", vor msg (VStr "Unknown issue")) ]).

(** [(result.issues || []).map(...)]: only an array has a [map]. *)
Definition normalizeIssues (issues : value) : M value :=
  match vor issues (VArr []) with
  | VArr items => l <- mapM normalizeIssue items ;; ret (VArr l)
  | _ => throw TypeError
  end.

(** The object literal returned on success. *)
Definition normalize (result : value) : M value :=
  ov <- lift (get result "overall") ;;
  c <- dimensionOf result "completeness" ;;
  a <- dimensionOf result "ambiguity" ;;
  k <- dimensionOf result "consistency" ;;
  g <- dimensionOf result "groundedness" ;;
  iss0 <- lift (get result "issues") ;;
  iss <- normalizeIssues iss0 ;;
  sug <- lift (get result "suggestions") ;;
  ret (VObj [ ("overall", ov); ("completeness", c); ("ambiguity", a);
              ("consistency", k); ("groundedness", g); ("issues", iss);
              ("suggestions", vor sug (VArr []));
              ("lastUpdated", VNum (inject_Z Date_now)) ]).

Definition analyzeSpec (project : VOPLProject) : M SpecScoreValue :=
  if negb (truthy apiKey)
  then ret (Typed (getMockScore Date_now project))
  else
    tryCatch
      (let prompt := buildAnalysisPrompt project in
       content <- call {| req_apiKey := apiKey;
                          req_model := "claude-sonnet-4-20250514";
                          req_max_tokens := 2000;
                          req_prompt := prompt |} ;;
       text <- textOf content ;;
       result <- parse text ;;
       v <- normalize result ;;
       ret (Dynamic v))
      (fun error =>
         console_error "Spec analysis failed:" error ;;;
         ret (Typed (getMockScore Date_now project))).

Definition buildAutogenPrompt (context : AutogenContext) : M string :=
  let project := ctx_project context in
  let nodeId := ctx_nodeId context in
  match findNode project nodeId with
  | None => throw (ErrorMsg ("Node " ++ nodeId ++ " not found")%string)
  | Some node =>
      ret (autogenPromptText project node (ctx_field context)
                             (issueMessage context))
  end.

Definition autogenField (context : AutogenContext) : M AutogenResult :=
  let field := ctx_field context in
  if negb (truthy apiKey)
  then ret (getMockAutogenResult context)
  else
    tryCatch
      (prompt <- buildAutogenPrompt context ;;
       content <- call {| req_apiKey := apiKey;
                          req_model := "claude-sonnet-4-20250514";
                          req_max_tokens := 1500;
                          req_prompt := prompt |} ;;
       text <- textOf content ;;
       result <- parse text ;;
       v <- lift (get result "value") ;;
       ret {| res_success := true;
              res_field := field;
              res_value := ADynamic v;
              res_error := None |})
      (fun error =>
         console_error "Autogen failed:" error ;;;
         ret (getMockAutogenResult context)).

End Adapter.

End SpecAnalysis.

(** ** The project store: [deleteNode] *)

Module ProjectStore.

Record ProjectState : Type := mkState {
  project : VOPLProject;
  selectedNodeId : option string;
  isPanelOpen : bool;
  isSystemContextOpen : bool;
  isAnalyzing : bool
}.

Definition option_string_eqb (a : option string) (b : string) : bool :=
  match a with
  | Some s => String.eqb s b
  | None => false
  end.

(** [deleteNode(nodeId)]: the state that [set] installs; [Date_now] is the
    value of [Date.now()] at the call. *)
Definition deleteNode (Date_now : Z) (nodeId : string) (state : ProjectState)
  : ProjectState :=
  {| project :=
       {| project_id := project_id (project state);
          project_name := project_name (project state);
          systemContext := systemContext (project state);
          nodes := filter (fun node => negb (String.eqb (node_id node) nodeId))
                          (nodes (project state));
          edges := filter (fun edge =>
                             negb (String.eqb (source edge) nodeId)
                             && negb (String.eqb (target edge) nodeId))
                          (edges (project state));
          specScore := specScore (project state);
          lastModified := Date_now |};
     selectedNodeId :=
       if option_string_eqb (selectedNodeId state) nodeId
       then None else selectedNodeId state;
     isPanelOpen :=
       if option_string_eqb (selectedNodeId state) nodeId
       then false else isPanelOpen state;
     isSystemContextOpen := isSystemContextOpen state;
     isAnalyzing := isAnalyzing state |}.

End ProjectStore.

(** ** Vocabulary of the properties

    The predicates below say in logical terms what the boolean tests of the
    source compute; the lemmas of the next part relate the two. *)

Module Props.

Import JS SpecAnalysis.
Local Open Scope list_scope.

(** [sub] occurs in [s]. *)
Definition Occurs (sub s : string) : Prop :=
  exists before after, s = (before ++ sub ++ after)%string.

(** [s] begins with [p]. *)
Definition BeginsWith (p s : string) : Prop :=
  exists rest, s = (p ++ rest)%string.

(** A credit of [pts] points is earned exactly when [P] holds. *)
Definition credit (P : Prop) (pts earned : Z) : Prop :=
  (P /\ earned = pts) \/ (~ P /\ earned = 0).

Definition NameCustomized (d : VOPLNodeData) : Prop :=
  name d <> "" /\ ~ BeginsWith "New " (name d).

(** Some port of the list has a shape that is set and is not the
    placeholder. *)
Definition HasDefinedShape (ports : list PortDefinition) : Prop :=
  exists p, In p ports /\ port_shape p <> "" /\ port_shape p <> "unknown".

(** A node without incoming and without outgoing edge. *)
Definition Isolated (project : VOPLProject) (node : VOPLNode) : Prop :=
  forall e, In e (edges project) ->
            target e <> node_id node /\ source e <> node_id node.

(** A port with its shape replaced, and a node with its input ports
    replaced: what editing a shape in the panel does to the node. *)
Definition withShape (p : PortDefinition) (s : string) : PortDefinition :=
  {| port_name := port_name p;
     port_description := port_description p;
     port_shape := s |}.

Definition withInputs (node : VOPLNode) (ports : list PortDefinition)
  : VOPLNode :=
  {| node_id := node_id node;
     node_type := node_type node;
     position := position node;
     data := {| name := name (data node);
                intent := intent (data node);
                inputs := ports;
                outputs := outputs (data node);
                behavior := behavior (data node);
                examples := examples (data node);
                constraints := constraints (data node) |} |}.

Definition isError (i : SpecIssue) : bool :=
  match severity i with error => true | _ => false end.

Definition isConsistency (i : SpecIssue) : bool :=
  match dimension i with consistency => true | _ => false end.

Definition isAmbiguity (i : SpecIssue) : bool :=
  match dimension i with ambiguity => true | _ => false end.

(** The node that a suggestion targets, in the words of the specification:
    the first node, in graph order, whose name occurs in the text, or the
    first node of the graph when no name occurs. *)
Inductive Target (suggestion : string) : list VOPLNode -> VOPLNode -> Prop :=
| target_named (before after : list VOPLNode) (n : VOPLNode) :
    (forall m, In m before -> ~ Occurs (name (data m)) suggestion) ->
    Occurs (name (data n)) suggestion ->
    Target suggestion (before ++ n :: after) n
| target_default (n : VOPLNode) (rest : list VOPLNode) :
    (forall m, In m (n :: rest) -> ~ Occurs (name (data m)) suggestion) ->
    Target suggestion (n :: rest) n.

(** [l'] is [l] with exactly the elements satisfying [P] taken out, the
    others kept in their order and number. *)
Inductive Removed {A : Type} (P : A -> Prop) : list A -> list A -> Prop :=
| removed_nil : Removed P [] []
| removed_drop x l l' : P x -> Removed P l l' -> Removed P (x :: l) l'
| removed_keep x l l' : ~ P x -> Removed P l l' -> Removed P (x :: l) (x :: l').

(** The weighted sum that [getMockScore] rounds into the overall score, as
    a function of the completeness total and of the consistency score. *)
Definition weightedOverall (completenessScore : Q) (consistencyScore : Z)
  : Z :=
  Math_round
    (fadd (fadd (fadd (fmul completenessScore (double (35 # 100)))
                      (fmul (inject_Z 50) (double (25 # 100))))
                (fmul (inject_Z consistencyScore) (double (25 # 100))))
          (fmul (inject_Z 60) (double (15 # 100)))).

(** A value whose properties can be read without a TypeError. *)
Definition Readable (v : value) : Prop := v <> VUndefined /\ v <> VNull.

(** The member [k] of [v], [undefined] when there is none. *)
Definition member (v : value) (k : string) : value :=
  match v with
  | VObj props =>
      match assoc k props with Some x => x | None => VUndefined end
  | _ => VUndefined
  end.

(** The [issues] member of a response that the adapter can map over:
    absent or falsy, or an array of readable items. *)
Definition IssuesOk (v : value) : Prop :=
  truthy_value v = false
  \/ exists items, v = VArr items /\ Forall Readable items.

(** The parsed responses that [analyzeSpec] accepts. *)
Definition Accepted (v : value) : Prop :=
  Readable (member v "completeness")
  /\ Readable (member v "ambiguity")
  /\ Readable (member v "consistency")
  /\ Readable (member v "groundedness")
  /\ IssuesOk (member v "issues").

(** The ways in which the external call of [analyzeSpec] fails: the
    request is rejected, the response has no text block first, the text is
    not JSON, or the parsed value is not one that the adapter accepts. *)
Inductive ExternalFailure
    (messages_create : Request -> Reply)
    (JSON_parse : string -> option value) (r : Request) : Prop :=
| transport_error e :
    messages_create r = Rejected e ->
    ExternalFailure messages_create JSON_parse r
| empty_content :
    messages_create r = Resolved [] ->
    ExternalFailure messages_create JSON_parse r
| non_text_content type rest :
    messages_create r = Resolved (OtherBlock type :: rest) ->
    ExternalFailure messages_create JSON_parse r
| unparseable_json text rest :
    messages_create r = Resolved (TextBlock text :: rest) ->
    JSON_parse text = None ->
    ExternalFailure messages_create JSON_parse r
| unreadable_json text rest v :
    messages_create r = Resolved (TextBlock text :: rest) ->
    JSON_parse text = Some v ->
    ~ Accepted v ->
    ExternalFailure messages_create JSON_parse r.

(** The members that a score must have: the overall score and the four
    dimensions of the [SpecScore] interface and of the response format. *)
Definition requiredMembers : list string :=
  [ "overall"; "completeness"; "ambiguity"; "consistency"; "groundedness" ].

(** The failures of the external call as the specification lists them: a
    transport error, a response whose first block is not text, text that
    does not parse, and a parsed value that lacks a required member. *)
Inductive ListedFailure
    (messages_create : Request -> Reply)
    (JSON_parse : string -> option value) (r : Request) : Prop :=
| listed_transport_error e :
    messages_create r = Rejected e ->
    ListedFailure messages_create JSON_parse r
| listed_non_text_content type rest :
    messages_create r = Resolved (OtherBlock type :: rest) ->
    ListedFailure messages_create JSON_parse r
| listed_parse_failure text rest :
    messages_create r = Resolved (TextBlock text :: rest) ->
    JSON_parse text = None ->
    ListedFailure messages_create JSON_parse r
| listed_missing_member text rest v k :
    messages_create r = Resolved (TextBlock text :: rest) ->
    JSON_parse text = Some v ->
    In k requiredMembers ->
    member v k = VUndefined ->
    ListedFailure messages_create JSON_parse r.

(** The request that [analyzeSpec] sends. *)
Definition analysisRequest (key : option string)
    (analysisPromptText : VOPLProject -> string) (project : VOPLProject)
  : Request :=
  {| req_apiKey := apiKey key;
     req_model := "claude-sonnet-4-20250514";
     req_max_tokens := 2000;
     req_prompt := analysisPromptText project |}.

(** The body of the [try] block of [analyzeSpec]. *)
Definition analysisBody (key : option string)
    (messages_create : Request -> Reply)
    (JSON_parse : string -> option value) (Date_now : Z)
    (analysisPromptText : VOPLProject -> string) (project : VOPLProject)
  : M SpecScoreValue :=
  content <- call messages_create
               (analysisRequest key analysisPromptText project) ;;
  text <- textOf content ;;
  result <- parse JSON_parse text ;;
  v <- normalize Date_now result ;;
  ret (Dynamic v).

(** The keywords that [inferFieldFromIssue] looks for in a message. *)
Definition issueKeywords : list string :=
  [ "intent"; "purpose"; "behavior"; "description"; "describe"; "input";
    "output"; "example"; "edge case"; "constraint"; "requirement"; "limit" ].

(** The first suggestion of the heuristic scorer. *)
Definition behaviorSuggestion : string :=
  "Add detailed behavior descriptions with error handling to each node.".

(** A computation that causes no event. *)
Definition silent {A : Type} (m : M A) : Prop := fst m = [].

(** No node of the project has the identifier [id]. *)
Definition NoSuchNode (project : VOPLProject) (id : string) : Prop :=
  forall n, In n (nodes project) -> node_id n <> id.

(** The result that reports a missing node. *)
Definition notFound (field : AutogenFieldType) : AutogenResult :=
  {| res_success := false;
     res_field := field;
     res_value := AString "";
     res_error := Some "Node not found" |}.

End Props.

(** ** Sample inputs *)

Module Samples.

Import JS SpecAnalysis.
Local Open Scope list_scope.

Definition emptyProject : VOPLProject :=
  mkProject "p-0" "Untitled Project" defaultSystemContext [] [] None 0.

(** [defaultNodeData.process] of [types/vopl.ts]. *)
Definition defaultProcessData : VOPLNodeData :=
  {| name := "New Process";
     intent := "Describe the processing logic...";
     inputs := [ mkPort "input" "Input data to process" "unknown" ];
     outputs := [ mkPort "result" "Processed output" "unknown" ];
     behavior := ("## Logic" ++ nl ++ "Describe what this process does..."
                  ++ nl ++ nl ++ "## Error Handling" ++ nl
                  ++ "How should errors be handled?")%string;
     examples := [ mkExample "{}" "{}" "Example transformation" ];
     constraints := [] |}.

(** A process node as [addNode] creates it. *)
Definition newProcess (id : string) : VOPLNode :=
  mkNode id process (0%Q, 0%Q) defaultProcessData.

Definition plainEdge (id src tgt : string) : VOPLEdge :=
  mkEdge id src tgt None None None None.

(** Eleven freshly added nodes, two of them connected by one edge. *)
Definition elevenNodes : VOPLProject :=
  mkProject "p-1" "Untitled Project" defaultSystemContext
    (map newProcess ["n1"; "n2"; "n3"; "n4"; "n5"; "n6"; "n7"; "n8"; "n9";
                     "n10"; "n11"])
    [ plainEdge "e1" "n1" "n2" ]
    None 0.

(** Three nodes, the first two connected. *)
Definition threeNodes : VOPLProject :=
  mkProject "p-2" "Untitled Project" defaultSystemContext
    (map newProcess ["a"; "b"; "c"])
    [ plainEdge "e1" "a" "b" ]
    None 0.

(** Two nodes and no edge. *)
Definition twoLooseNodes : VOPLProject :=
  mkProject "p-3" "Untitled Project" defaultSystemContext
    (map newProcess ["a"; "b"]) [] None 0.

Definition validateInput : VOPLNode :=
  mkNode "process-1" process (350%Q, 100%Q)
    {| name := "Validate Input";
       intent := "Validate email format and password strength";
       inputs := [ mkPort "body" "Request body"
                          "{ email: string, password: string }" ];
       outputs := [];
       behavior := "";
       examples := [];
       constraints := [] |}.

Definition registration : VOPLProject :=
  mkProject "p-4" "User Registration API" defaultSystemContext
    [ newProcess "trigger-1"; validateInput ] [] None 0.

(** An issue whose explicit field is the name of an inherited member of
    every object literal. *)
Definition constructorIssue : SpecIssue :=
  {| severity := info;
     dimension := consistency;
     nodeId := None; edgeId := None;
     field := Some "constructor";
     message := "Check this node." |}.

(** An environment in which every external call fails in transport. *)
Definition offline : Request -> Reply := fun _ => Rejected TransportError.

Definition noJson : string -> option value := fun _ => None.

Definition plainAnalysisPrompt : VOPLProject -> string :=
  fun project => project_name project.

Definition plainAutogenPrompt
  : VOPLProject -> VOPLNode -> AutogenFieldType -> string -> string :=
  fun _ node _ issueMessage => (name (data node) ++ issueMessage)%string.

(** A request for a node that is no longer in the graph. *)
Definition staleContext : AutogenContext :=
  {| ctx_project := registration;
     ctx_nodeId := "process-9";
     ctx_field := f_behavior;
     issueMessage := "Behavior is missing." |}.

End Samples.

From Stdlib Require Import Permutation.

(** ** The other actions of the project store *)

Module StoreActions.

Import JS ProjectStore.
Local Open Scope list_scope.

(** [defaultNodeData] of [types/vopl.ts]. *)
Definition defaultNodeData (t : VOPLNodeType) : VOPLNodeData :=
  let nl := SpecAnalysis.nl in
  match t with
  | trigger =>
      {| name := "New Trigger";
         intent := "Describe what triggers this flow...";
         inputs := [];
         outputs := [ mkPort "payload" "Output data from trigger" "unknown" ];
         behavior :=
           ("## Trigger Type" ++ nl
            ++ "[HTTP endpoint / Cron schedule / Event listener / Manual trigger]"
            ++ nl ++ nl ++ "## Details" ++ nl
            ++ "Describe the trigger conditions...")%string;
         examples := [ mkExample "{}" "{}" "Example scenario" ];
         constraints := [] |}
  | process =>
      {| name := "New Process";
         intent := "Describe the processing logic...";
         inputs := [ mkPort "input" "Input data to process" "unknown" ];
         outputs := [ mkPort "result" "Processed output" "unknown" ];
         behavior :=
           ("## Logic" ++ nl ++ "Describe what this process does..."
            ++ nl ++ nl ++ "## Error Handling" ++ nl
            ++ "How should errors be handled?")%string;
         examples := [ mkExample "{}" "{}" "Example transformation" ];
         constraints := [] |}
  | integration =>
      {| name := "New Integration";
         intent := "Describe the external service interaction...";
         inputs := [ mkPort "request" "Data to send to service" "unknown" ];
         outputs := [ mkPort "response" "Response from service" "unknown" ];
         behavior :=
           ("## Service" ++ nl
            ++ "[Database / API / Cache / Message Queue / etc.]"
            ++ nl ++ nl ++ "## Operation" ++ nl
            ++ "Describe the operation (read/write/call)..."
            ++ nl ++ nl ++ "## Configuration" ++ nl
            ++ "Connection details shape...")%string;
         examples := [ mkExample "{}" "{}" "Example interaction" ];
         constraints := [] |}
  | output =>
      {| name := "New Output";
         intent := "Describe the output/response...";
         inputs := [ mkPort "data" "Data to output" "unknown" ];
         outputs := [];
         behavior :=
           ("## Output Type" ++ nl
            ++ "[HTTP response / File / Notification / etc.]"
            ++ nl ++ nl ++ "## Format" ++ nl
            ++ "Describe the output format...")%string;
         examples := [ mkExample "{}" "{}" "Example output" ];
         constraints := [] |}
  end.

(** [createEmptyProject()]; [uuid] is what [crypto.randomUUID()] returns
    and [Date_now] what [Date.now()] returns. *)
Definition createEmptyProject (uuid : string) (Date_now : Z) : VOPLProject :=
  {| project_id := uuid;
     project_name := "Untitled Project";
     systemContext := defaultSystemContext;
     nodes := [];
     edges := [];
     specScore := None;
     lastModified := Date_now |}.

(** The project of a state replaced, as [{ ...state, project: ... }]. *)
Definition withProject (state : ProjectState) (p : VOPLProject)
  : ProjectState :=
  {| project := p;
     selectedNodeId := selectedNodeId state;
     isPanelOpen := isPanelOpen state;
     isSystemContextOpen := isSystemContextOpen state;
     isAnalyzing := isAnalyzing state |}.

Definition setProjectName (Date_now : Z) (name : string)
    (state : ProjectState) : ProjectState :=
  withProject state
    {| project_id := project_id (project state);
       project_name := name;
       systemContext := systemContext (project state);
       nodes := nodes (project state);
       edges := edges (project state);
       specScore := specScore (project state);
       lastModified := Date_now |}.

Definition setSystemContext (Date_now : Z) (context : SystemContext)
    (state : ProjectState) : ProjectState :=
  withProject state
    {| project_id := project_id (project state);
       project_name := project_name (project state);
       systemContext := context;
       nodes := nodes (project state);
       edges := edges (project state);
       specScore := specScore (project state);
       lastModified := Date_now |}.

(** [keyof SystemContext]. *)
Inductive ContextKey : Type :=
| k_environment | k_constraints | k_infrastructure | k_dependencies
| k_security | k_nonFunctional.

(** [{ ...systemContext, [field]: value }]. *)
Definition setContextField (c : SystemContext) (field : ContextKey)
    (value : string) : SystemContext :=
  {| environment := match field with k_environment => value
                                    | _ => environment c end;
     ctx_constraints := match field with k_constraints => value
                                        | _ => ctx_constraints c end;
     infrastructure := match field with k_infrastructure => value
                                       | _ => infrastructure c end;
     dependencies := match field with k_dependencies => value
                                     | _ => dependencies c end;
     security := match field with k_security => value
                                 | _ => security c end;
     nonFunctional := match field with k_nonFunctional => value
                                      | _ => nonFunctional c end |}.

Definition updateSystemContextField (Date_now : Z) (field : ContextKey)
    (value : string) (state : ProjectState) : ProjectState :=
  setSystemContext Date_now
    (setContextField (systemContext (project state)) field value) state.

(** [addNode(type, position)]: the new node takes its data from the
    defaults of its type and is appended, selected and shown. *)
Definition addNode (uuid : string) (Date_now : Z) (type : VOPLNodeType)
    (position : Q * Q) (state : ProjectState) : ProjectState :=
  let d := defaultNodeData type in
  let newNode :=
    {| node_id := uuid;
       node_type := type;
       position := position;
       data := {| name := or_else (name d) "New Node";
                  intent := or_else (intent d) "";
                  inputs := inputs d;
                  outputs := outputs d;
                  behavior := or_else (behavior d) "";
                  examples := examples d;
                  constraints := constraints d |} |} in
  {| project :=
       {| project_id := project_id (project state);
          project_name := project_name (project state);
          systemContext := systemContext (project state);
          nodes := nodes (project state) ++ [newNode];
          edges := edges (project state);
          specScore := specScore (project state);
          lastModified := Date_now |};
     selectedNodeId := Some (node_id newNode);
     isPanelOpen := true;
     isSystemContextOpen := isSystemContextOpen state;
     isAnalyzing := isAnalyzing state |}.

(** [Partial<VOPLNodeData>]: the members that an update carries. *)
Record PartialNodeData : Type := mkPartial {
  new_name : option string;
  new_intent : option string;
  new_inputs : option (list PortDefinition);
  new_outputs : option (list PortDefinition);
  new_behavior : option string;
  new_examples : option (list Example);
  new_constraints : option (list string)
}.

Definition pick {A : Type} (update : option A) (old : A) : A :=
  match update with Some a => a | None => old end.

(** [{ ...node.data, ...data }]. *)
Definition mergeData (d : VOPLNodeData) (u : PartialNodeData)
  : VOPLNodeData :=
  {| name := pick (new_name u) (name d);
     intent := pick (new_intent u) (intent d);
     inputs := pick (new_inputs u) (inputs d);
     outputs := pick (new_outputs u) (outputs d);
     behavior := pick (new_behavior u) (behavior d);
     examples := pick (new_examples u) (examples d);
     constraints := pick (new_constraints u) (constraints d) |}.

Definition updateNode (Date_now : Z) (nodeId : string)
    (changes : PartialNodeData) (state : ProjectState) : ProjectState :=
  withProject state
    {| project_id := project_id (project state);
       project_name := project_name (project state);
       systemContext := systemContext (project state);
       nodes := map (fun node =>
                       if String.eqb (node_id node) nodeId
                       then {| node_id := node_id node;
                               node_type := node_type node;
                               position := position node;
                               data := mergeData (data node) changes |}
                       else node)
                    (nodes (project state));
       edges := edges (project state);
       specScore := specScore (project state);
       lastModified := Date_now |}.

Definition deleteEdge (Date_now : Z) (edgeId : string)
    (state : ProjectState) : ProjectState :=
  withProject state
    {| project_id := project_id (project state);
       project_name := project_name (project state);
       systemContext := systemContext (project state);
       nodes := nodes (project state);
       edges := filter (fun edge => negb (String.eqb (edge_id edge) edgeId))
                       (edges (project state));
       specScore := specScore (project state);
       lastModified := Date_now |}.

(** [updateEdge(edgeId, data)], where [data] may carry a [dataShape]. *)
Definition updateEdge (Date_now : Z) (edgeId : string)
    (new_dataShape : option string) (state : ProjectState) : ProjectState :=
  withProject state
    {| project_id := project_id (project state);
       project_name := project_name (project state);
       systemContext := systemContext (project state);
       nodes := nodes (project state);
       edges := map (fun edge =>
                       if String.eqb (edge_id edge) edgeId
                       then {| edge_id := edge_id edge;
                               source := source edge;
                               target := target edge;
                               sourceHandle := sourceHandle edge;
                               targetHandle := targetHandle edge;
                               label := label edge;
                               dataShape :=
                                 match new_dataShape with
                                 | Some s => Some s
                                 | None => dataShape edge
                                 end |}
                       else edge)
                    (edges (project state));
       specScore := specScore (project state);
       lastModified := Date_now |}.

Definition selectNode (nodeId : option string) (state : ProjectState)
  : ProjectState :=
  {| project := project state;
     selectedNodeId := nodeId;
     isPanelOpen := match nodeId with Some _ => true | None => false end;
     isSystemContextOpen := isSystemContextOpen state;
     isAnalyzing := isAnalyzing state |}.

Definition togglePanel (state : ProjectState) : ProjectState :=
  {| project := project state;
     selectedNodeId := selectedNodeId state;
     isPanelOpen := negb (isPanelOpen state);
     isSystemContextOpen := isSystemContextOpen state;
     isAnalyzing := isAnalyzing state |}.

Definition toggleSystemContext (state : ProjectState) : ProjectState :=
  {| project := project state;
     selectedNodeId := selectedNodeId state;
     isPanelOpen := isPanelOpen state;
     isSystemContextOpen := negb (isSystemContextOpen state);
     isAnalyzing := isAnalyzing state |}.

Definition setSpecScore (Date_now : Z) (score : SpecScoreValue)
    (state : ProjectState) : ProjectState :=
  withProject state
    {| project_id := project_id (project state);
       project_name := project_name (project state);
       systemContext := systemContext (project state);
       nodes := nodes (project state);
       edges := edges (project state);
       specScore := Some score;
       lastModified := Date_now |}.

Definition setIsAnalyzing (flag : bool) (state : ProjectState)
  : ProjectState :=
  {| project := project state;
     selectedNodeId := selectedNodeId state;
     isPanelOpen := isPanelOpen state;
     isSystemContextOpen := isSystemContextOpen state;
     isAnalyzing := flag |}.

Definition loadProject (p : VOPLProject) (state : ProjectState)
  : ProjectState :=
  {| project := p;
     selectedNodeId := None;
     isPanelOpen := false;
     isSystemContextOpen := false;
     isAnalyzing := isAnalyzing state |}.

Definition resetProject (uuid : string) (Date_now : Z)
    (state : ProjectState) : ProjectState :=
  loadProject (createEmptyProject uuid Date_now) state.

(** The state that [create] installs when the store is built. *)
Definition initialState (uuid : string) (Date_now : Z) : ProjectState :=
  {| project := createEmptyProject uuid Date_now;
     selectedNodeId := None;
     isPanelOpen := false;
     isSystemContextOpen := false;
     isAnalyzing := false |}.

(** [Connection] of the graph library, with the two ends that [addEdge]
    asserts to be present. *)
Record Connection : Type := mkConnection {
  conn_source : string;
  conn_target : string;
  conn_sourceHandle : option string;
  conn_targetHandle : option string
}.

(** [h || undefined] on a handle that is a string or [null]. *)
Definition handleOrUndefined (h : option string) : option string :=
  match h with
  | Some s => if truthy s then Some s else None
  | None => None
  end.

Section Library.

(** [addEdge] of the graph library: given the new edge and the edges, the
    edges to keep. *)
Variable lib_addEdge : VOPLEdge -> list VOPLEdge -> list VOPLEdge.

Definition addEdge (uuid : string) (Date_now : Z) (connection : Connection)
    (state : ProjectState) : ProjectState :=
  let newEdge :=
    {| edge_id := uuid;
       source := conn_source connection;
       target := conn_target connection;
       sourceHandle := handleOrUndefined (conn_sourceHandle connection);
       targetHandle := handleOrUndefined (conn_targetHandle connection);
       label := None;
       dataShape := None |} in
  withProject state
    {| project_id := project_id (project state);
       project_name := project_name (project state);
       systemContext := systemContext (project state);
       nodes := nodes (project state);
       edges := lib_addEdge newEdge (edges (project state));
       specScore := specScore (project state);
       lastModified := Date_now |}.

(** The actions of the store ([onNodesChange] and [onEdgesChange], which
    hand the whole list to the graph library, are not among them). An
    action carries what the environment supplies to it: the fresh
    identifier, if it draws one. *)
Inductive Action : Type :=
| SetProjectName (name : string)
| SetSystemContext (context : SystemContext)
| UpdateSystemContextField (field : ContextKey) (value : string)
| AddNode (uuid : string) (type : VOPLNodeType) (position : Q * Q)
| UpdateNode (nodeId : string) (changes : PartialNodeData)
| DeleteNode (nodeId : string)
| AddEdge (uuid : string) (connection : Connection)
| UpdateEdge (edgeId : string) (new_dataShape : option string)
| DeleteEdge (edgeId : string)
| SelectNode (nodeId : option string)
| TogglePanel
| ToggleSystemContext
| SetSpecScore (score : SpecScoreValue)
| SetIsAnalyzing (flag : bool)
| ResetProject (uuid : string)
| LoadProject (p : VOPLProject).

Definition dispatch (Date_now : Z) (a : Action) (state : ProjectState)
  : ProjectState :=
  match a with
  | SetProjectName name => setProjectName Date_now name state
  | SetSystemContext context => setSystemContext Date_now context state
  | UpdateSystemContextField field value =>
      updateSystemContextField Date_now field value state
  | AddNode uuid type position => addNode uuid Date_now type position state
  | UpdateNode nodeId changes => updateNode Date_now nodeId changes state
  | DeleteNode nodeId => deleteNode Date_now nodeId state
  | AddEdge uuid connection => addEdge uuid Date_now connection state
  | UpdateEdge edgeId shape => updateEdge Date_now edgeId shape state
  | DeleteEdge edgeId => deleteEdge Date_now edgeId state
  | SelectNode nodeId => selectNode nodeId state
  | TogglePanel => togglePanel state
  | ToggleSystemContext => toggleSystemContext state
  | SetSpecScore score => setSpecScore Date_now score state
  | SetIsAnalyzing flag => setIsAnalyzing flag state
  | ResetProject uuid => resetProject uuid Date_now state
  | LoadProject p => loadProject p state
  end.

(** A sequence of actions, each at its own time. *)
Fixpoint run (actions : list (Z * Action)) (state : ProjectState)
  : ProjectState :=
  match actions with
  | [] => state
  | (Date_now, a) :: rest => run rest (dispatch Date_now a state)
  end.

End Library.

End StoreActions.

(** ** Vocabulary of the store properties *)

Module StoreProps.

Import ProjectStore StoreActions.
Local Open Scope list_scope.

(** The project has a node with this identifier. *)
Definition HasNode (p : VOPLProject) (id : string) : Prop :=
  exists n, In n (nodes p) /\ node_id n = id.

(** No edge dangles: both ends of every edge are nodes of the project. *)
Definition Closed (p : VOPLProject) : Prop :=
  forall e, In e (edges p) -> HasNode p (source e) /\ HasNode p (target e).

(** No two nodes share an identifier. *)
Definition UniqueIds (p : VOPLProject) : Prop :=
  NoDup (map node_id (nodes p)).

(** The selected node, if any, is a node of the project. *)
Definition SelectionValid (state : ProjectState) : Prop :=
  forall id, selectedNodeId state = Some id -> HasNode (project state) id.

(** What the callers guarantee when they trigger an action: a drawn
    identifier is fresh, a node that is selected or connected is on the
    canvas, and an imported project is well formed. *)
Definition Admissible (state : ProjectState) (a : Action) : Prop :=
  match a with
  | AddNode uuid _ _ => ~ HasNode (project state) uuid
  | AddEdge _ connection =>
      HasNode (project state) (conn_source connection)
      /\ HasNode (project state) (conn_target connection)
  | SelectNode (Some id) => HasNode (project state) id
  | LoadProject p => Closed p /\ UniqueIds p
  | _ => True
  end.

(** The graph library adds at most the new edge. *)
Definition AddsAtMost
    (lib_addEdge : VOPLEdge -> list VOPLEdge -> list VOPLEdge) : Prop :=
  forall e es x, In x (lib_addEdge e es) -> x = e \/ In x es.

(** The states that the store can be in. *)
Inductive Reachable
    (lib_addEdge : VOPLEdge -> list VOPLEdge -> list VOPLEdge)
  : ProjectState -> Prop :=
| reach_initial uuid Date_now :
    Reachable lib_addEdge (initialState uuid Date_now)
| reach_step state Date_now a :
    Reachable lib_addEdge state ->
    Admissible state a ->
    Reachable lib_addEdge (dispatch lib_addEdge Date_now a state).

End StoreProps.

(** ** More sample inputs *)

Module MoreSamples.

Import ProjectStore StoreActions.
Local Open Scope list_scope.

(** A graph library that appends the new edge. *)
Definition appendEdge : VOPLEdge -> list VOPLEdge -> list VOPLEdge :=
  fun e es => es ++ [e].

(** The store after two nodes were added and connected. *)
Definition twoConnected : ProjectState :=
  run appendEdge
    [ (1, AddNode "n1" trigger (0%Q, 0%Q));
      (2, AddNode "n2" output (200%Q, 0%Q));
      (3, AddEdge "e1" (mkConnection "n1" "n2" (Some "payload")
                                     (Some "data"))) ]
    (initialState "p-0" 0).

(** [Samples.threeNodes] after its nodes were dragged, its edge
    relabelled and the project renamed. *)
Definition threeNodesMoved : VOPLProject :=
  mkProject "p-2" "Renamed" defaultSystemContext
    [ mkNode "a" process (10%Q, 20%Q) Samples.defaultProcessData;
      mkNode "b" process (30%Q, 40%Q) Samples.defaultProcessData;
      mkNode "c" process (50%Q, 60%Q) Samples.defaultProcessData ]
    [ mkEdge "e9" "a" "b" (Some "result") (Some "input") (Some "ok") None ]
    None 7.

(** [Samples.threeNodes] with its nodes listed in reverse. *)
Definition threeNodesReversed : VOPLProject :=
  mkProject "p-2" "Untitled Project" defaultSystemContext
    (map Samples.newProcess ["c"; "b"; "a"])
    [ Samples.plainEdge "e1" "a" "b" ]
    None 0.

(** A system context in which only the three fields that the warning
    does not name are filled. *)
Definition otherThreeFilled : SystemContext :=
  {| environment := "";
     ctx_constraints := "Max 100MB memory";
     infrastructure := "";
     dependencies := "";
     security := "HTTPS only, always";
     nonFunctional := "99.9% availability" |}.

Definition otherThreeProject : VOPLProject :=
  mkProject "p-5" "Untitled Project" otherThreeFilled
    [ Samples.newProcess "a" ] [] None 0.

(** A parsed model response with the four dimensions and one issue that
    gives only a message. *)
Definition terseResponse : JS.value :=
  JS.VObj
    [ ("completeness", JS.VObj [("score", JS.VNum 70)]);
      ("ambiguity", JS.VObj [("score", JS.VNum 55)]);
      ("consistency", JS.VObj [("score", JS.VNum 90)]);
      ("groundedness", JS.VObj [("score", JS.VNum 65)]);
      ("issues", JS.VArr [ JS.VObj [("message", JS.VStr "Too vague")] ]) ].

(** A parsed model response that gives an overall score and nothing
    else. *)
Definition scoreOnly : JS.value := JS.VObj [ ("overall", JS.VNum 70) ].

Definition parsesScoreOnly : string -> option JS.value :=
  fun _ => Some scoreOnly.

(** An environment in which the model answers and the answer parses. *)
Definition online : SpecAnalysis.Request -> SpecAnalysis.Reply :=
  fun _ => SpecAnalysis.Resolved [ SpecAnalysis.TextBlock "{...}" ].

Definition parsesTerse : string -> option JS.value :=
  fun _ => Some terseResponse.

End MoreSamples.

(** ** Vocabulary of the scorer properties *)

Module ScorerProps.

Import JS SpecAnalysis Props.
Local Open Scope list_scope.

(** What the scorer reads of a node and of an edge. *)
Definition scoredPart (n : VOPLNode) : string * VOPLNodeType * VOPLNodeData :=
  (node_id n, node_type n, data n).

Definition ends (e : VOPLEdge) : string * string := (source e, target e).

(** Two projects that agree on what the scorer reads: the system context,
    the identifier, type and data of each node, the two ends of each
    edge. They may differ in the positions of the nodes, in the
    identifiers, handles, labels and shapes of the edges, and in the name,
    identifier, stored score and date of the project. *)
Definition SameSpec (p q : VOPLProject) : Prop :=
  systemContext p = systemContext q
  /\ map scoredPart (nodes p) = map scoredPart (nodes q)
  /\ map ends (edges p) = map ends (edges q).

(** An intent that draws the warning. *)
Definition VagueIntent (d : VOPLNodeData) : Prop :=
  (String.length (intent d) < 20)%nat \/ BeginsWith "Describe" (intent d).

(** The project has a node of this type. *)
Definition HasType (p : VOPLProject) (t : VOPLNodeType) : Prop :=
  exists n, In n (nodes p) /\ node_type n = t.

(** The number of nodes that the consistency check counts as unconnected. *)
Definition looseCount (p : VOPLProject) : nat :=
  List.length (filter (unconnected p) (nodes p)).

(** A node with its intent replaced. *)
Definition withIntent (node : VOPLNode) (s : string) : VOPLNode :=
  {| node_id := node_id node;
     node_type := node_type node;
     position := position node;
     data := {| name := name (data node);
                intent := s;
                inputs := inputs (data node);
                outputs := outputs (data node);
                behavior := behavior (data node);
                examples := examples (data node);
                constraints := constraints (data node) |} |}.

(** The warning about the intent of a node. *)
Definition intentWarning (node : VOPLNode) : SpecIssue :=
  {| severity := warning;
     dimension := ambiguity;
     nodeId := Some (node_id node);
     edgeId := None;
     field := Some "intent";
     message := (dq ++ name (data node) ++ dq
                 ++ " needs a clearer intent description.")%string |}.

(** The fields of the system context that count as filled. *)
Definition filledFields (c : SystemContext) : list string :=
  filter (fun v => (10 <? String.length v)%nat) (Object_values c).

End ScorerProps.

(** ** Vocabulary of the adapter properties *)

Module AdapterProps.

Import JS SpecAnalysis Props.
Local Open Scope list_scope.


(** The value of a result has the shape that its field requires. *)
Definition ShapeMatches (f : AutogenFieldType) (v : AutogenValue) : Prop :=
  match f, v with
  | f_intent, AString _ | f_behavior, AString _ => True
  | f_inputs, APorts _ | f_outputs, APorts _ => True
  | f_examples, AExamples _ => True
  | f_constraints, AStrings _ => True
  | _, _ => False
  end.

(** The ports that the mock generator proposes for the inputs and for the
    outputs of a node: the two expressions of [getMockAutogenResult]. *)
Definition mockInputs (ports : list PortDefinition) : list PortDefinition :=
  mockPorts ports "{ data: unknown }" "Input data for "
            (mkPort "input" "Primary input data" "{ data: unknown }").

Definition mockOutputs (ports : list PortDefinition) : list PortDefinition :=
  mockPorts ports "{ result: unknown }" "Output data from "
            (mkPort "output" "Primary output data" "{ result: unknown }").

(** An issue with another message. *)
Definition withMessage (i : SpecIssue) (m : string) : SpecIssue :=
  {| severity := severity i;
     dimension := dimension i;
     nodeId := nodeId i;
     edgeId := edgeId i;
     field := field i;
     message := m |}.

(** The field that the keyword rules of [inferFieldFromSuggestion] give to
    a suggestion. *)
Definition suggestionField (suggestion : string) : AutogenFieldType :=
  let suggestionLower := toLowerCase suggestion in
  if includes suggestionLower "behavior"
     || includes suggestionLower "description"
     || includes suggestionLower "error handling"
  then f_behavior
  else if includes suggestionLower "example"
          || includes suggestionLower "edge case"
  then f_examples
  else if includes suggestionLower "type" || includes suggestionLower "shape"
  then if includes suggestionLower "input" then f_inputs
       else if includes suggestionLower "output" then f_outputs
       else f_inputs
  else if includes suggestionLower "constraint"
          || includes suggestionLower "requirement"
  then f_constraints
  else f_behavior.


End AdapterProps.

(** ** The completeness badge of a node ([BaseNode.tsx]) *)

Module BaseNode.

Import JS SpecAnalysis.
Local Open Scope list_scope.

(** [Math.min] and [Math.max]. *)
Definition Math_min (a b : Q) : Q := if Qle_bool a b then a else b.

Definition Math_max (a b : nat) : nat := Nat.max a b.

(** The callback that selects the examples worth counting. *)
Definition goodExample (e : Example) : bool :=
  negb (String.eqb (ex_input e) "{}")
  && negb (String.eqb (ex_output e) "{}")
  && truthy (ex_notes e).

Definition definedPort (p : PortDefinition) : bool :=
  truthy (port_shape p) && negb (String.eqb (port_shape p) "unknown").

Definition calculateCompleteness (d : VOPLNodeData) : Z :=
  let score := 0%Q in
  let total := 0%Q in
  let name := or_else (name d) "" in
  let intent := or_else (intent d) "" in
  let behavior := or_else (behavior d) "" in
  let inputs := inputs d in
  let outputs := outputs d in
  let examples := examples d in
  (* Name (10%) *)
  let total := fadd total 10 in
  let score :=
    if truthy name && negb (startsWith name "New ")
    then fadd score 10 else score in
  (* Intent (20%) *)
  let total := fadd total 20 in
  let score :=
    if truthy intent && (20 <? String.length intent)%nat
       && negb (startsWith intent "Describe")
    then fadd score 20 else score in
  (* Inputs defined with shapes (15%) *)
  let total := fadd total 15 in
  let score :=
    if (0 <? List.length inputs)%nat
    then
      let definedInputs := filter definedPort inputs in
      fadd score
           (fmul (fdiv (nat_to_Q (List.length definedInputs))
                       (nat_to_Q (List.length inputs)))
                 15)
    else if (0 <? List.length outputs)%nat
    then fadd score 15
    else score in
  (* Outputs defined with shapes (15%) *)
  let total := fadd total 15 in
  let score :=
    if (0 <? List.length outputs)%nat
    then
      let definedOutputs := filter definedPort outputs in
      fadd score
           (fmul (fdiv (nat_to_Q (List.length definedOutputs))
                       (nat_to_Q (List.length outputs)))
                 15)
    else fadd score 15 in
  (* Behavior (25%) *)
  let total := fadd total 25 in
  let score :=
    if truthy behavior && (50 <? String.length behavior)%nat
    then fadd score
              (Math_min 25
                 (fmul (fdiv (nat_to_Q (String.length behavior)) 200) 25))
    else score in
  (* Examples (15%) *)
  let total := fadd total 15 in
  let score :=
    if (0 <? List.length examples)%nat
    then
      let goodExamples := filter goodExample examples in
      fadd score
           (fmul (fdiv (nat_to_Q (List.length goodExamples))
                       (nat_to_Q (Math_max (List.length examples) 2)))
                 15)
    else score in
  Math_round (fmul (fdiv score total) 100).

(** The colour of the badge. *)
Definition completenessColor (completeness : Z) : string :=
  if completeness <? 50 then "bg-red-500"
  else if completeness <? 80 then "bg-yellow-500"
  else "bg-green-500".

End BaseNode.

(** ** The header: export names and the project name *)

Module Header.

Import JS SpecAnalysis ProjectStore StoreActions.
Local Open Scope list_scope.

(** [s.replace(/\s+/g, '-')]: every maximal run of whitespace becomes
    one dash; [inRun] tells that the previous character was whitespace. *)
Fixpoint dashes (inRun : bool) (s : string) : string :=
  match s with
  | EmptyString => EmptyString
  | String c s' =>
      if isWhitespace c
      then if inRun then dashes true s' else String "-" (dashes true s')
      else String c (dashes false s')
  end.

Definition replaceWhitespace (s : string) : string := dashes false s.

(** The names under which [handleExportJSON] and [handleExportMarkdown]
    offer the file. *)
Definition jsonFileName (p : VOPLProject) : string :=
  (replaceWhitespace (project_name p) ++ ".vopl.json")%string.

Definition markdownFileName (p : VOPLProject) : string :=
  (replaceWhitespace (project_name p) ++ ".spec.md")%string.

(** [s.trimEnd()] and [s.trim()]. *)
Fixpoint trimEnd (s : string) : string :=
  match s with
  | EmptyString => EmptyString
  | String c s' =>
      match trimEnd s' with
      | EmptyString => if isWhitespace c then EmptyString
                       else String c EmptyString
      | rest => String c rest
      end
  end.

Definition trim (s : string) : string := trimEnd (dropWhitespace s).

(** The characters of a string, its first and its last. *)
Definition chars (s : string) : list ascii := list_ascii_of_string s.

Definition firstChar (s : string) : option ascii := hd_error (chars s).

Definition lastChar (s : string) : option ascii := hd_error (rev (chars s)).

(** [c] is absent or is not whitespace. *)
Definition notWhitespace (c : option ascii) : Prop :=
  match c with
  | Some a => isWhitespace a = false
  | None => True
  end.

(** [handleNameSubmit]: what it does to the store. *)
Definition handleNameSubmit (Date_now : Z) (editName : string)
    (state : ProjectState) : ProjectState :=
  if truthy (trim editName)
  then setProjectName Date_now (trim editName) state
  else state.

End Header.

(** ** The score panel ([SpecOMeter.tsx]) *)

Module SpecOMeter.

Import JS SpecAnalysis ProjectStore StoreActions.
Local Open Scope list_scope.

Definition handleIssueClick (issue : SpecIssue) (state : ProjectState)
  : ProjectState :=
  match nodeId issue with
  | Some id => if truthy id then selectNode (Some id) state else state
  | None => state
  end.

Section Analysis.

Variable ANTHROPIC_API_KEY : option string.
Variable messages_create : Request -> Reply.
Variable JSON_parse : string -> option value.
Variable analysisPromptText : VOPLProject -> string.

(** [handleManualAnalyze]: the flag is raised, the project of the state is
    analysed, the score is stored, and the flag is lowered whether or not
    the analysis threw ([finally]). [scored_at] and [stored_at] are the
    two readings of the clock. The result is the events, the final state
    and how the handler completed. No other action reaches the store
    while the analysis is awaited. *)
Definition handleManualAnalyze (scored_at stored_at : Z)
    (state : ProjectState) : list Event * ProjectState * Completion unit :=
  let state1 := setIsAnalyzing true state in
  match analyzeSpec ANTHROPIC_API_KEY messages_create JSON_parse scored_at
                    analysisPromptText (project state) with
  | (events, Return score) =>
      (events,
       setIsAnalyzing false (setSpecScore stored_at score state1),
       Return tt)
  | (events, Throw e) => (events, setIsAnalyzing false state1, Throw e)
  end.

End Analysis.

Definition getScoreColor (score : Z) : string :=
  if 80 <=? score then "text-green-600"
  else if 50 <=? score then "text-yellow-600"
  else "text-red-600".

Definition getScoreBgColor (score : Z) : string :=
  if 80 <=? score then "bg-green-500"
  else if 50 <=? score then "bg-yellow-500"
  else "bg-red-500".

End SpecOMeter.

(** ** The list editors of the node panel *)

Module NodePanel.

Import ProjectStore StoreActions.
Local Open Scope list_scope.

(** [list.filter((_, i) => i !== index)]. *)
Fixpoint removeAt {A : Type} (index : nat) (l : list A) : list A :=
  match l with
  | [] => []
  | a :: l' =>
      match index with
      | O => l'
      | S i => a :: removeAt i l'
      end
  end.

(** [addPort] and [removePort] of [PortList], as the list handed to
    [onChange]. *)
Definition addPort (ports : list PortDefinition) : list PortDefinition :=
  ports ++ [ mkPort "" "" "" ].

Definition removePort (index : nat) (ports : list PortDefinition)
  : list PortDefinition :=
  removeAt index ports.

Definition addExample (examples : list Example) : list Example :=
  examples ++ [ mkExample "" "" "" ].

Definition removeExample (index : nat) (examples : list Example)
  : list Example :=
  removeAt index examples.

Definition addConstraint (constraints : list string) : list string :=
  constraints ++ [ ""%string ].

Definition removeConstraint (index : nat) (constraints : list string)
  : list string :=
  removeAt index constraints.

(** [handleUpdate(data)]: the update goes to the selected node, if any. *)
Definition handleUpdate (Date_now : Z) (changes : PartialNodeData)
    (state : ProjectState) : ProjectState :=
  match selectedNodeId state with
  | Some id => if JS.truthy id then updateNode Date_now id changes state
               else state
  | None => state
  end.

(** The update that carries only new inputs. *)
Definition onlyInputs (ports : list PortDefinition) : PartialNodeData :=
  mkPartial None None (Some ports) None None None None.

End NodePanel.

(** ** Facts about the runtime functions *)

Module JSFacts.

Import JS Props.

Lemma truthy_true_iff (s : string) : truthy s = true <-> s <> "".
Proof.
  destruct s; simpl; split; intro H; try reflexivity;
    try discriminate; congruence.
Qed.

Lemma truthy_false_iff (s : string) : truthy s = false <-> s = "".
Proof.
  destruct s; simpl; split; intro H; try reflexivity; discriminate.
Qed.

Lemma startsWith_BeginsWith (s p : string) :
  startsWith s p = true <-> BeginsWith p s.
Proof.
  revert s; induction p as [|c p IH]; intro s; simpl.
  - split; [intros _; exists s; reflexivity | reflexivity].
  - destruct s as [|d s].
    + split; [discriminate | intros [rest H]; discriminate].
    + rewrite andb_true_iff, Ascii.eqb_eq, IH. split.
      * intros [-> [rest ->]]. exists rest. reflexivity.
      * intros [rest H]. simpl in H. injection H as -> ->.
        split; [reflexivity | exists rest; reflexivity].
Qed.

Lemma includes_unfold (s sub : string) :
  includes s sub
  = startsWith s sub
    || match s with
       | EmptyString => false
       | String _ s' => includes s' sub
       end.
Proof. destruct s; reflexivity. Qed.

Lemma includes_Occurs (s sub : string) :
  includes s sub = true <-> Occurs sub s.
Proof.
  split.
  - induction s as [|c s IH]; rewrite includes_unfold, orb_true_iff.
    + intros [H | H]; [| discriminate].
      apply startsWith_BeginsWith in H. destruct H as [rest ->].
      exists EmptyString, rest. reflexivity.
    + intros [H | H].
      * apply startsWith_BeginsWith in H. destruct H as [rest ->].
        exists EmptyString, rest. reflexivity.
      * destruct (IH H) as (b & a & ->).
        exists (String c b), a. reflexivity.
  - intros (b & a & ->). induction b as [|c b IH].
    + rewrite includes_unfold. apply orb_true_iff. left.
      apply startsWith_BeginsWith. exists a. reflexivity.
    + simpl append. rewrite includes_unfold, IH. apply orb_true_r.
Qed.

Lemma includes_false_iff (s sub : string) :
  includes s sub = false <-> ~ Occurs sub s.
Proof.
  rewrite <- includes_Occurs. destruct (includes s sub); split; intro H;
    try reflexivity; try discriminate; congruence.
Qed.

End JSFacts.

(** ** Facts about double-precision arithmetic *)

Module DoubleFacts.

Import JS.
Local Open Scope Q_scope.

Lemma pow2_pos (z : Z) : 0 < 2 ^ z.
Proof. apply Qpower_0_lt. reflexivity. Qed.

Lemma pow2_nonzero (z : Z) : ~ 2 ^ z == 0.
Proof. intro H. pose proof (pow2_pos z) as P. rewrite H in P. discriminate P. Qed.

Lemma pow2_succ (z : Z) : 2 ^ (z + 1) == 2 ^ z * 2.
Proof. rewrite Qpower_plus; [reflexivity | discriminate]. Qed.

Lemma pow2_add (a b : Z) : 2 ^ (a + b) == 2 ^ a * 2 ^ b.
Proof. apply Qpower_plus. discriminate. Qed.

Lemma pow2_le (a b : Z) : (a <= b)%Z -> 2 ^ a <= 2 ^ b.
Proof. intro H. apply Qpower_le_compat_l; [exact H | discriminate]. Qed.

Lemma pow2_lt (a b : Z) : (a < b)%Z -> 2 ^ a < 2 ^ b.
Proof. intro H. apply Qpower_lt_compat_l; [exact H | reflexivity]. Qed.

Lemma pow2_lt_inv (a b : Z) : 2 ^ a < 2 ^ b -> (a < b)%Z.
Proof. intro H. apply (Qpower_lt_compat_l_inv 2); [exact H | reflexivity]. Qed.

Lemma pow2_inject (z : Z) : (0 <= z)%Z -> inject_Z (2 ^ z) == 2 ^ z.
Proof. intro H. apply Zpower_Qpower. exact H. Qed.

(** Z.log2 brackets a positive integer between two powers of two. *)
Lemma log2_bracket (n : Z) :
  (0 < n)%Z ->
  2 ^ Z.log2 n <= inject_Z n /\ inject_Z n < 2 ^ (Z.log2 n + 1).
Proof.
  intro H. destruct (Z.log2_spec n H) as [L U].
  pose proof (Z.log2_nonneg n) as N.
  split.
  - rewrite <- pow2_inject by exact N. rewrite <- Zle_Qle. exact L.
  - rewrite <- pow2_inject by lia. rewrite <- Zlt_Qlt.
    replace (Z.log2 n + 1)%Z with (Z.succ (Z.log2 n)) by lia. exact U.
Qed.

Lemma floor_log2_spec (x : Q) :
  0 < x -> 2 ^ floor_log2 x <= x /\ x < 2 ^ (floor_log2 x + 1).
Proof.
  intro Hx. unfold floor_log2.
  destruct x as [n d]. cbn [Qnum Qden].
  assert (0 < n)%Z as Hn.
  { unfold Qlt in Hx. cbn in Hx. lia. }
  destruct (log2_bracket n Hn) as [Ln Un].
  destruct (log2_bracket (Zpos d) eq_refl) as [Ld Ud].
  set (la := Z.log2 n) in *. set (ld := Z.log2 (Zpos d)) in *.
  assert (n # d == inject_Z n / inject_Z (Zpos d)) as Hdiv
    by apply Qmake_Qdiv.
  assert (0 < inject_Z (Zpos d)) as Hd by reflexivity.
  assert ((n # d) * inject_Z (Zpos d) == inject_Z n) as Hmul.
  { rewrite Hdiv. field. intro C. rewrite C in Hd. discriminate Hd. }
  assert (n # d < 2 ^ (la - ld + 1)) as Upper.
  { apply (Qmult_lt_r _ _ (inject_Z (Zpos d)) Hd). rewrite Hmul.
    apply (Qlt_le_trans _ _ _ Un).
    replace (la + 1)%Z with ((la - ld + 1) + ld)%Z by lia.
    rewrite pow2_add. apply Qmult_le_l; [apply pow2_pos | exact Ld]. }
  assert (2 ^ (la - ld - 1) <= n # d) as Lower.
  { apply Qlt_le_weak.
    apply (Qmult_lt_r _ _ (inject_Z (Zpos d)) Hd). rewrite Hmul.
    apply (Qlt_le_trans _ (2 ^ la)); [| exact Ln].
    replace la with ((la - ld - 1) + (ld + 1))%Z at 2 by lia.
    rewrite pow2_add. apply Qmult_lt_l; [apply pow2_pos | exact Ud]. }
  destruct (Qle_bool (2 ^ (la - ld)) (n # d)) eqn:T.
  - apply Qle_bool_iff in T. split; [exact T | exact Upper].
  - split; [exact Lower |].
    replace (la - ld - 1 + 1)%Z with (la - ld)%Z by lia.
    apply Qnot_le_lt. intro C. apply Qle_bool_iff in C. congruence.
Qed.

Lemma floor_log2_unique (x : Q) (k : Z) :
  2 ^ k <= x -> x < 2 ^ (k + 1) -> floor_log2 x = k.
Proof.
  intros L U.
  assert (0 < x) as Hx by (apply (Qlt_le_trans _ (2 ^ k)); [apply pow2_pos | exact L]).
  destruct (floor_log2_spec x Hx) as [L' U'].
  assert (floor_log2 x < k + 1)%Z
    by (apply pow2_lt_inv; apply (Qle_lt_trans _ x); assumption).
  assert (k < floor_log2 x + 1)%Z
    by (apply pow2_lt_inv; apply (Qle_lt_trans _ x); assumption).
  lia.
Qed.

Lemma floor_log2_monotone (x y : Q) :
  0 < x -> x <= y -> (floor_log2 x <= floor_log2 y)%Z.
Proof.
  intros Hx Hxy.
  assert (0 < y) as Hy by (apply (Qlt_le_trans _ x); assumption).
  destruct (floor_log2_spec x Hx) as [Lx _].
  destruct (floor_log2_spec y Hy) as [_ Uy].
  assert (floor_log2 x < floor_log2 y + 1)%Z; [| lia].
  apply pow2_lt_inv. apply (Qle_lt_trans _ x); [exact Lx |].
  apply (Qle_lt_trans _ y); assumption.
Qed.

(** Rounding to the nearest integer. *)
Lemma round_half_even_near (x : Q) :
  inject_Z (round_half_even x) - (1 # 2) <= x
  /\ x <= inject_Z (round_half_even x) + (1 # 2).
Proof.
  unfold round_half_even.
  pose proof (Qfloor_le x) as L. pose proof (Qlt_floor x) as U.
  rewrite inject_Z_plus in U. change (inject_Z 1) with 1 in U.
  destruct (x - inject_Z (Qfloor x) ?= 1 # 2) eqn:C.
  - apply Qeq_alt in C.
    destruct (Z.even (Qfloor x));
      [| rewrite inject_Z_plus; change (inject_Z 1) with 1]; split; lra.
  - apply Qlt_alt in C. split; lra.
  - apply Qgt_alt in C. rewrite inject_Z_plus. change (inject_Z 1) with 1.
    split; lra.
Qed.

Lemma round_half_even_comp (x y : Q) :
  x == y -> round_half_even x = round_half_even y.
Proof.
  intro E. unfold round_half_even. rewrite (Qfloor_comp x y E).
  assert ((x - inject_Z (Qfloor y) ?= 1 # 2)
          = (y - inject_Z (Qfloor y) ?= 1 # 2)) as ->; [| reflexivity].
  apply Qcompare_comp; [| reflexivity]. rewrite E. reflexivity.
Qed.

Lemma round_half_even_monotone (x y : Q) :
  x <= y -> (round_half_even x <= round_half_even y)%Z.
Proof.
  intro H.
  destruct (Z.le_gt_cases (round_half_even x) (round_half_even y)) as [G | G];
    [exact G |].
  destruct (round_half_even_near x) as [Lx _].
  destruct (round_half_even_near y) as [_ Uy].
  assert (inject_Z (round_half_even y) + 1 <= inject_Z (round_half_even x)) as S.
  { change 1 with (inject_Z 1). rewrite <- inject_Z_plus, <- Zle_Qle. lia. }
  assert (x == y) as E by lra.
  rewrite (round_half_even_comp x y E). lia.
Qed.

Lemma round_half_even_Z (z : Z) : round_half_even (inject_Z z) = z.
Proof.
  unfold round_half_even. rewrite Qfloor_Z.
  replace (inject_Z z - inject_Z z ?= 1 # 2) with Lt; [reflexivity |].
  symmetry. apply (proj1 (Qlt_alt _ _)). lra.
Qed.

Lemma Qabs_nonneg_eq (x : Q) : 0 <= x -> Qabs x = x.
Proof.
  destruct x as [n d]. unfold Qle. cbn. intro H.
  rewrite Z.abs_eq by lia. reflexivity.
Qed.

Lemma Qabs_nonpos_eq (x : Q) : x <= 0 -> Qabs x = - x.
Proof.
  destruct x as [n d]. unfold Qle. cbn. intro H.
  rewrite Z.abs_neq by lia. reflexivity.
Qed.

Lemma Qabs_positive (x : Q) : ~ x == 0 -> 0 < Qabs x.
Proof.
  intro H. destruct (Qlt_le_dec 0 (Qabs x)) as [P | N]; [exact P |].
  exfalso. apply H.
  pose proof (Qabs_nonneg x) as NN.
  apply Qabs_Qle_condition in N. lra.
Qed.

(** The magnitude of a non-zero [x] lies in the binade of its exponent,
    or below the smallest normal number. *)
Lemma exponent_bracket (x : Q) :
  ~ x == 0 ->
  Qabs x < 2 ^ (exponent x + 53)
  /\ ((-1074 < exponent x)%Z -> 2 ^ (exponent x + 52) <= Qabs x).
Proof.
  intro H. pose proof (Qabs_positive x H) as P.
  destruct (floor_log2_spec (Qabs x) P) as [L U].
  unfold exponent. split.
  - apply (Qlt_le_trans _ _ _ U). apply pow2_le. lia.
  - intro C. apply (Qle_trans _ (2 ^ floor_log2 (Qabs x))); [| exact L].
    apply pow2_le. lia.
Qed.

Lemma exponent_monotone (x y : Q) :
  ~ x == 0 -> Qabs x <= Qabs y -> (exponent x <= exponent y)%Z.
Proof.
  intros H L. unfold exponent.
  pose proof (floor_log2_monotone (Qabs x) (Qabs y) (Qabs_positive x H) L).
  lia.
Qed.

Lemma double_zero (x : Q) : x == 0 -> double x = 0.
Proof.
  intro H. unfold double. apply Qeq_bool_iff in H. rewrite H. reflexivity.
Qed.

Lemma double_value (x : Q) :
  ~ x == 0 ->
  double x == inject_Z (round_half_even (x / 2 ^ exponent x)) * 2 ^ exponent x.
Proof.
  intro H. unfold double.
  destruct (Qeq_bool x 0) eqn:E; [apply Qeq_bool_iff in E; contradiction |].
  apply Qred_correct.
Qed.

Lemma scaled_le (x y : Q) (e : Z) : x <= y -> x / 2 ^ e <= y / 2 ^ e.
Proof.
  intro H. unfold Qdiv. apply Qmult_le_compat_r; [exact H |].
  apply Qlt_le_weak, Qinv_lt_0_compat, pow2_pos.
Qed.

Lemma scaled_pow (a e : Z) : 2 ^ (e + a) / 2 ^ e == 2 ^ a.
Proof.
  rewrite pow2_add. field. apply pow2_nonzero.
Qed.

Lemma inject_pow2 (a : Z) : (0 <= a)%Z -> 2 ^ a == inject_Z (2 ^ a).
Proof. intro H. symmetry. apply pow2_inject. exact H. Qed.

Lemma round_ge_pow (s : Q) (a : Z) :
  (0 <= a)%Z -> 2 ^ a <= s -> 2 ^ a <= inject_Z (round_half_even s).
Proof.
  intros Ha H. rewrite (inject_pow2 a Ha) in *. rewrite <- Zle_Qle.
  apply (Z.le_trans _ (round_half_even (inject_Z (2 ^ a))));
    [rewrite round_half_even_Z; lia |].
  apply round_half_even_monotone. exact H.
Qed.

Lemma round_le_pow (s : Q) (a : Z) :
  (0 <= a)%Z -> s <= 2 ^ a -> inject_Z (round_half_even s) <= 2 ^ a.
Proof.
  intros Ha H. rewrite (inject_pow2 a Ha) in *. rewrite <- Zle_Qle.
  apply (Z.le_trans _ (round_half_even (inject_Z (2 ^ a))));
    [| rewrite round_half_even_Z; lia].
  apply round_half_even_monotone. exact H.
Qed.

Lemma round_opp_le (s : Q) (z : Z) :
  s <= - inject_Z z -> inject_Z (round_half_even s) <= - inject_Z z.
Proof.
  intro H. rewrite <- inject_Z_opp in *. rewrite <- Zle_Qle.
  apply (Z.le_trans _ (round_half_even (inject_Z (- z))));
    [| rewrite round_half_even_Z; lia].
  apply round_half_even_monotone. exact H.
Qed.

Lemma round_opp_ge (s : Q) (z : Z) :
  - inject_Z z <= s -> - inject_Z z <= inject_Z (round_half_even s).
Proof.
  intro H. rewrite <- inject_Z_opp in *. rewrite <- Zle_Qle.
  apply (Z.le_trans _ (round_half_even (inject_Z (- z))));
    [rewrite round_half_even_Z; lia |].
  apply round_half_even_monotone. exact H.
Qed.

Lemma double_nonneg (x : Q) : 0 <= x -> 0 <= double x.
Proof.
  intro H. destruct (Qeq_dec x 0) as [Z | NZ].
  - rewrite (double_zero x Z). lra.
  - rewrite (double_value x NZ).
    apply Qmult_le_0_compat; [| apply Qlt_le_weak, pow2_pos].
    change 0 with (inject_Z 0). rewrite <- Zle_Qle.
    apply (Z.le_trans _ (round_half_even (inject_Z 0)));
      [rewrite round_half_even_Z; lia |].
    apply round_half_even_monotone.
    apply (Qle_trans _ (0 / 2 ^ exponent x)); [| apply scaled_le; exact H].
    unfold Qdiv. rewrite Qmult_0_l. apply Qle_refl.
Qed.

Lemma double_nonpos (x : Q) : x <= 0 -> double x <= 0.
Proof.
  intro H. destruct (Qeq_dec x 0) as [Z | NZ].
  - rewrite (double_zero x Z). lra.
  - rewrite (double_value x NZ).
    assert (inject_Z (round_half_even (x / 2 ^ exponent x)) <= 0) as R.
    { change 0 with (inject_Z 0). rewrite <- Zle_Qle.
      apply (Z.le_trans _ (round_half_even (inject_Z 0)));
        [| rewrite round_half_even_Z; lia].
      apply round_half_even_monotone.
      apply (Qle_trans _ (0 / 2 ^ exponent x)); [apply scaled_le; exact H |].
      unfold Qdiv. rewrite Qmult_0_l. apply Qle_refl. }
    pose proof (pow2_pos (exponent x)) as P.
    setoid_replace 0 with (0 * 2 ^ exponent x) by ring.
    apply Qmult_le_compat_r; [exact R | lra].
Qed.

Lemma double_monotone_pos (x y : Q) :
  0 < x -> x <= y -> double x <= double y.
Proof.
  intros Hx Hxy.
  assert (0 < y) as Hy by lra.
  assert (~ x == 0) as NX by lra. assert (~ y == 0) as NY by lra.
  rewrite (double_value x NX), (double_value y NY).
  destruct (exponent_bracket x NX) as [Ux _].
  destruct (exponent_bracket y NY) as [_ Ly].
  pose proof (exponent_monotone x y NX) as M.
  rewrite (Qabs_nonneg_eq x), (Qabs_nonneg_eq y) in M by lra.
  rewrite (Qabs_nonneg_eq x) in Ux by lra.
  rewrite (Qabs_nonneg_eq y) in Ly by lra.
  specialize (M Hxy).
  set (ex := exponent x) in *. set (ey := exponent y) in *.
  destruct (Z.eq_dec ex ey) as [E | NE].
  - rewrite <- E. apply Qmult_le_compat_r; [| apply Qlt_le_weak, pow2_pos].
    rewrite <- Zle_Qle. apply round_half_even_monotone.
    apply scaled_le. exact Hxy.
  - assert (-1074 < ey)%Z as C by (unfold ex, exponent in *; lia).
    specialize (Ly C).
    apply (Qle_trans _ (2 ^ 53 * 2 ^ ex)).
    + apply Qmult_le_compat_r; [| apply Qlt_le_weak, pow2_pos].
      apply round_le_pow; [lia |].
      rewrite <- (scaled_pow 53 ex). apply scaled_le. lra.
    + apply (Qle_trans _ (2 ^ 52 * 2 ^ ey)).
      * rewrite <- !pow2_add. apply pow2_le. lia.
      * apply Qmult_le_compat_r; [| apply Qlt_le_weak, pow2_pos].
        apply round_ge_pow; [lia |].
        rewrite <- (scaled_pow 52 ey). apply scaled_le. exact Ly.
Qed.

Lemma double_monotone_neg (x y : Q) :
  y < 0 -> x <= y -> double x <= double y.
Proof.
  intros Hy Hxy.
  assert (x < 0) as Hx by lra.
  assert (~ x == 0) as NX by lra. assert (~ y == 0) as NY by lra.
  rewrite (double_value x NX), (double_value y NY).
  destruct (exponent_bracket y NY) as [Uy _].
  destruct (exponent_bracket x NX) as [_ Lx].
  pose proof (exponent_monotone y x NY) as M.
  rewrite (Qabs_nonpos_eq x), (Qabs_nonpos_eq y) in M by lra.
  rewrite (Qabs_nonpos_eq y) in Uy by lra.
  rewrite (Qabs_nonpos_eq x) in Lx by lra.
  assert (- y <= - x) as Hopp by lra. specialize (M Hopp).
  set (ex := exponent x) in *. set (ey := exponent y) in *.
  destruct (Z.eq_dec ex ey) as [E | NE].
  - rewrite <- E. apply Qmult_le_compat_r; [| apply Qlt_le_weak, pow2_pos].
    rewrite <- Zle_Qle. apply round_half_even_monotone.
    apply scaled_le. exact Hxy.
  - assert (-1074 < ex)%Z as C by (unfold ey, exponent in *; lia).
    specialize (Lx C).
    pose proof (pow2_pos ex) as Pex. pose proof (pow2_pos ey) as Pey.
    apply (Qle_trans _ (- 2 ^ 52 * 2 ^ ex)).
    + apply Qmult_le_compat_r; [| lra].
      rewrite (inject_pow2 52) by lia. apply round_opp_le.
      rewrite <- (inject_pow2 52) by lia.
      setoid_replace (- 2 ^ 52) with ((- 2 ^ (ex + 52)) / 2 ^ ex)
        by (rewrite pow2_add; field; apply pow2_nonzero).
      apply scaled_le. lra.
    + apply (Qle_trans _ (- 2 ^ 53 * 2 ^ ey)).
      * assert (2 ^ (ey + 53) <= 2 ^ (ex + 52)) as P by (apply pow2_le; lia).
        rewrite !pow2_add in P. lra.
      * apply Qmult_le_compat_r; [| lra].
        rewrite (inject_pow2 53) by lia. apply round_opp_ge.
        rewrite <- (inject_pow2 53) by lia.
        setoid_replace (- 2 ^ 53) with ((- 2 ^ (ey + 53)) / 2 ^ ey)
          by (rewrite pow2_add; field; apply pow2_nonzero).
        apply scaled_le. lra.
Qed.

(** Rounding to a double is monotone. *)
Theorem double_monotone (x y : Q) : x <= y -> double x <= double y.
Proof.
  intro H.
  destruct (Qlt_le_dec 0 x) as [Px | Nx].
  - apply double_monotone_pos; assumption.
  - destruct (Qlt_le_dec y 0) as [Ny | Py].
    + apply double_monotone_neg; assumption.
    + apply (Qle_trans _ 0); [apply double_nonpos | apply double_nonneg];
        assumption.
Qed.

Lemma double_comp (x y : Q) : x == y -> double x == double y.
Proof.
  intro E. apply Qle_antisym; apply double_monotone; lra.
Qed.

(** The rounding agrees with the binary64 arithmetic of the kernel: on
    the decimal weights of the scorer, and on sums, differences, products
    and quotients of sample operands, among them the percentages whose
    exact value ends in one half. *)
Lemma double_agrees_with_binary64 :
  double (35 # 100) == of_float 0.35
  /\ double (25 # 100) == of_float 0.25
  /\ double (15 # 100) == of_float 0.15
  /\ forallb
       (fun '(a, b) =>
          Qeq_bool (fadd (of_float a) (of_float b)) (of_float (a + b))
          && Qeq_bool (fsub (of_float a) (of_float b)) (of_float (a - b))
          && Qeq_bool (fmul (of_float a) (of_float b)) (of_float (a * b))
          && Qeq_bool (fdiv (of_float a) (of_float b)) (of_float (a / b)))
       [ (28.5, 100); (56.5, 100); (0.285, 100); (0.565, 100);
         (57, 200); (113, 200); (1, 3); (2, 3); (5, 6); (1, 7);
         (0.1, 0.2); (54.285714285714285, 0.35); (60, 0.15); (80, 0.25);
         (47.5, 0.35); (16.625, 12.5); (-10, 0.25); (92.5, 100);
         (1e-310, 3); (4.9e-324, 2); (1e300, 1e-5);
         (9007199254740992, 1); (9007199254740993, 3) ]%float
     = true.
Proof.
  repeat split; vm_compute; reflexivity.
Qed.

Lemma double_range (lo hi x : Q) :
  lo <= x -> x <= hi -> double lo <= double x /\ double x <= double hi.
Proof. intros L U. split; apply double_monotone; assumption. Qed.

Lemma fadd_monotone (a a' b b' : Q) :
  a <= a' -> b <= b' -> fadd a b <= fadd a' b'.
Proof. intros Ha Hb. apply double_monotone. lra. Qed.

Lemma fmul_monotone (a a' w : Q) :
  0 <= w -> a <= a' -> fmul a w <= fmul a' w.
Proof.
  intros Hw Ha. apply double_monotone. apply Qmult_le_compat_r; assumption.
Qed.

Lemma fdiv_monotone (a a' b : Q) :
  0 < b -> a <= a' -> fdiv a b <= fdiv a' b.
Proof.
  intros Hb Ha. apply double_monotone. unfold Qdiv.
  apply Qmult_le_compat_r; [exact Ha |].
  apply Qlt_le_weak, Qinv_lt_0_compat, Hb.
Qed.

Lemma fadd_nonneg (a b : Q) : 0 <= a -> 0 <= b -> 0 <= fadd a b.
Proof. intros Ha Hb. apply double_nonneg. lra. Qed.

Lemma fmul_nonneg (a b : Q) : 0 <= a -> 0 <= b -> 0 <= fmul a b.
Proof. intros Ha Hb. apply double_nonneg. apply Qmult_le_0_compat; assumption. Qed.

Lemma double_one : double 1 = 1.
Proof. vm_compute. reflexivity. Qed.

(** The quotient of a part by the whole is a double between 0 and 1. *)
Lemma fdiv_unit (a b : Q) :
  0 <= a -> a <= b -> 0 < b -> 0 <= fdiv a b /\ fdiv a b <= 1.
Proof.
  intros Ha Hab Hb. split.
  - apply double_nonneg. apply Qle_shift_div_l; [exact Hb | lra].
  - rewrite <- double_one. apply double_monotone.
    apply Qle_shift_div_r; [exact Hb | lra].
Qed.

Lemma Math_round_monotone (x y : Q) : x <= y -> (Math_round x <= Math_round y)%Z.
Proof. intro H. apply Qfloor_resp_le. lra. Qed.

End DoubleFacts.

(** ** The heuristic scorer *)

Module ScorerProofs.

Import JS SpecAnalysis Props JSFacts DoubleFacts.
Local Open Scope list_scope.

Lemma credit_of_bool (P : Prop) (b : bool) (pts : Z) :
  (b = true <-> P) -> credit P pts (if b then pts else 0).
Proof.
  intros H. destruct b.
  - left. split; [apply H; reflexivity | reflexivity].
  - right. split; [| reflexivity]. intro HP. apply H in HP. discriminate.
Qed.

Lemma longer_than_iff (s : string) (n : nat) :
  truthy s && (n <? String.length s)%nat = true <-> (n < String.length s)%nat.
Proof.
  rewrite andb_true_iff, Nat.ltb_lt. split; [tauto |].
  intro H. split; [| exact H]. destruct s; simpl in *; [lia | reflexivity].
Qed.

Lemma name_customized_iff (d : VOPLNodeData) :
  truthy (name d) && negb (startsWith (name d) "New ") = true
  <-> NameCustomized d.
Proof.
  unfold NameCustomized.
  rewrite andb_true_iff, negb_true_iff, truthy_true_iff.
  rewrite <- startsWith_BeginsWith.
  destruct (startsWith (name d) "New "); split; intros [H1 H2];
    split; try assumption; try discriminate; congruence.
Qed.

Lemma defined_shape_iff (ports : list PortDefinition) :
  existsb (fun i => truthy (port_shape i)
                    && negb (String.eqb (port_shape i) "unknown")) ports
  = true
  <-> HasDefinedShape ports.
Proof.
  unfold HasDefinedShape. rewrite existsb_exists.
  split; intros (p & Hin & H); exists p; (split; [exact Hin |]).
  - rewrite andb_true_iff, negb_true_iff, truthy_true_iff in H.
    rewrite String.eqb_neq in H. exact H.
  - rewrite andb_true_iff, negb_true_iff, truthy_true_iff.
    rewrite String.eqb_neq. exact H.
Qed.

Lemma has_example_iff (A : Type) (l : list A) :
  (0 <? List.length l)%nat = true <-> l <> [].
Proof.
  destruct l; simpl; split; intro H; try reflexivity; try discriminate;
    congruence.
Qed.

(** The score of a node written as the sum of its six credits. *)
Lemma nodeScore_sum (node : VOPLNode) :
  nodeScore node
  = (if truthy (name (data node))
        && negb (startsWith (name (data node)) "New ") then 10 else 0)
    + (if truthy (intent (data node))
          && (20 <? String.length (intent (data node)))%nat then 20 else 0)
    + (if truthy (behavior (data node))
          && (50 <? String.length (behavior (data node)))%nat
       then 30 else 0)
    + (if existsb (fun i => truthy (port_shape i)
                            && negb (String.eqb (port_shape i) "unknown"))
                  (inputs (data node)) then 15 else 0)
    + (if existsb (fun o => truthy (port_shape o)
                            && negb (String.eqb (port_shape o) "unknown"))
                  (outputs (data node)) then 15 else 0)
    + (if (0 <? List.length (examples (data node)))%nat then 10 else 0).
Proof.
  unfold nodeScore.
  repeat match goal with
         | |- context [if ?b then _ else _] =>
             match b with
             | context [if _ then _ else _] => fail 1
             | _ => destruct b
             end
         end; reflexivity.
Qed.

Lemma nodeScore_bounds (node : VOPLNode) : 0 <= nodeScore node <= 100.
Proof.
  rewrite nodeScore_sum.
  repeat match goal with
         | |- context [if ?b then _ else _] => destruct b
         end; lia.
Qed.

(** C4. The per-node completeness score is the sum of six credits: 10 for
    a name that is non-empty and does not start with "New ", 20 for an
    intent longer than 20 characters, 30 for a behavior longer than 50
    characters, 15 when some input port has a non-empty shape other than
    "unknown", 15 likewise for the output ports, 10 when there is at least
    one example. Hence a node whose only input port has the shape "unknown"
    earns no input credit, and giving that port any non-empty shape other
    than "unknown" raises the score of the node by exactly 15. *)
Theorem nodeScore_credits :
  (forall node : VOPLNode,
      exists c1 c2 c3 c4 c5 c6 : Z,
        credit (NameCustomized (data node)) 10 c1
        /\ credit (20 < String.length (intent (data node)))%nat 20 c2
        /\ credit (50 < String.length (behavior (data node)))%nat 30 c3
        /\ credit (HasDefinedShape (inputs (data node))) 15 c4
        /\ credit (HasDefinedShape (outputs (data node))) 15 c5
        /\ credit (examples (data node) <> []) 10 c6
        /\ nodeScore node = c1 + c2 + c3 + c4 + c5 + c6)
  /\ (forall (node : VOPLNode) (p : PortDefinition),
         inputs (data node) = [p] ->
         port_shape p = "unknown" ->
         ~ HasDefinedShape (inputs (data node)))
  /\ (forall (node : VOPLNode) (p : PortDefinition) (s : string),
         inputs (data node) = [p] ->
         port_shape p = "unknown" ->
         s <> "" -> s <> "unknown" ->
         nodeScore (withInputs node [withShape p s]) = nodeScore node + 15).
Proof.
  split; [| split].
  - intro node. rewrite nodeScore_sum.
    do 6 eexists.
    repeat split.
    + apply credit_of_bool, name_customized_iff.
    + apply credit_of_bool, longer_than_iff.
    + apply credit_of_bool, longer_than_iff.
    + apply credit_of_bool, defined_shape_iff.
    + apply credit_of_bool, defined_shape_iff.
    + apply credit_of_bool, has_example_iff.
  - intros node p Hin Hshape (q & Hq & _ & Hne).
    rewrite Hin in Hq. destruct Hq as [<- | []]. contradiction.
  - intros node p s Hin Hshape Hs1 Hs2.
    rewrite !nodeScore_sum. simpl. rewrite Hin. simpl. rewrite Hshape.
    apply truthy_true_iff in Hs1. apply String.eqb_neq in Hs2.
    rewrite Hs1, Hs2. simpl. lia.
Qed.

Lemma nodeScore_credits_witness :
  ~ HasDefinedShape (inputs (data (Samples.newProcess "n1")))
  /\ nodeScore (withInputs (Samples.newProcess "n1")
                  [withShape (mkPort "input" "Input data to process" "unknown")
                             "{ id: string }"])
     = nodeScore (Samples.newProcess "n1") + 15.
Proof.
  destruct nodeScore_credits as (_ & Hnone & Hraise).
  split.
  - apply (Hnone (Samples.newProcess "n1")
                 (mkPort "input" "Input data to process" "unknown"));
      reflexivity.
  - apply (Hraise (Samples.newProcess "n1")
                  (mkPort "input" "Input data to process" "unknown")
                  "{ id: string }");
      [reflexivity | reflexivity | discriminate | discriminate].
Defined.

(** *** The issues of each pass, by dimension and severity *)

Lemma filter_none {A : Type} (f : A -> bool) (l : list A) :
  (forall x, In x l -> f x = false) -> filter f l = [].
Proof.
  induction l as [|a l IH]; intro H; simpl; [reflexivity |].
  rewrite (H a (or_introl eq_refl)). apply IH.
  intros x Hx. apply H. right. exact Hx.
Qed.

Lemma filter_all {A : Type} (f : A -> bool) (l : list A) :
  (forall x, In x l -> f x = true) -> filter f l = l.
Proof.
  induction l as [|a l IH]; intro H; simpl; [reflexivity |].
  rewrite (H a (or_introl eq_refl)). f_equal. apply IH.
  intros x Hx. apply H. right. exact Hx.
Qed.

Lemma In_intentIssues (nodes : list VOPLNode) (i : SpecIssue) :
  In i (flat_map intentIssue nodes) ->
  severity i = warning /\ dimension i = ambiguity.
Proof.
  rewrite in_flat_map. intros (n & _ & Hi). unfold intentIssue in Hi.
  destruct (_ || _) in Hi; [| contradiction].
  destruct Hi as [<- | []]. split; reflexivity.
Qed.

Lemma In_completenessPass (project : VOPLProject) (i : SpecIssue) :
  In i (snd (completenessPass project)) ->
  dimension i = completeness \/ (severity i = warning /\ dimension i = ambiguity).
Proof.
  unfold completenessPass.
  destruct (_ <? 3)%nat; destruct (_ =? 0)%nat; simpl;
    rewrite ?in_app_iff; simpl; intro H;
    repeat match goal with
           | H : _ \/ _ |- _ => destruct H as [H | H]
           | H : False |- _ => contradiction
           | H : In _ (flat_map _ _) |- _ =>
               right; exact (In_intentIssues _ _ H)
           | H : _ = i |- _ => subst i; left; reflexivity
           end.
Qed.

Lemma In_structurePass (project : VOPLProject) (i : SpecIssue) :
  In i (structurePass project) ->
  severity i = info /\ dimension i = completeness.
Proof.
  unfold structurePass.
  destruct (negb _ && _); destruct (negb _ && _); simpl; intro H;
    repeat match goal with
           | H : _ \/ _ |- _ => destruct H as [H | H]
           | H : False |- _ => contradiction
           | H : _ = i |- _ => subst i; split; reflexivity
           end.
Qed.

Lemma completenessPass_no_consistency (project : VOPLProject) :
  filter isConsistency (snd (completenessPass project)) = [].
Proof.
  apply filter_none. intros i Hi. unfold isConsistency.
  destruct (In_completenessPass _ _ Hi) as [-> | [_ ->]]; reflexivity.
Qed.

Lemma structurePass_no_consistency (project : VOPLProject) :
  filter isConsistency (structurePass project) = [].
Proof.
  apply filter_none. intros i Hi. unfold isConsistency.
  destruct (In_structurePass _ _ Hi) as [_ ->]. reflexivity.
Qed.

Lemma disconnected_all_consistency (l : list VOPLNode) :
  filter isConsistency (map disconnectedIssue l) = map disconnectedIssue l.
Proof.
  apply filter_all. intros i Hi. apply in_map_iff in Hi.
  destruct Hi as (n & <- & _). reflexivity.
Qed.

(** The issue list of [getMockScore] is the concatenation of the three
    passes, and its consistency score is that of the consistency pass. *)
Lemma getMockScore_issues (now : Z) (project : VOPLProject) :
  issues (getMockScore now project)
  = (snd (completenessPass project) ++ snd (consistencyPass project))
    ++ structurePass project.
Proof.
  unfold getMockScore.
  destruct (completenessPass project), (consistencyPass project).
  reflexivity.
Qed.

Lemma getMockScore_consistency_score (now : Z) (project : VOPLProject) :
  score (sc_consistency (getMockScore now project))
  = fst (consistencyPass project).
Proof.
  unfold getMockScore.
  destruct (completenessPass project), (consistencyPass project).
  reflexivity.
Qed.

Lemma getMockScore_completeness_score (now : Z) (project : VOPLProject) :
  score (sc_completeness (getMockScore now project))
  = Math_round (fst (completenessPass project)).
Proof.
  unfold getMockScore.
  destruct (completenessPass project), (consistencyPass project).
  reflexivity.
Qed.

Lemma getMockScore_consistency_issues (now : Z) (project : VOPLProject) :
  filter isConsistency (issues (getMockScore now project))
  = snd (consistencyPass project).
Proof.
  rewrite getMockScore_issues, !filter_app.
  rewrite completenessPass_no_consistency, structurePass_no_consistency.
  rewrite app_nil_r. simpl.
  unfold consistencyPass.
  destruct (0 <? _)%nat; [| reflexivity].
  destruct (0 <? _)%nat; [| reflexivity].
  apply disconnected_all_consistency.
Qed.

Lemma unconnected_Isolated (project : VOPLProject) (node : VOPLNode) :
  unconnected project node = true <-> Isolated project node.
Proof.
  unfold unconnected, Isolated.
  rewrite andb_true_iff, !negb_true_iff.
  split.
  - intros [Hin Hout] e He. split; intro Heq.
    + assert (existsb (fun e0 => String.eqb (target e0) (node_id node))
                      (edges project) = true) as C
        by (apply existsb_exists; exists e; split;
            [exact He | apply String.eqb_eq; exact Heq]).
      congruence.
    + assert (existsb (fun e0 => String.eqb (source e0) (node_id node))
                      (edges project) = true) as C
        by (apply existsb_exists; exists e; split;
            [exact He | apply String.eqb_eq; exact Heq]).
      congruence.
  - intro H. split.
    + destruct (existsb _ _) eqn:E; [| reflexivity].
      apply existsb_exists in E. destruct E as (e & He & Heq).
      apply String.eqb_eq in Heq. destruct (H e He) as [C _]. contradiction.
    + destruct (existsb _ _) eqn:E; [| reflexivity].
      apply existsb_exists in E. destruct E as (e & He & Heq).
      apply String.eqb_eq in Heq. destruct (H e He) as [_ C]. contradiction.
Qed.

(** C5. When the graph has at least one edge, the consistency score is 80
    minus 10 for each node without incoming and without outgoing edge, and
    the issues of dimension consistency are one warning per such node, in
    graph order, carrying the id of the node. When the graph has no edge,
    the score is 80 and there is no such issue, however many nodes there
    are. *)
Theorem consistency_penalty_per_loose_node
    (now : Z) (project : VOPLProject) :
  let s := getMockScore now project in
  let loose := filter (unconnected project) (nodes project) in
  (forall n, In n loose <-> In n (nodes project) /\ Isolated project n)
  /\ (edges project <> [] ->
      score (sc_consistency s) = 80 - 10 * Z.of_nat (List.length loose)
      /\ filter isConsistency (issues s) = map disconnectedIssue loose)
  /\ (edges project = [] ->
      score (sc_consistency s) = 80
      /\ filter isConsistency (issues s) = [])
  /\ (forall n, severity (disconnectedIssue n) = warning
                /\ dimension (disconnectedIssue n) = consistency
                /\ nodeId (disconnectedIssue n) = Some (node_id n)).
Proof.
  intros s loose. subst s loose.
  split; [| split; [| split]].
  - intro n. rewrite filter_In, unconnected_Isolated. reflexivity.
  - intro Hedges.
    rewrite getMockScore_consistency_score, getMockScore_consistency_issues.
    unfold consistencyPass.
    destruct (edges project) as [|e es] eqn:E; [congruence |].
    rewrite <- E. replace (0 <? List.length (edges project))%nat with true
      by (rewrite E; reflexivity).
    destruct (0 <? List.length (filter (unconnected project)
                                       (nodes project)))%nat eqn:L;
      cbn [fst snd].
    + split; [lia | reflexivity].
    + apply Nat.ltb_ge in L.
      destruct (filter (unconnected project) (nodes project));
        [split; reflexivity | simpl in L; lia].
  - intro Hedges.
    rewrite getMockScore_consistency_score, getMockScore_consistency_issues.
    unfold consistencyPass. rewrite Hedges. split; reflexivity.
  - intro n. repeat split.
Qed.

Lemma consistency_penalty_per_loose_node_witness :
  (score (sc_consistency (getMockScore 0 Samples.threeNodes)) = 70
   /\ filter isConsistency (issues (getMockScore 0 Samples.threeNodes))
      = [disconnectedIssue (Samples.newProcess "c")])
  /\ (score (sc_consistency (getMockScore 0 Samples.twoLooseNodes)) = 80
      /\ filter isConsistency (issues (getMockScore 0 Samples.twoLooseNodes))
         = []).
Proof.
  split.
  - apply (consistency_penalty_per_loose_node 0 Samples.threeNodes).
    discriminate.
  - apply (consistency_penalty_per_loose_node 0 Samples.twoLooseNodes).
    reflexivity.
Defined.

(** C2. On the empty graph (no node, no edge, the six fields of the
    system context empty) the scorer gives completeness 10, ambiguity 50,
    consistency 80, groundedness 60 and overall 45; exactly one issue has
    severity error, the one about the missing nodes, and no issue reports a
    disconnected node. *)
Theorem getMockScore_empty_graph
    (now : Z) (id nm : string) (sc : option SpecScoreValue) (lm : Z) :
  let s := getMockScore now
             (mkProject id nm defaultSystemContext [] [] sc lm) in
  score (sc_completeness s) = 10
  /\ score (sc_ambiguity s) = 50
  /\ score (sc_consistency s) = 80
  /\ score (sc_groundedness s) = 60
  /\ overall s = 45
  /\ filter isError (issues s) = [noNodesIssue]
  /\ filter isConsistency (issues s) = []
  /\ (forall n, ~ In (disconnectedIssue n) (issues s)).
Proof.
  intro s. subst s.
  repeat split; try reflexivity.
  intros n H. change (issues _) with [contextIssue; noNodesIssue] in H.
  destruct H as [H | [H | []]]; discriminate H.
Qed.

(** C6. On a graph without nodes, whatever the system context holds, the
    completeness score is the floor value 10, the issue demanding a trigger
    and an output node is emitted with severity error, and the per-node
    step does not run: the completeness total is the constant 10 and no
    per-node issue is present. *)
Theorem getMockScore_no_nodes (now : Z) (project : VOPLProject)
    (Hnodes : nodes project = []) :
  let s := getMockScore now project in
  score (sc_completeness s) = 10
  /\ fst (completenessPass project) = 10%Q
  /\ (issues s = [noNodesIssue] \/ issues s = [contextIssue; noNodesIssue])
  /\ filter isError (issues s) = [noNodesIssue]
  /\ filter isAmbiguity (issues s) = []
  /\ severity noNodesIssue = error
  /\ message noNodesIssue
     = "No nodes defined. Add at least one trigger and one output node.".
Proof.
  intro s. subst s.
  assert (completenessPass project = (10%Q, [noNodesIssue])
          \/ completenessPass project = (10%Q, [contextIssue; noNodesIssue]))
    as Hpass.
  { unfold completenessPass. rewrite Hnodes.
    destruct (_ <? 3)%nat; [right | left]; reflexivity. }
  assert (snd (consistencyPass project) = []) as Hcons.
  { unfold consistencyPass. rewrite Hnodes. simpl.
    destruct (0 <? _)%nat; reflexivity. }
  assert (structurePass project = []) as Hstruct.
  { unfold structurePass. rewrite Hnodes. reflexivity. }
  rewrite getMockScore_completeness_score, getMockScore_issues.
  rewrite Hcons, Hstruct, !app_nil_r.
  destruct Hpass as [-> | ->]; cbn [fst snd];
    repeat split; try reflexivity; auto.
Qed.

Lemma getMockScore_no_nodes_witness :
  score (sc_completeness (getMockScore 0 Samples.emptyProject)) = 10
  /\ filter isError (issues (getMockScore 0 Samples.emptyProject))
     = [noNodesIssue].
Proof.
  destruct (getMockScore_no_nodes 0 Samples.emptyProject eq_refl)
    as (H1 & _ & _ & H4 & _).
  split; [exact H1 | exact H4].
Defined.

(** *** Bounds that hold on every graph *)

Lemma fold_add_from (l : list Z) (a : Z) :
  fold_left Z.add l a = a + fold_left Z.add l 0.
Proof.
  revert a. induction l as [|z l IH]; intro a; simpl; [lia |].
  rewrite (IH (a + z)), (IH z). lia.
Qed.

Lemma fold_add_bounds (l : list VOPLNode) :
  0 <= fold_left Z.add (map nodeScore l) 0 <= 100 * Z.of_nat (List.length l).
Proof.
  induction l as [|n l IH]; [simpl; lia |].
  cbn [map fold_left]. rewrite fold_add_from.
  pose proof (nodeScore_bounds n).
  change (List.length (n :: l)) with (S (List.length l)). lia.
Qed.

(** An order between rationals that are images of integers, by [lia]. *)
Ltac q_of_z :=
  unfold nat_to_Q;
  change 0%Q with (inject_Z 0);
  change 100%Q with (inject_Z 100);
  rewrite <- ?inject_Z_mult;
  first [rewrite <- Zle_Qle | rewrite <- Zlt_Qlt];
  lia.

Lemma filled_le_six (c : SystemContext) (f : string -> bool) :
  (List.length (filter f (Object_values c)) <= 6)%nat.
Proof.
  change 6%nat with (List.length (Object_values c)). apply filter_length_le.
Qed.

(** A closed order between rationals, by evaluation. *)
Ltac q_eval := vm_compute; discriminate.

Lemma completenessPass_bounds (project : VOPLProject) :
  (0 <= fst (completenessPass project))%Q
  /\ (fst (completenessPass project) <= 100)%Q.
Proof.
  unfold completenessPass.
  destruct (List.length (nodes project) =? 0)%nat eqn:E.
  - cbn [fst]. split; lra.
  - cbn [fst]. apply Nat.eqb_neq in E.
    set (f := List.length (filter _ (Object_values (systemContext project)))).
    assert (f <= 6)%nat as Hf by apply filled_le_six.
    change (List.length (Object_values (systemContext project))) with 6%nat.
    pose proof (fold_add_bounds (nodes project)) as Hsum.
    set (total := fold_left Z.add (map nodeScore (nodes project)) 0) in *.
    set (n := List.length (nodes project)) in *.
    destruct (fdiv_unit (nat_to_Q f) (nat_to_Q 6)) as [Ha Hb];
      [q_of_z .. |].
    destruct (fdiv_unit (inject_Z total) (nat_to_Q n * 100)) as [Hc Hd];
      [q_of_z .. |].
    split.
    + apply fadd_nonneg; [apply fadd_nonneg; [lra |] |];
        apply fmul_nonneg; (assumption || lra).
    + apply (Qle_trans _ (fadd (fadd 0 (fmul 1 20)) (fmul 1 80)));
        [| q_eval].
      apply fadd_monotone; [apply fadd_monotone; [lra |] |];
        apply fmul_monotone; (assumption || lra).
Qed.

Lemma Math_round_ge (x : Q) (lo : Z) :
  (inject_Z lo <= x)%Q -> lo <= Math_round x.
Proof.
  intros Hlo. unfold Math_round.
  rewrite <- (Qfloor_Z lo). apply Qfloor_resp_le. lra.
Qed.

Lemma Math_round_le (x : Q) (hi : Z) :
  (x <= inject_Z hi)%Q -> Math_round x <= hi.
Proof.
  intros Hhi. unfold Math_round.
  assert (Qfloor (x + (1 # 2)) < hi + 1); [| lia].
  rewrite Zlt_Qlt. pose proof (Qfloor_le (x + (1 # 2))) as Hfl.
  rewrite inject_Z_plus. change (inject_Z 1) with 1%Q. lra.
Qed.

Lemma getMockScore_overall (now : Z) (project : VOPLProject) :
  overall (getMockScore now project)
  = weightedOverall (fst (completenessPass project))
                    (fst (consistencyPass project)).
Proof.
  unfold getMockScore, weightedOverall.
  destruct (completenessPass project), (consistencyPass project).
  cbn [overall fst]. reflexivity.
Qed.

(** The overall score grows with the completeness total and with the
    consistency score. *)
Lemma weightedOverall_monotone (c c' : Q) (k k' : Z) :
  (c <= c')%Q -> k <= k' -> weightedOverall c k <= weightedOverall c' k'.
Proof.
  intros Hc Hk. unfold weightedOverall.
  assert (0 <= double (35 # 100))%Q as W35 by q_eval.
  assert (0 <= double (25 # 100))%Q as W25 by q_eval.
  rewrite Zle_Qle in Hk.
  apply Math_round_monotone.
  apply fadd_monotone; [apply fadd_monotone; [apply fadd_monotone |] |].
  - apply fmul_monotone; assumption.
  - apply Qle_refl.
  - apply fmul_monotone; assumption.
  - apply Qle_refl.
Qed.

(** The completeness, ambiguity and groundedness scores are within the
    range on every graph, and neither the consistency score nor the overall
    score exceeds it: only their lower bound is at stake. *)
Lemma getMockScore_bounds (now : Z) (project : VOPLProject) :
  let s := getMockScore now project in
  0 <= score (sc_completeness s) <= 100
  /\ score (sc_ambiguity s) = 50
  /\ score (sc_groundedness s) = 60
  /\ score (sc_consistency s) <= 80
  /\ overall s <= 100.
Proof.
  intro s. subst s.
  pose proof (completenessPass_bounds project) as [Hc0 Hc1].
  assert (fst (consistencyPass project) <= 80) as Hk.
  { unfold consistencyPass.
    destruct (0 <? _)%nat; [| cbn [fst]; lia].
    destruct (0 <? _)%nat; cbn [fst]; lia. }
  rewrite getMockScore_overall.
  pose proof (weightedOverall_monotone _ 100 _ 80 Hc1 Hk) as Ho.
  replace (weightedOverall 100 80) with 77 in Ho
    by (vm_compute; reflexivity).
  unfold getMockScore.
  destruct (completenessPass project) as [c ci].
  destruct (consistencyPass project) as [k ki].
  cbn [fst] in *. cbn [score sc_completeness sc_ambiguity sc_groundedness
                       sc_consistency].
  split; [| split; [| split; [| split]]]; try reflexivity; try exact Hk.
  - split; [apply Math_round_ge | apply Math_round_le]; assumption.
  - lia.
Qed.

(** C1. The scores are not all within 0..100: on a graph of eleven freshly
    added nodes of which two are connected by the only edge, the nine
    others each cost 10 points and the consistency score is 80 - 90 = -10.
    (The completeness score 48 and the overall score 36 of the same graph
    are within the range.) *)
Theorem consistency_score_below_zero (now : Z) :
  let s := getMockScore now Samples.elevenNodes in
  score (sc_consistency s) = -10
  /\ ~ (0 <= score (sc_consistency s) <= 100)
  /\ score (sc_completeness s) = 48
  /\ overall s = 36.
Proof.
  intro s. subst s. repeat split; try reflexivity.
  intros [H _]. vm_compute in H. apply H. reflexivity.
Qed.

End ScorerProofs.

(** ** The adapter *)

Module AdapterProofs.

Import JS SpecAnalysis Props.
Local Open Scope list_scope.

Lemma snd_bind {A B : Type} (m : M A) (k : A -> M B) :
  snd (bind m k)
  = match snd m with
    | Return a => snd (k a)
    | Throw e => Throw e
    end.
Proof.
  destruct m as [t [a | e]]; simpl; [| reflexivity].
  destruct (k a); reflexivity.
Qed.

Lemma fst_bind {A B : Type} (m : M A) (k : A -> M B) :
  fst (bind m k)
  = match snd m with
    | Return a => fst m ++ fst (k a)
    | Throw e => fst m
    end.
Proof.
  destruct m as [t [a | e]]; simpl; [| reflexivity].
  destruct (k a); reflexivity.
Qed.

Lemma snd_tryCatch {A : Type} (body : M A) (handler : Error -> M A) :
  snd (tryCatch body handler)
  = match snd body with
    | Return a => Return a
    | Throw e => snd (handler e)
    end.
Proof.
  destruct body as [t [a | e]]; simpl; [reflexivity |].
  destruct (handler e); reflexivity.
Qed.

Lemma fst_tryCatch {A : Type} (body : M A) (handler : Error -> M A) :
  fst (tryCatch body handler)
  = match snd body with
    | Return a => fst body
    | Throw e => fst body ++ fst (handler e)
    end.
Proof.
  destruct body as [t [a | e]]; simpl; [reflexivity |].
  destruct (handler e); reflexivity.
Qed.

Lemma silent_bind {A B : Type} (m : M A) (k : A -> M B) :
  silent m -> (forall a, silent (k a)) -> silent (bind m k).
Proof.
  unfold silent. intros Hm Hk. rewrite fst_bind, Hm.
  destruct (snd m); [apply Hk | reflexivity].
Qed.

Lemma silent_lift {A : Type} (c : Completion A) : silent (lift c).
Proof. reflexivity. Qed.

Lemma silent_ret {A : Type} (a : A) : silent (ret a).
Proof. reflexivity. Qed.

Lemma silent_mapM {A B : Type} (f : A -> M B) (l : list A) :
  (forall a, silent (f a)) -> silent (mapM f l).
Proof.
  intro Hf. induction l as [|a l IH]; [reflexivity |].
  simpl. apply silent_bind; [apply Hf |]. intro b.
  apply silent_bind; [exact IH |]. intro bs. reflexivity.
Qed.

Ltac silence :=
  repeat first
    [ apply silent_lift | apply silent_ret | reflexivity
    | apply silent_bind; [| intro] ].

Lemma silent_dimensionOf (result : value) (k : string) :
  silent (dimensionOf result k).
Proof. unfold dimensionOf. silence. Qed.

Lemma silent_normalizeIssue (issue : value) : silent (normalizeIssue issue).
Proof. unfold normalizeIssue. silence. Qed.

Lemma silent_normalizeIssues (issues : value) :
  silent (normalizeIssues issues).
Proof.
  unfold normalizeIssues. destruct (vor issues (VArr [])); try reflexivity.
  apply silent_bind; [| intro; reflexivity].
  apply silent_mapM, silent_normalizeIssue.
Qed.

Lemma silent_normalize (now : Z) (result : value) :
  silent (normalize now result).
Proof.
  unfold normalize.
  repeat first
    [ apply silent_lift | apply silent_ret | apply silent_dimensionOf
    | apply silent_normalizeIssues
    | apply silent_bind; [| intro] ].
Qed.

Section AnalyzeSpec.

Variable key : option string.
Variable create : Request -> Reply.
Variable parse_json : string -> option value.
Variable now : Z.
Variable promptText : VOPLProject -> string.

Local Abbreviation analysisBody :=
  (Props.analysisBody key create parse_json now promptText).

Lemma analyzeSpec_unfold (project : VOPLProject) :
  analyzeSpec key create parse_json now promptText project
  = if negb (truthy (apiKey key))
    then ret (Typed (getMockScore now project))
    else tryCatch (analysisBody project)
           (fun error =>
              console_error "Spec analysis failed:" error ;;;
              ret (Typed (getMockScore now project))).
Proof. reflexivity. Qed.

Lemma handler_returns_mock (project : VOPLProject) (e : Error) :
  (console_error "Spec analysis failed:" e ;;;
   ret (Typed (getMockScore now project)))
  = ([ConsoleError "Spec analysis failed:" e],
     Return (Typed (getMockScore now project))).
Proof. reflexivity. Qed.

(** The [try] block never sends more than its one request, and when it
    returns, it returns the object built from the response. *)
Lemma analysisBody_result (project : VOPLProject) :
  (exists e, snd (analysisBody project) = Throw e)
  \/ (exists v, snd (analysisBody project) = Return (Dynamic v)).
Proof.
  unfold Props.analysisBody. rewrite snd_bind.
  destruct (snd (call _ _)) as [content | e]; [| left; exists e; reflexivity].
  rewrite snd_bind.
  destruct (snd (textOf content)) as [text | e];
    [| left; exists e; reflexivity].
  rewrite snd_bind.
  destruct (snd (parse parse_json text)) as [result | e];
    [| left; exists e; reflexivity].
  rewrite snd_bind.
  destruct (snd (normalize now result)) as [v | e];
    [| left; exists e; reflexivity].
  right. exists v. reflexivity.
Qed.

End AnalyzeSpec.

Lemma findNode_None (project : VOPLProject) (id : string) :
  findNode project id = None <-> NoSuchNode project id.
Proof.
  unfold findNode, NoSuchNode. split.
  - intros H n Hn Heq.
    pose proof (find_none _ _ H n Hn) as Hf. cbv beta in Hf.
    apply String.eqb_neq in Hf. contradiction.
  - induction (nodes project) as [|n l IH]; intro H; [reflexivity |].
    simpl. destruct (String.eqb (node_id n) id) eqn:E.
    + apply String.eqb_eq in E. destruct (H n (or_introl eq_refl) E).
    + apply IH. intros m Hm. apply H. right. exact Hm.
Qed.

(** C9. When the node named by an autogeneration request is not in the
    graph, [autogenField] returns the result with [success = false] and
    the error "Node not found", and throws nothing. Without a credential
    the mock generator returns that result directly. With a credential,
    [buildAutogenPrompt] throws, no request is sent, and the handler turns
    the exception into the same result of the mock generator. *)
Theorem autogenField_node_not_found
    (key : option string) (create : Request -> Reply)
    (parse_json : string -> option value)
    (promptText : VOPLProject -> VOPLNode -> AutogenFieldType
                  -> string -> string)
    (context : AutogenContext)
    (Hmissing : NoSuchNode (ctx_project context) (ctx_nodeId context)) :
  let run := autogenField key create parse_json promptText context in
  let missing :=
    ErrorMsg ("Node " ++ ctx_nodeId context ++ " not found")%string in
  snd run = Return (notFound (ctx_field context))
  /\ getMockAutogenResult context = notFound (ctx_field context)
  /\ buildAutogenPrompt promptText context = ([], Throw missing)
  /\ (truthy (apiKey key) = false ->
      run = ([], Return (notFound (ctx_field context))))
  /\ (truthy (apiKey key) = true ->
      run = ([ConsoleError "Autogen failed:" missing],
             Return (notFound (ctx_field context)))).
Proof.
  intros run missing. subst run missing.
  apply findNode_None in Hmissing.
  assert (getMockAutogenResult context = notFound (ctx_field context))
    as Hmock by (unfold getMockAutogenResult; rewrite Hmissing; reflexivity).
  assert (buildAutogenPrompt promptText context
          = ([], Throw (ErrorMsg ("Node " ++ ctx_nodeId context
                                  ++ " not found")%string)))
    as Hprompt by (unfold buildAutogenPrompt; rewrite Hmissing; reflexivity).
  unfold autogenField. rewrite Hprompt, Hmock.
  destruct (truthy (apiKey key)); simpl;
    repeat split; try reflexivity; intro; discriminate.
Qed.

Lemma autogenField_node_not_found_witness :
  autogenField None Samples.offline Samples.noJson
               Samples.plainAutogenPrompt Samples.staleContext
  = ([], Return (notFound f_behavior))
  /\ autogenField (Some "sk-test") Samples.offline Samples.noJson
                  Samples.plainAutogenPrompt Samples.staleContext
     = ([ConsoleError "Autogen failed:"
                      (ErrorMsg "Node process-9 not found")],
        Return (notFound f_behavior)).
Proof.
  assert (NoSuchNode (ctx_project Samples.staleContext)
                     (ctx_nodeId Samples.staleContext)) as Hmissing.
  { intros n [<- | [<- | []]]; discriminate. }
  split.
  - apply (autogenField_node_not_found None Samples.offline Samples.noJson
             Samples.plainAutogenPrompt Samples.staleContext Hmissing).
    reflexivity.
  - apply (autogenField_node_not_found (Some "sk-test") Samples.offline
             Samples.noJson Samples.plainAutogenPrompt Samples.staleContext
             Hmissing).
    reflexivity.
Defined.

End AdapterProofs.

(** ** Inference of the field to regenerate *)

Module InferenceProofs.

Import JS SpecAnalysis Props JSFacts.
Local Open Scope list_scope.

(** C7. [inferFieldFromIssue] does not always return one of the six field
    kinds or none: for the explicit field name "constructor", which is not
    one of the six, the lookup in [fieldMap] finds the member that every
    object inherits, and that member is returned in place of none. *)
Theorem inferFieldFromIssue_inherited_member :
  inferFieldFromIssue Samples.constructorIssue
  = IsPrototypeMember "constructor"
  /\ inferFieldFromIssue Samples.constructorIssue <> IsNull
  /\ (forall f, inferFieldFromIssue Samples.constructorIssue <> IsField f)
  /\ assoc "constructor" fieldMap = None.
Proof.
  repeat split; try reflexivity; try discriminate.
Qed.

(** What does hold of the explicit field: a recognised name decides the
    result whatever the message says. *)
Lemma inferFieldFromIssue_explicit_field
    (issue : SpecIssue) (fname : string) (f : AutogenFieldType) :
  field issue = Some fname ->
  assoc fname fieldMap = Some f ->
  inferFieldFromIssue issue = IsField f.
Proof.
  intros Hfield Hmap. unfold inferFieldFromIssue. rewrite Hfield.
  assert (truthy fname = true) as ->
    by (destruct fname; [discriminate Hmap | reflexivity]).
  unfold lookup. rewrite Hmap. reflexivity.
Qed.

Lemma inferFieldFromIssue_explicit_behavior (issue : SpecIssue) :
  field issue = Some "behavior" ->
  inferFieldFromIssue issue = IsField f_behavior.
Proof.
  intro H. apply (inferFieldFromIssue_explicit_field issue "behavior");
    [exact H | reflexivity].
Qed.

(** An explicit name that is neither one of the six nor the name of an
    inherited member yields none. *)
Lemma inferFieldFromIssue_unknown_field (issue : SpecIssue) (fname : string) :
  field issue = Some fname ->
  fname <> "" ->
  assoc fname fieldMap = None ->
  ~ In fname Object_prototype_keys ->
  inferFieldFromIssue issue = IsNull.
Proof.
  intros Hfield Hne Hmap Hproto. unfold inferFieldFromIssue. rewrite Hfield.
  apply truthy_true_iff in Hne. rewrite Hne.
  unfold lookup. rewrite Hmap.
  destruct (existsb (String.eqb fname) Object_prototype_keys) eqn:E;
    [| reflexivity].
  apply existsb_exists in E. destruct E as (k & Hk & Heq).
  apply String.eqb_eq in Heq. subst k. contradiction.
Qed.

(** Without an explicit field and without a keyword in the message, the
    dimension decides. *)
Lemma inferFieldFromIssue_dimension_default (issue : SpecIssue) :
  field issue = None ->
  (forall k, In k issueKeywords -> ~ Occurs k (toLowerCase (message issue))) ->
  inferFieldFromIssue issue
  = match dimension issue with
    | completeness => IsField f_behavior
    | ambiguity => IsField f_intent
    | _ => IsNull
    end.
Proof.
  intros Hfield Hkw. unfold inferFieldFromIssue. rewrite Hfield.
  cbn [truthy].
  assert (forall k, In k issueKeywords ->
                    includes (toLowerCase (message issue)) k = false) as H.
  { intros k Hk. apply includes_false_iff, Hkw, Hk. }
  rewrite !H by (simpl; tauto).
  reflexivity.
Qed.

(** *** The target of a suggestion *)

Lemma find_split {A : Type} (f : A -> bool) (l : list A) (x : A) :
  find f l = Some x ->
  exists before after,
    l = before ++ x :: after
    /\ f x = true
    /\ forall y, In y before -> f y = false.
Proof.
  induction l as [|a l IH]; simpl; [discriminate |].
  destruct (f a) eqn:E.
  - intro H. injection H as <-. exists [], l.
    repeat split; [exact E | intros y []].
  - intro H. destruct (IH H) as (before & after & -> & Hx & Hb).
    exists (a :: before), after. repeat split; [exact Hx |].
    intros y [<- | Hy]; [exact E | apply Hb, Hy].
Qed.

Lemma find_skip {A : Type} (f : A -> bool) (before after : list A) (x : A) :
  (forall y, In y before -> f y = false) ->
  f x = true ->
  find f (before ++ x :: after) = Some x.
Proof.
  intros Hb Hx. induction before as [|a before IH]; simpl.
  - rewrite Hx. reflexivity.
  - rewrite (Hb a (or_introl eq_refl)). apply IH.
    intros y Hy. apply Hb. right. exact Hy.
Qed.

Lemma find_all_false {A : Type} (f : A -> bool) (l : list A) :
  (forall y, In y l -> f y = false) -> find f l = None.
Proof.
  induction l as [|a l IH]; intro H; simpl; [reflexivity |].
  rewrite (H a (or_introl eq_refl)). apply IH.
  intros y Hy. apply H. right. exact Hy.
Qed.

(** The node that the source selects: the result of the loop, or else the
    first node. *)
Lemma Target_selected (suggestion : string) (l : list VOPLNode)
    (n : VOPLNode) :
  Target suggestion l n ->
  match find (fun node => includes suggestion (name (data node))) l with
  | Some node => Some node
  | None => nth_error l 0
  end = Some n.
Proof.
  intros [before after m Hb Hm | m rest Hall].
  - rewrite (find_skip _ before after m); [reflexivity | |].
    + intros y Hy. apply includes_false_iff, Hb, Hy.
    + apply includes_Occurs, Hm.
  - rewrite find_all_false; [reflexivity |].
    intros y Hy. apply includes_false_iff, Hall, Hy.
Qed.

Lemma Target_exists (suggestion : string) (l : list VOPLNode) :
  l <> [] -> exists n, Target suggestion l n.
Proof.
  intro Hne.
  destruct (find (fun node => includes suggestion (name (data node))) l)
    as [m |] eqn:E.
  - destruct (find_split _ _ _ E) as (before & after & -> & Hm & Hb).
    exists m. apply target_named.
    + intros y Hy. apply includes_false_iff, Hb, Hy.
    + apply includes_Occurs, Hm.
  - destruct l as [|m rest]; [congruence |].
    exists m. apply target_default.
    intros y Hy. apply includes_false_iff.
    exact (find_none _ _ E y Hy).
Qed.

(** C8. [inferFieldFromSuggestion] returns none exactly when the graph has
    no node. Otherwise its node is the target of the suggestion: the first
    node, in graph order, whose name occurs in the text, or the first node
    of the graph when no name occurs. For the suggestion "Add detailed
    behavior descriptions with error handling to each node." the field is
    behavior and the node is that target. *)
Theorem inferFieldFromSuggestion_target
    (suggestion : string) (project : VOPLProject) :
  (inferFieldFromSuggestion suggestion project = None
   <-> nodes project = [])
  /\ (nodes project <> [] -> exists n, Target suggestion (nodes project) n)
  /\ (forall n, Target suggestion (nodes project) n ->
                exists f, inferFieldFromSuggestion suggestion project
                          = Some (f, node_id n))
  /\ (forall n, Target behaviorSuggestion (nodes project) n ->
                inferFieldFromSuggestion behaviorSuggestion project
                = Some (f_behavior, node_id n)).
Proof.
  assert (forall s n, Target s (nodes project) n ->
                      exists f, inferFieldFromSuggestion s project
                                = Some (f, node_id n)) as Hsome.
  { intros s n Ht. unfold inferFieldFromSuggestion.
    rewrite (Target_selected _ _ _ Ht).
    repeat match goal with
           | |- context [if ?b then _ else _] => destruct b
           end; eexists; reflexivity. }
  split; [| split; [| split]].
  - split.
    + intro Hnone. destruct (nodes project) as [|m rest] eqn:E;
        [reflexivity |].
      destruct (Target_exists suggestion (m :: rest)) as [n Ht];
        [discriminate |].
      destruct (Hsome _ _ Ht) as [f Hf]. congruence.
    + intro Hnil. unfold inferFieldFromSuggestion. rewrite Hnil. reflexivity.
  - apply Target_exists.
  - apply Hsome.
  - intros n Ht. unfold inferFieldFromSuggestion.
    rewrite (Target_selected _ _ _ Ht). reflexivity.
Qed.

Lemma inferFieldFromSuggestion_target_witness :
  inferFieldFromSuggestion behaviorSuggestion Samples.registration
  = Some (f_behavior, "trigger-1")
  /\ exists f,
      inferFieldFromSuggestion "Give Validate Input a shape"
                               Samples.registration
      = Some (f, "process-1").
Proof.
  split.
  - destruct (inferFieldFromSuggestion_target behaviorSuggestion
                Samples.registration) as (_ & _ & _ & Hliteral).
    apply (Hliteral (Samples.newProcess "trigger-1")).
    apply target_default.
    intros m [<- | [<- | []]]; apply includes_false_iff; reflexivity.
  - destruct (inferFieldFromSuggestion_target "Give Validate Input a shape"
                Samples.registration) as (_ & _ & Hnamed & _).
    apply (Hnamed Samples.validateInput).
    apply (target_named _ [Samples.newProcess "trigger-1"] []).
    + intros m [<- | []]. apply includes_false_iff. reflexivity.
    + apply includes_Occurs. reflexivity.
Defined.

End InferenceProofs.

(** ** The project store *)

Module StoreProofs.

Import Props ProjectStore.
Local Open Scope list_scope.

Lemma Removed_filter {A : Type} (P : A -> Prop) (keep : A -> bool)
    (l : list A) :
  (forall x, keep x = false <-> P x) -> Removed P l (filter keep l).
Proof.
  intro H. induction l as [|a l IH]; simpl.
  - constructor.
  - destruct (keep a) eqn:E.
    + apply removed_keep; [| exact IH].
      intro HP. apply H in HP. congruence.
    + apply removed_drop; [apply H, E | exact IH].
Qed.

Lemma keeps_node (nodeId : string) (n : VOPLNode) :
  negb (String.eqb (node_id n) nodeId) = false <-> node_id n = nodeId.
Proof. rewrite negb_false_iff. apply String.eqb_eq. Qed.

Lemma keeps_edge (nodeId : string) (e : VOPLEdge) :
  negb (String.eqb (source e) nodeId) && negb (String.eqb (target e) nodeId)
  = false
  <-> source e = nodeId \/ target e = nodeId.
Proof.
  rewrite andb_false_iff, !negb_false_iff, !String.eqb_eq. reflexivity.
Qed.

(** C10. [deleteNode] takes out of the project the nodes with the given
    id and the edges whose source or target is that id, and nothing else:
    the other nodes and the other edges stay, in their order, and the
    system context is the same. No edge of the resulting project refers to
    the deleted node. *)
Theorem deleteNode_removes_node_and_edges
    (now : Z) (nodeId : string) (state : ProjectState) :
  let p := project state in
  let p' := project (deleteNode now nodeId state) in
  Removed (fun n => node_id n = nodeId) (nodes p) (nodes p')
  /\ Removed (fun e => source e = nodeId \/ target e = nodeId)
             (edges p) (edges p')
  /\ (forall n, In n (nodes p') <-> In n (nodes p) /\ node_id n <> nodeId)
  /\ (forall e, In e (edges p')
                <-> In e (edges p) /\ source e <> nodeId /\ target e <> nodeId)
  /\ (forall e, In e (edges p') -> source e <> nodeId /\ target e <> nodeId)
  /\ systemContext p' = systemContext p
  /\ project_id p' = project_id p
  /\ project_name p' = project_name p
  /\ specScore p' = specScore p.
Proof.
  intros p p'. subst p p'.
  cbn [deleteNode project nodes edges systemContext project_id project_name
       specScore].
  assert (forall n,
             In n (filter (fun node => negb (String.eqb (node_id node) nodeId))
                          (nodes (project state)))
             <-> In n (nodes (project state)) /\ node_id n <> nodeId)
    as Hnodes.
  { intro n. rewrite filter_In, negb_true_iff, String.eqb_neq. reflexivity. }
  assert (forall e,
             In e (filter (fun edge =>
                             negb (String.eqb (source edge) nodeId)
                             && negb (String.eqb (target edge) nodeId))
                          (edges (project state)))
             <-> In e (edges (project state))
                 /\ source e <> nodeId /\ target e <> nodeId) as Hedges.
  { intro e. rewrite filter_In, andb_true_iff, !negb_true_iff.
    rewrite !String.eqb_neq. reflexivity. }
  split; [apply Removed_filter; intro n; apply keeps_node |].
  split; [apply Removed_filter; intro e; apply keeps_edge |].
  split; [exact Hnodes |].
  split; [exact Hedges |].
  split; [intros e He; apply Hedges in He; tauto |].
  repeat split.
Qed.

End StoreProofs.

(** ** Invariants of the project store *)

Module StoreInvariants.

Import ProjectStore StoreActions StoreProps.
Local Open Scope list_scope.

Lemma HasNode_ids (p : VOPLProject) (id : string) :
  HasNode p id <-> In id (map node_id (nodes p)).
Proof.
  unfold HasNode. rewrite in_map_iff. split.
  - intros (n & Hn & <-). exists n. split; [reflexivity | exact Hn].
  - intros (n & <- & Hn). exists n. split; [exact Hn | reflexivity].
Qed.

Lemma ids_updateNode (now : Z) (nodeId : string) (u : PartialNodeData)
    (state : ProjectState) :
  map node_id (nodes (project (updateNode now nodeId u state)))
  = map node_id (nodes (project state)).
Proof.
  cbn [updateNode withProject project nodes]. rewrite map_map.
  apply map_ext. intro n. destruct (String.eqb (node_id n) nodeId);
    reflexivity.
Qed.

Lemma ids_deleteNode (now : Z) (nodeId : string) (state : ProjectState) :
  map node_id (nodes (project (deleteNode now nodeId state)))
  = filter (fun id => negb (String.eqb id nodeId))
           (map node_id (nodes (project state))).
Proof.
  cbn [deleteNode project nodes].
  induction (nodes (project state)) as [|n l IH]; [reflexivity |].
  simpl. destruct (String.eqb (node_id n) nodeId); simpl; rewrite IH;
    reflexivity.
Qed.

Lemma ids_addNode (uuid : string) (now : Z) (t : VOPLNodeType)
    (pos : Q * Q) (state : ProjectState) :
  map node_id (nodes (project (addNode uuid now t pos state)))
  = map node_id (nodes (project state)) ++ [uuid].
Proof. cbn [addNode project nodes]. rewrite map_app. reflexivity. Qed.

(** The three invariants together. *)
Definition Invariant (state : ProjectState) : Prop :=
  Closed (project state) /\ UniqueIds (project state) /\ SelectionValid state.

(** A step that leaves nodes and edges alone keeps what is said of them. *)
Lemma Closed_same (p q : VOPLProject) :
  nodes q = nodes p -> edges q = edges p -> Closed p -> Closed q.
Proof.
  unfold Closed, HasNode. intros Hn He H e Hin.
  rewrite Hn. apply H. rewrite <- He. exact Hin.
Qed.

Lemma Closed_by_ids (p q : VOPLProject) :
  (forall id, HasNode p id -> HasNode q id) ->
  (forall e, In e (edges q) ->
             exists e', In e' (edges p)
                        /\ source e' = source e /\ target e' = target e) ->
  Closed p -> Closed q.
Proof.
  intros Hn He H e Hin. destruct (He e Hin) as (e' & Hin' & <- & <-).
  destruct (H e' Hin') as [Hs Ht]. split; apply Hn; assumption.
Qed.

(** Case analysis on an action, with names for what it carries. *)
Ltac by_action a :=
  destruct a as [nm | c | f v | uuid t pos | nid u | nid | uuid conn
                | eid shp | eid | sel | | | sc | flag | uuid | p].

Section Steps.

Variable lib_addEdge : VOPLEdge -> list VOPLEdge -> list VOPLEdge.
Hypothesis lib_adds_at_most : AddsAtMost lib_addEdge.

Lemma Closed_step (now : Z) (a : Action) (state : ProjectState) :
  Closed (project state) -> Admissible state a ->
  Closed (project (dispatch lib_addEdge now a state)).
Proof.
  intros H Ha.
  by_action a;
    cbn [dispatch];
    try (apply (Closed_same (project state)); [reflexivity .. | exact H]).
  - (* addNode *)
    apply (Closed_by_ids (project state)); [| | exact H].
    + intros id Hid. apply HasNode_ids. rewrite ids_addNode.
      apply in_or_app. left. apply HasNode_ids, Hid.
    + intros e He. exists e. repeat split. exact He.
  - (* updateNode *)
    apply (Closed_by_ids (project state)); [| | exact H].
    + intros id Hid. apply HasNode_ids. rewrite ids_updateNode.
      apply HasNode_ids, Hid.
    + intros e He. exists e. repeat split. exact He.
  - (* deleteNode *)
    intros e He. cbn [deleteNode project edges] in He.
    apply filter_In in He. destruct He as [He Hkeep].
    apply andb_true_iff in Hkeep. destruct Hkeep as [Hs Ht].
    apply negb_true_iff in Hs, Ht.
    destruct (H e He) as [Hsrc Htgt].
    split; apply HasNode_ids; rewrite ids_deleteNode; apply filter_In;
      (split; [apply HasNode_ids; assumption
              | apply negb_true_iff; assumption]).
  - (* addEdge *)
    intros e He. cbn [addEdge withProject project edges] in He.
    destruct (lib_adds_at_most _ _ _ He) as [-> | Hold].
    + exact Ha.
    + exact (H e Hold).
  - (* updateEdge *)
    apply (Closed_by_ids (project state)); [| | exact H].
    + intros id Hid. exact Hid.
    + intros e He. cbn [updateEdge withProject project edges] in He.
      apply in_map_iff in He. destruct He as (e' & <- & He').
      exists e'. split; [exact He' |].
      destruct (String.eqb (edge_id e') eid); split; reflexivity.
  - (* deleteEdge *)
    apply (Closed_by_ids (project state)); [| | exact H].
    + intros id Hid. exact Hid.
    + intros e He. cbn [deleteEdge withProject project edges] in He.
      apply filter_In in He. exists e. repeat split. apply He.
  - (* resetProject *)
    intros e [].
  - (* loadProject *)
    apply Ha.
Qed.

Lemma UniqueIds_step (now : Z) (a : Action) (state : ProjectState) :
  UniqueIds (project state) -> Admissible state a ->
  UniqueIds (project (dispatch lib_addEdge now a state)).
Proof.
  unfold UniqueIds. intros H Ha.
  by_action a;
    cbn [dispatch];
    try exact H.
  - (* addNode *)
    rewrite ids_addNode. apply NoDup_app; [exact H | | ].
    + constructor; [intros [] | constructor].
    + intros id Hid [<- | []]. apply Ha, HasNode_ids, Hid.
  - (* updateNode *)
    rewrite ids_updateNode. exact H.
  - (* deleteNode *)
    rewrite ids_deleteNode. apply NoDup_filter, H.
  - (* resetProject *)
    constructor.
  - (* loadProject *)
    apply Ha.
Qed.

Lemma SelectionValid_step (now : Z) (a : Action) (state : ProjectState) :
  SelectionValid state -> Admissible state a ->
  SelectionValid (dispatch lib_addEdge now a state).
Proof.
  unfold SelectionValid. intros H Ha.
  by_action a;
    cbn [dispatch];
    try (intros id Hid; destruct (H id Hid) as (n & Hn & Heq);
         exists n; split; assumption).
  - (* addNode *)
    intros id Hid. cbn [addNode selectedNodeId node_id] in Hid.
    injection Hid as <-. apply HasNode_ids. rewrite ids_addNode.
    apply in_or_app. right. left. reflexivity.
  - (* updateNode *)
    intros id Hid. apply HasNode_ids. rewrite ids_updateNode.
    apply HasNode_ids, H, Hid.
  - (* deleteNode *)
    intros id Hid. cbn [deleteNode selectedNodeId] in Hid.
    destruct (option_string_eqb (selectedNodeId state) nid) eqn:E;
      [discriminate |].
    apply HasNode_ids. rewrite ids_deleteNode. apply filter_In. split.
    + apply HasNode_ids, H, Hid.
    + rewrite Hid in E. cbn [option_string_eqb] in E. rewrite E. reflexivity.
  - (* selectNode *)
    intros id Hid. cbn [selectNode selectedNodeId] in Hid. subst sel.
    exact Ha.
  - (* resetProject *)
    intros id Hid. discriminate Hid.
  - (* loadProject *)
    intros id Hid. discriminate Hid.
Qed.

(** X1. In every state that the store reaches by its actions, no edge
    dangles, no two nodes share an identifier, and the selected node, if
    any, is a node of the project; provided that callers draw fresh
    identifiers, select and connect nodes that are on the canvas, import
    well-formed projects, and that the graph library adds at most the new
    edge. *)
Theorem store_invariants (state : ProjectState)
    (Hreach : Reachable lib_addEdge state) :
  Closed (project state) /\ UniqueIds (project state) /\ SelectionValid state.
Proof.
  induction Hreach as [uuid now | state now a Hreach IH Ha].
  - split; [| split].
    + intros e [].
    + constructor.
    + intros id Hid. discriminate Hid.
  - destruct IH as (Hc & Hu & Hs). split; [| split].
    + apply Closed_step; assumption.
    + apply UniqueIds_step; assumption.
    + apply SelectionValid_step; assumption.
Qed.

End Steps.

Lemma appendEdge_adds_at_most : AddsAtMost MoreSamples.appendEdge.
Proof.
  intros e es x Hx. apply in_app_or in Hx.
  destruct Hx as [Hx | [<- | []]]; [right; exact Hx | left; reflexivity].
Qed.

Lemma HasNode_by_id (p : VOPLProject) (id : string) :
  existsb (String.eqb id) (map node_id (nodes p)) = true -> HasNode p id.
Proof.
  intro H. apply HasNode_ids. apply existsb_exists in H.
  destruct H as (x & Hx & Heq). apply String.eqb_eq in Heq. subst x. exact Hx.
Qed.

Lemma no_node_by_id (p : VOPLProject) (id : string) :
  existsb (String.eqb id) (map node_id (nodes p)) = false -> ~ HasNode p id.
Proof.
  intros H Hn. apply HasNode_ids in Hn.
  assert (existsb (String.eqb id) (map node_id (nodes p)) = true) as C
    by (apply existsb_exists; exists id; split;
        [exact Hn | apply String.eqb_refl]).
  congruence.
Qed.

Lemma store_invariants_witness :
  Closed (project MoreSamples.twoConnected)
  /\ UniqueIds (project MoreSamples.twoConnected)
  /\ SelectionValid MoreSamples.twoConnected.
Proof.
  apply (store_invariants MoreSamples.appendEdge appendEdge_adds_at_most).
  unfold MoreSamples.twoConnected. cbn [run].
  apply reach_step; [apply reach_step; [apply reach_step |] |].
  - apply reach_initial.
  - apply no_node_by_id. reflexivity.
  - apply no_node_by_id. reflexivity.
  - split; apply HasNode_by_id; reflexivity.
Defined.

End StoreInvariants.

(** ** Laws of the store actions *)

Module StoreLaws.

Import ProjectStore StoreActions StoreProps StoreInvariants Props.
Local Open Scope list_scope.

Lemma filter_twice {A : Type} (f : A -> bool) (l : list A) :
  filter f (filter f l) = filter f l.
Proof.
  induction l as [|a l IH]; [reflexivity |].
  simpl. destruct (f a) eqn:E; simpl; rewrite ?E, IH; reflexivity.
Qed.

Lemma filter_swap {A : Type} (f g : A -> bool) (l : list A) :
  filter f (filter g l) = filter g (filter f l).
Proof.
  induction l as [|a l IH]; [reflexivity |].
  simpl. destruct (g a) eqn:G; destruct (f a) eqn:F; simpl;
    rewrite ?G, ?F, IH; reflexivity.
Qed.

(** X2. Deleting a node twice is deleting it once, and two deletions made
    at the same instant give the same state in either order: the nodes and
    edges that remain, the selection and the panel do not depend on the
    order in which the nodes are deleted. *)
Theorem deleteNode_order_irrelevant
    (now : Z) (a b : string) (state : ProjectState) :
  deleteNode now a (deleteNode now a state) = deleteNode now a state
  /\ deleteNode now a (deleteNode now b state)
     = deleteNode now b (deleteNode now a state).
Proof.
  split.
  - unfold deleteNode. cbn [project nodes edges selectedNodeId isPanelOpen
                             systemContext project_id project_name specScore
                             isSystemContextOpen isAnalyzing].
    rewrite !filter_twice.
    destruct (option_string_eqb (selectedNodeId state) a) eqn:E;
      cbn [option_string_eqb]; rewrite ?E; reflexivity.
  - unfold deleteNode. cbn [project nodes edges selectedNodeId isPanelOpen
                             systemContext project_id project_name specScore
                             isSystemContextOpen isAnalyzing].
    rewrite (filter_swap _ _ (nodes (project state))).
    rewrite (filter_swap _ _ (edges (project state))).
    destruct (option_string_eqb (selectedNodeId state) a) eqn:Ea;
      destruct (option_string_eqb (selectedNodeId state) b) eqn:Eb;
      cbn [option_string_eqb]; rewrite ?Ea, ?Eb; reflexivity.
Qed.

Lemma filter_keeps_all {A : Type} (f : A -> bool) (l : list A) :
  (forall x, In x l -> f x = true) -> filter f l = l.
Proof.
  induction l as [|a l IH]; intro H; [reflexivity |].
  simpl. rewrite (H a (or_introl eq_refl)). f_equal. apply IH.
  intros x Hx. apply H. right. exact Hx.
Qed.

(** X3. Adding a node under a fresh identifier and deleting it again
    gives back the nodes and the edges of a project without dangling
    edges, and its system context; nothing is selected afterwards and the
    panel is closed. *)
Theorem addNode_deleteNode_round_trip
    (uuid : string) (t1 t2 : Z) (type : VOPLNodeType) (position : Q * Q)
    (state : ProjectState)
    (Hfresh : ~ HasNode (project state) uuid)
    (Hclosed : Closed (project state)) :
  let state' := deleteNode t2 uuid (addNode uuid t1 type position state) in
  nodes (project state') = nodes (project state)
  /\ edges (project state') = edges (project state)
  /\ systemContext (project state') = systemContext (project state)
  /\ selectedNodeId state' = None
  /\ isPanelOpen state' = false.
Proof.
  intro state'. subst state'.
  cbn [deleteNode addNode project nodes edges systemContext selectedNodeId
       isPanelOpen node_id option_string_eqb].
  rewrite String.eqb_refl.
  repeat split.
  - rewrite filter_app. cbn [filter node_id]. rewrite String.eqb_refl.
    cbn [negb]. rewrite app_nil_r. apply filter_keeps_all.
    intros n Hn. apply negb_true_iff, String.eqb_neq. intro Heq.
    apply Hfresh. exists n. split; assumption.
  - apply filter_keeps_all. intros e He.
    destruct (Hclosed e He) as [Hs Ht].
    apply andb_true_iff. split; apply negb_true_iff, String.eqb_neq;
      intro Heq; apply Hfresh; rewrite <- Heq; assumption.
Qed.

Lemma addNode_deleteNode_round_trip_witness :
  nodes (project (deleteNode 5 "n3"
                    (addNode "n3" 4 process (0%Q, 0%Q)
                             MoreSamples.twoConnected)))
  = nodes (project MoreSamples.twoConnected)
  /\ edges (project (deleteNode 5 "n3"
                       (addNode "n3" 4 process (0%Q, 0%Q)
                                MoreSamples.twoConnected)))
     = edges (project MoreSamples.twoConnected).
Proof.
  destruct (addNode_deleteNode_round_trip "n3" 4 5 process (0%Q, 0%Q)
              MoreSamples.twoConnected) as (Hn & He & _).
  - apply no_node_by_id. reflexivity.
  - intros e [<- | []]. split; apply HasNode_by_id; reflexivity.
  - split; [exact Hn | exact He].
Defined.



End StoreLaws.

(** ** More about the heuristic scorer *)

Module ScorerLaws.

Import JS SpecAnalysis Props JSFacts DoubleFacts ScorerProofs ScorerProps.
Local Open Scope list_scope.

Lemma consistency_value (p : VOPLProject) :
  fst (consistencyPass p)
  = if (0 <? List.length (edges p))%nat
    then 80 - 10 * Z.of_nat (looseCount p) else 80.
Proof.
  unfold consistencyPass, looseCount.
  destruct (0 <? List.length (edges p))%nat; [| reflexivity].
  destruct (0 <? List.length (filter (unconnected p) (nodes p)))%nat eqn:L;
    cbn [fst]; [lia |].
  apply Nat.ltb_ge in L.
  destruct (filter (unconnected p) (nodes p)); simpl in *; lia.
Qed.

(** X5. The range of the heuristic scores, in the double-precision
    arithmetic of the source. On every graph the completeness score is
    between 0 and 100, the consistency score is at most 80 and the overall
    score is at most 77: the heuristic never reports a perfect
    specification. When the graph has no edge or at most
    eight unconnected nodes, the consistency score is not negative and the
    overall score is at least 22; when it has no edge or no unconnected
    node, the consistency score is 80 and the overall score at least 42. *)
Theorem heuristic_score_range (now : Z) (p : VOPLProject) :
  let s := getMockScore now p in
  0 <= score (sc_completeness s) <= 100
  /\ score (sc_consistency s) <= 80
  /\ overall s <= 77
  /\ (edges p = [] \/ (looseCount p <= 8)%nat ->
      0 <= score (sc_consistency s) /\ 22 <= overall s)
  /\ (edges p = [] \/ looseCount p = 0%nat ->
      score (sc_consistency s) = 80 /\ 42 <= overall s).
Proof.
  intro s. subst s.
  pose proof (completenessPass_bounds p) as [Hc0 Hc1].
  rewrite getMockScore_completeness_score, getMockScore_consistency_score.
  rewrite getMockScore_overall, consistency_value.
  split; [| split; [| split; [| split]]].
  - split; [apply Math_round_ge | apply Math_round_le]; assumption.
  - destruct (0 <? List.length (edges p))%nat; lia.
  - apply (Z.le_trans _ (weightedOverall 100 80));
      [| vm_compute; discriminate].
    apply weightedOverall_monotone; [exact Hc1 |].
    destruct (0 <? List.length (edges p))%nat; lia.
  - intro H.
    assert (0 <= (if (0 <? List.length (edges p))%nat
                  then 80 - 10 * Z.of_nat (looseCount p) else 80)) as Hk.
    { destruct H as [-> | H]; [simpl; lia |].
      destruct (0 <? List.length (edges p))%nat; lia. }
    split; [exact Hk |].
    apply (Z.le_trans _ (weightedOverall 0 0));
      [vm_compute; discriminate |].
    apply weightedOverall_monotone; assumption.
  - intro H.
    assert ((if (0 <? List.length (edges p))%nat
             then 80 - 10 * Z.of_nat (looseCount p) else 80) = 80) as ->.
    { destruct H as [-> | ->]; [reflexivity |].
      destruct (0 <? List.length (edges p))%nat; reflexivity. }
    split; [reflexivity |].
    apply (Z.le_trans _ (weightedOverall 0 80));
      [vm_compute; discriminate |].
    apply weightedOverall_monotone; [exact Hc0 | lia].
Qed.

Lemma heuristic_score_range_witness :
  (0 <= score (sc_consistency (getMockScore 0 Samples.threeNodes))
   /\ 22 <= overall (getMockScore 0 Samples.threeNodes))
  /\ (score (sc_consistency (getMockScore 0 Samples.twoLooseNodes)) = 80
      /\ 42 <= overall (getMockScore 0 Samples.twoLooseNodes)).
Proof.
  split.
  - apply (heuristic_score_range 0 Samples.threeNodes).
    right. vm_compute. lia.
  - apply (heuristic_score_range 0 Samples.twoLooseNodes).
    left. reflexivity.
Defined.

(** *** What the score depends on *)

Section ViaParts.

Variables (A P : Type) (part : A -> P).

Lemma length_via_part (l l' : list A) :
  map part l = map part l' -> List.length l = List.length l'.
Proof.
  intro H. rewrite <- (length_map part l), H. apply length_map.
Qed.

Lemma map_via_part {B : Type} (g g' : A -> B) (l l' : list A) :
  (forall x y, part x = part y -> g x = g' y) ->
  map part l = map part l' -> map g l = map g' l'.
Proof.
  intro Hg. revert l'. induction l as [|a l IH]; intros [|b l'] H;
    try discriminate; [reflexivity |].
  simpl in H. injection H as Hab Hl. simpl. f_equal; auto.
Qed.

Lemma flat_map_via_part {B : Type} (g g' : A -> list B) (l l' : list A) :
  (forall x y, part x = part y -> g x = g' y) ->
  map part l = map part l' -> flat_map g l = flat_map g' l'.
Proof.
  intro Hg. revert l'. induction l as [|a l IH]; intros [|b l'] H;
    try discriminate; [reflexivity |].
  simpl in H. injection H as Hab Hl. simpl. f_equal; auto.
Qed.

Lemma existsb_via_part (g g' : A -> bool) (l l' : list A) :
  (forall x y, part x = part y -> g x = g' y) ->
  map part l = map part l' -> existsb g l = existsb g' l'.
Proof.
  intro Hg. revert l'. induction l as [|a l IH]; intros [|b l'] H;
    try discriminate; [reflexivity |].
  simpl in H. injection H as Hab Hl. simpl. f_equal; auto.
Qed.

Lemma filter_via_part (g g' : A -> bool) (l l' : list A) :
  (forall x y, part x = part y -> g x = g' y) ->
  map part l = map part l' ->
  map part (filter g l) = map part (filter g' l').
Proof.
  intro Hg. revert l'. induction l as [|a l IH]; intros [|b l'] H;
    try discriminate; [reflexivity |].
  simpl in H. injection H as Hab Hl. simpl.
  rewrite (Hg a b Hab). destruct (g' b); simpl; [f_equal |]; auto.
Qed.

End ViaParts.

Lemma nodeScore_via_part (n m : VOPLNode) :
  scoredPart n = scoredPart m -> nodeScore n = nodeScore m.
Proof.
  unfold scoredPart, nodeScore. intro H. injection H as _ _ ->. reflexivity.
Qed.

Lemma intentIssue_via_part (n m : VOPLNode) :
  scoredPart n = scoredPart m -> intentIssue n = intentIssue m.
Proof.
  unfold scoredPart, intentIssue. intro H. injection H as -> _ ->.
  reflexivity.
Qed.

Lemma disconnectedIssue_via_part (n m : VOPLNode) :
  scoredPart n = scoredPart m -> disconnectedIssue n = disconnectedIssue m.
Proof.
  unfold scoredPart, disconnectedIssue. intro H. injection H as -> _ ->.
  reflexivity.
Qed.

Lemma unconnected_via_part (p q : VOPLProject) (n m : VOPLNode) :
  map ends (edges p) = map ends (edges q) ->
  scoredPart n = scoredPart m -> unconnected p n = unconnected q m.
Proof.
  unfold scoredPart, unconnected. intros He H. injection H as -> _ _.
  f_equal; f_equal; apply (existsb_via_part _ _ ends); try exact He;
    intros x y Hxy; unfold ends in Hxy; injection Hxy as Hs Ht;
    rewrite ?Hs, ?Ht; reflexivity.
Qed.

(** X6. The score depends only on the system context, on the identifier,
    type and data of each node, and on the two ends of each edge. Moving
    nodes on the canvas, changing the handles, labels or identifiers of
    edges, renaming the project or storing a score in it leaves the whole
    result of the scorer as it is. *)
Theorem getMockScore_reads_only_the_spec
    (now : Z) (p q : VOPLProject) (Hsame : SameSpec p q) :
  getMockScore now p = getMockScore now q.
Proof.
  destruct Hsame as (Hctx & Hnodes & Hedges).
  assert (List.length (nodes p) = List.length (nodes q)) as Hlen
    by exact (length_via_part _ _ _ _ _ Hnodes).
  assert (completenessPass p = completenessPass q) as Hc.
  { unfold completenessPass. rewrite Hctx, Hlen.
    rewrite (map_via_part _ _ scoredPart nodeScore nodeScore
                          (nodes p) (nodes q) nodeScore_via_part Hnodes).
    rewrite (flat_map_via_part _ _ scoredPart intentIssue intentIssue
                               (nodes p) (nodes q)
                               intentIssue_via_part Hnodes).
    reflexivity. }
  assert (map scoredPart (filter (unconnected p) (nodes p))
          = map scoredPart (filter (unconnected q) (nodes q))) as Hloose.
  { apply filter_via_part; [| exact Hnodes].
    intros x y. apply unconnected_via_part, Hedges. }
  assert (consistencyPass p = consistencyPass q) as Hk.
  { unfold consistencyPass.
    rewrite (length_via_part _ _ ends _ _ Hedges).
    rewrite (length_via_part _ _ scoredPart _ _ Hloose).
    rewrite (map_via_part _ _ scoredPart disconnectedIssue disconnectedIssue
                          _ _ disconnectedIssue_via_part Hloose).
    reflexivity. }
  assert (structurePass p = structurePass q) as Hs.
  { unfold structurePass. rewrite Hlen.
    rewrite (existsb_via_part _ _ scoredPart
               (fun n => VOPLNodeType_eqb (node_type n) trigger)
               (fun n => VOPLNodeType_eqb (node_type n) trigger)
               (nodes p) (nodes q)); [| | exact Hnodes].
    - rewrite (existsb_via_part _ _ scoredPart
                 (fun n => VOPLNodeType_eqb (node_type n) output)
                 (fun n => VOPLNodeType_eqb (node_type n) output)
                 (nodes p) (nodes q)); [reflexivity | | exact Hnodes].
      intros x y H. unfold scoredPart in H. injection H as _ -> _.
      reflexivity.
    - intros x y H. unfold scoredPart in H. injection H as _ -> _.
      reflexivity. }
  unfold getMockScore. rewrite Hc, Hk, Hs. reflexivity.
Qed.

Lemma getMockScore_reads_only_the_spec_witness :
  getMockScore 0 Samples.threeNodes
  = getMockScore 0 MoreSamples.threeNodesMoved.
Proof.
  apply (getMockScore_reads_only_the_spec 0 Samples.threeNodes
           MoreSamples.threeNodesMoved).
  repeat split.
Defined.

(** *** The order of nodes and edges *)

Lemma fold_add_Permutation (l l' : list Z) :
  Permutation l l' -> fold_left Z.add l 0 = fold_left Z.add l' 0.
Proof.
  intro H. induction H as [| x l l' H IH | x y l | l l' l'' H1 IH1 H2 IH2].
  - reflexivity.
  - cbn [fold_left]. rewrite (fold_add_from l), (fold_add_from l'), IH.
    reflexivity.
  - cbn [fold_left]. rewrite (fold_add_from l (0 + y + x)).
    rewrite (fold_add_from l (0 + x + y)). lia.
  - congruence.
Qed.

Lemma existsb_Permutation {A : Type} (f : A -> bool) (l l' : list A) :
  Permutation l l' -> existsb f l = existsb f l'.
Proof.
  intro H. induction H as [| x l l' H IH | x y l | l l' l'' H1 IH1 H2 IH2].
  - reflexivity.
  - simpl. rewrite IH. reflexivity.
  - simpl. destruct (f x), (f y); reflexivity.
  - congruence.
Qed.

Lemma filter_Permutation {A : Type} (f : A -> bool) (l l' : list A) :
  Permutation l l' -> Permutation (filter f l) (filter f l').
Proof.
  intro H. induction H as [| x l l' H IH | x y l | l l' l'' H1 IH1 H2 IH2].
  - constructor.
  - simpl. destruct (f x); [constructor |]; exact IH.
  - simpl. destruct (f x), (f y); try apply Permutation_refl.
    apply perm_swap.
  - exact (Permutation_trans IH1 IH2).
Qed.

Lemma flat_map_Permutation {A B : Type} (f : A -> list B) (l l' : list A) :
  Permutation l l' -> Permutation (flat_map f l) (flat_map f l').
Proof.
  intro H. induction H as [| x l l' H IH | x y l | l l' l'' H1 IH1 H2 IH2].
  - constructor.
  - simpl. apply Permutation_app_head, IH.
  - simpl. rewrite !app_assoc. apply Permutation_app_tail.
    apply Permutation_app_comm.
  - exact (Permutation_trans IH1 IH2).
Qed.

Lemma unconnected_edge_order (p q : VOPLProject) (n : VOPLNode) :
  Permutation (edges p) (edges q) -> unconnected p n = unconnected q n.
Proof.
  intro H. unfold unconnected.
  rewrite (existsb_Permutation _ _ _ H).
  rewrite (existsb_Permutation
             (fun e => String.eqb (source e) (node_id n)) _ _ H).
  reflexivity.
Qed.

(** X7. The order in which nodes and edges are listed is irrelevant to
    the scores: two projects with the same system context whose node lists
    and edge lists are permutations of each other get the same overall
    score and the same four dimension scores, and the same issues up to
    their order. *)
Theorem getMockScore_ignores_order
    (now : Z) (p q : VOPLProject)
    (Hctx : systemContext p = systemContext q)
    (Hnodes : Permutation (nodes p) (nodes q))
    (Hedges : Permutation (edges p) (edges q)) :
  overall (getMockScore now p) = overall (getMockScore now q)
  /\ sc_completeness (getMockScore now p)
     = sc_completeness (getMockScore now q)
  /\ sc_ambiguity (getMockScore now p) = sc_ambiguity (getMockScore now q)
  /\ sc_consistency (getMockScore now p)
     = sc_consistency (getMockScore now q)
  /\ sc_groundedness (getMockScore now p)
     = sc_groundedness (getMockScore now q)
  /\ Permutation (issues (getMockScore now p)) (issues (getMockScore now q)).
Proof.
  pose proof (Permutation_length Hnodes) as Hlen.
  assert (fst (completenessPass p) = fst (completenessPass q)) as Hc.
  { unfold completenessPass. rewrite Hctx, Hlen.
    rewrite (fold_add_Permutation _ _ (Permutation_map nodeScore Hnodes)).
    destruct (List.length (nodes q) =? 0)%nat; cbn [fst]; reflexivity. }
  assert (Permutation (snd (completenessPass p)) (snd (completenessPass q)))
    as Hci.
  { unfold completenessPass. rewrite Hctx, Hlen.
    destruct (List.length (nodes q) =? 0)%nat; cbn [snd];
      [apply Permutation_refl |].
    apply Permutation_app_head, flat_map_Permutation, Hnodes. }
  assert (Permutation (filter (unconnected p) (nodes p))
                      (filter (unconnected q) (nodes q))) as Hloose.
  { rewrite (filter_ext _ _ (fun n => unconnected_edge_order p q n Hedges)).
    apply filter_Permutation, Hnodes. }
  assert (fst (consistencyPass p) = fst (consistencyPass q)) as Hk.
  { unfold consistencyPass.
    rewrite (Permutation_length Hedges), (Permutation_length Hloose).
    destruct (0 <? _)%nat; [| reflexivity].
    destruct (0 <? _)%nat; reflexivity. }
  assert (Permutation (snd (consistencyPass p)) (snd (consistencyPass q)))
    as Hki.
  { unfold consistencyPass.
    rewrite (Permutation_length Hedges), (Permutation_length Hloose).
    destruct (0 <? _)%nat; [| apply Permutation_refl].
    destruct (0 <? _)%nat; cbn [snd]; [| apply Permutation_refl].
    apply Permutation_map, Hloose. }
  assert (structurePass p = structurePass q) as Hs.
  { unfold structurePass. rewrite Hlen.
    rewrite (existsb_Permutation _ _ _ Hnodes).
    rewrite (existsb_Permutation
               (fun n => VOPLNodeType_eqb (node_type n) output) _ _ Hnodes).
    reflexivity. }
  rewrite !getMockScore_overall, !getMockScore_issues, Hc, Hk, Hs.
  unfold getMockScore.
  destruct (completenessPass p) as [c ci], (completenessPass q) as [c' ci'].
  destruct (consistencyPass p) as [k ki], (consistencyPass q) as [k' ki'].
  cbn [fst snd] in *. subst c' k'.
  repeat split; try reflexivity.
  apply Permutation_app_tail, Permutation_app; assumption.
Qed.

Lemma getMockScore_ignores_order_witness :
  overall (getMockScore 0 Samples.threeNodes)
  = overall (getMockScore 0 MoreSamples.threeNodesReversed)
  /\ Permutation (issues (getMockScore 0 Samples.threeNodes))
                 (issues (getMockScore 0 MoreSamples.threeNodesReversed)).
Proof.
  destruct (getMockScore_ignores_order 0 Samples.threeNodes
              MoreSamples.threeNodesReversed) as (Ho & _ & _ & _ & _ & Hi).
  - reflexivity.
  - change (nodes MoreSamples.threeNodesReversed)
      with (rev (nodes Samples.threeNodes)).
    apply Permutation_rev.
  - apply Permutation_refl.
  - split; [exact Ho | exact Hi].
Defined.

(** *** The issues *)

Lemma intentIssue_empty_iff (n : VOPLNode) :
  intentIssue n = [] <-> ~ VagueIntent (data n).
Proof.
  unfold intentIssue, VagueIntent.
  rewrite <- startsWith_BeginsWith, <- Nat.ltb_lt.
  destruct (String.length (intent (data n)) <? 20)%nat;
    destruct (startsWith (intent (data n)) "Describe"); simpl;
    split; intro H; try reflexivity; try discriminate;
    try (exfalso; apply H; auto; fail);
    intros [C | C]; discriminate.
Qed.

Lemma In_disconnected (p : VOPLProject) (i : SpecIssue) :
  In i (snd (consistencyPass p)) ->
  exists n, In n (nodes p) /\ i = disconnectedIssue n.
Proof.
  unfold consistencyPass.
  destruct (0 <? _)%nat; [| intros []].
  destruct (0 <? _)%nat; [| intros []].
  cbn [snd]. intro H. apply in_map_iff in H.
  destruct H as (n & <- & Hn). apply filter_In in Hn.
  exists n. split; [apply Hn | reflexivity].
Qed.

Lemma In_completeness_issue (p : VOPLProject) (i : SpecIssue) :
  In i (snd (completenessPass p)) ->
  i = contextIssue \/ i = noNodesIssue
  \/ exists n, In n (nodes p) /\ In i (intentIssue n).
Proof.
  unfold completenessPass.
  destruct (_ <? 3)%nat; destruct (_ =? 0)%nat; cbn [snd app];
    intro H.
  - destruct H as [<- | [<- | []]]; auto.
  - destruct H as [<- | H]; [auto |].
    apply in_flat_map in H. auto.
  - destruct H as [<- | []]; auto.
  - apply in_flat_map in H. auto.
Qed.

Lemma issue_node_in_graph
    (now : Z) (p : VOPLProject) (i : SpecIssue) (id : string) :
  In i (issues (getMockScore now p)) ->
  nodeId i = Some id ->
  exists n, In n (nodes p) /\ node_id n = id.
Proof.
  intros Hissue Hid.
  rewrite getMockScore_issues in Hissue.
  apply in_app_or in Hissue. destruct Hissue as [Hissue | Hissue];
    [apply in_app_or in Hissue; destruct Hissue as [Hissue | Hissue] |].
  - destruct (In_completeness_issue _ _ Hissue)
      as [-> | [-> | (n & Hn & Hi)]]; try discriminate Hid.
    unfold intentIssue in Hi. destruct (_ || _) in Hi; [| contradiction].
    destruct Hi as [<- | []]. injection Hid as <-.
    exists n. split; [exact Hn | reflexivity].
  - destruct (In_disconnected _ _ Hissue) as (n & Hn & ->).
    injection Hid as <-. exists n. split; [exact Hn | reflexivity].
  - destruct (In_structurePass _ _ Hissue) as [Hsev Hdim].
    unfold structurePass in Hissue.
    destruct (negb _ && _); destruct (negb _ && _); simpl in Hissue;
      repeat destruct Hissue as [Hissue | Hissue];
      try contradiction; subst i; discriminate Hid.
Qed.

(** X8. Every issue of the heuristic scorer that names a node names a
    node of the scored project: following an issue never leads to a
    node that is not there. *)
Theorem issues_refer_to_nodes
    (now : Z) (p : VOPLProject) (i : SpecIssue) (id : string)
    (Hissue : In i (issues (getMockScore now p)))
    (Hid : nodeId i = Some id) :
  exists n, In n (nodes p) /\ node_id n = id.
Proof. exact (issue_node_in_graph now p i id Hissue Hid). Qed.

Lemma issues_refer_to_nodes_witness :
  exists n, In n (nodes Samples.threeNodes) /\ node_id n = "c".
Proof.
  apply (issues_refer_to_nodes 0 Samples.threeNodes
           (disconnectedIssue (Samples.newProcess "c")) "c").
  - vm_compute. tauto.
  - reflexivity.
Defined.

Lemma ambiguity_part (now : Z) (p : VOPLProject) :
  filter isAmbiguity (issues (getMockScore now p))
  = flat_map intentIssue (nodes p).
Proof.
  rewrite getMockScore_issues, !filter_app.
  assert (filter isAmbiguity (snd (consistencyPass p)) = []) as ->.
  { apply filter_none. intros i Hi.
    destruct (In_disconnected _ _ Hi) as (n & _ & ->). reflexivity. }
  assert (filter isAmbiguity (structurePass p) = []) as ->.
  { apply filter_none. intros i Hi.
    destruct (In_structurePass _ _ Hi) as [_ Hd].
    unfold isAmbiguity. rewrite Hd. reflexivity. }
  rewrite !app_nil_r. unfold completenessPass.
  assert (filter isAmbiguity (flat_map intentIssue (nodes p))
          = flat_map intentIssue (nodes p)) as Hall.
  { apply filter_all. intros i Hi.
    destruct (In_intentIssues _ _ Hi) as [_ Hd].
    unfold isAmbiguity. rewrite Hd. reflexivity. }
  destruct (_ <? 3)%nat; destruct (_ =? 0)%nat eqn:E; cbn [snd app filter];
    try exact Hall;
    apply Nat.eqb_eq in E; destruct (nodes p); try discriminate E;
    reflexivity.
Qed.

(** X9. The issues of dimension ambiguity are the intent warnings: one
    for each node whose intent is shorter than 20 characters or begins
    with "Describe", in graph order, naming the node and the field
    intent, and none for the other nodes. The two thresholds differ: an
    intent of exactly 20 characters draws no warning and earns no points,
    and an intent of more than 20 characters that begins with "Describe"
    (the placeholder of a new node) draws the warning and still earns its
    20 points. *)
Theorem intent_warnings (now : Z) (p : VOPLProject) :
  filter isAmbiguity (issues (getMockScore now p))
  = flat_map intentIssue (nodes p)
  /\ (forall n, VagueIntent (data n) -> intentIssue n = [intentWarning n])
  /\ (forall n, ~ VagueIntent (data n) -> intentIssue n = [])
  /\ (forall n s, String.length s = 20%nat ->
                  ~ BeginsWith "Describe" s ->
                  intentIssue (withIntent n s) = []
                  /\ nodeScore (withIntent n s) = nodeScore (withIntent n ""))
  /\ (forall n s, (20 < String.length s)%nat ->
                  BeginsWith "Describe" s ->
                  intentIssue (withIntent n s) = [intentWarning (withIntent n s)]
                  /\ nodeScore (withIntent n s)
                     = nodeScore (withIntent n "") + 20).
Proof.
  assert (forall n, VagueIntent (data n) -> intentIssue n = [intentWarning n])
    as Hvague.
  { intros n Hv. destruct (intentIssue n) eqn:E.
    - apply intentIssue_empty_iff in E. contradiction.
    - unfold intentIssue in E. destruct (_ || _) in E; [| discriminate].
      rewrite <- E. reflexivity. }
  split; [apply ambiguity_part |].
  split; [exact Hvague |].
  split; [intros n Hn; apply intentIssue_empty_iff, Hn |].
  split.
  - intros n s Hlen Hd. split.
    + apply intentIssue_empty_iff. unfold VagueIntent.
      cbn [withIntent data intent].
      intros [C | C]; [lia | contradiction].
    + rewrite !nodeScore_sum. cbn [withIntent data intent name behavior
                                    inputs outputs examples].
      replace (20 <? String.length s)%nat with false
        by (symmetry; apply Nat.ltb_ge; lia).
      rewrite andb_false_r. reflexivity.
  - intros n s Hlen Hd. split.
    + apply Hvague. right. exact Hd.
    + rewrite !nodeScore_sum. cbn [withIntent data intent name behavior
                                    inputs outputs examples].
      rewrite (proj2 (longer_than_iff s 20) Hlen). cbn [truthy andb]. lia.
Qed.

Lemma intent_warnings_witness :
  intentIssue (withIntent (Samples.newProcess "a")
                          "Describe the processing logic...")
  = [intentWarning (withIntent (Samples.newProcess "a")
                               "Describe the processing logic...")]
  /\ nodeScore (withIntent (Samples.newProcess "a")
                           "Describe the processing logic...")
     = nodeScore (withIntent (Samples.newProcess "a") "") + 20.
Proof.
  destruct (intent_warnings 0 Samples.threeNodes) as (_ & _ & _ & _ & H).
  apply H.
  - vm_compute. lia.
  - exists " the processing logic...". reflexivity.
Defined.

Lemma filled_count (c : SystemContext) :
  List.length (filter (fun v => truthy v && (10 <? String.length v)%nat)
                      (Object_values c))
  = List.length (filledFields c).
Proof.
  unfold filledFields. f_equal. apply filter_ext. intro v.
  destruct v; reflexivity.
Qed.

Lemma has_type_iff (p : VOPLProject) (t : VOPLNodeType) :
  existsb (fun n => VOPLNodeType_eqb (node_type n) t) (nodes p) = true
  <-> HasType p t.
Proof.
  unfold HasType. rewrite existsb_exists.
  split; intros (n & Hn & H); exists n; (split; [exact Hn |]).
  - destruct (node_type n), t; try discriminate; reflexivity.
  - rewrite H. destruct t; reflexivity.
Qed.

Lemma structure_trigger (p : VOPLProject) :
  In triggerIssue (structurePass p)
  <-> existsb (fun n => VOPLNodeType_eqb (node_type n) trigger) (nodes p)
      = false
      /\ (0 <? List.length (nodes p))%nat = true.
Proof.
  unfold structurePass.
  destruct (existsb _ (nodes p)); destruct (0 <? _)%nat;
    destruct (existsb _ (nodes p)); simpl; split;
    try (intros [H1 H2]; discriminate);
    try (intros [C | [C | []]]; discriminate C);
    try (intros [C | []]; discriminate C);
    try (intros []); auto.
Qed.

Lemma structure_output (p : VOPLProject) :
  In outputIssue (structurePass p)
  <-> existsb (fun n => VOPLNodeType_eqb (node_type n) output) (nodes p)
      = false
      /\ (0 <? List.length (nodes p))%nat = true.
Proof.
  unfold structurePass.
  destruct (existsb _ (nodes p)); destruct (0 <? _)%nat;
    destruct (existsb _ (nodes p)); simpl; split;
    try (intros [H1 H2]; discriminate);
    try (intros [C | [C | []]]; discriminate C);
    try (intros [C | []]; discriminate C);
    try (intros []); auto.
Qed.

(** X10. When the graph-level issues fire. The issue asking for a trigger
    node is present exactly when the graph has nodes and none of type
    trigger, the one asking for an output node exactly when it has nodes
    and none of type output, the no-nodes error exactly when it has no
    node, and the system-context warning exactly when fewer than three of
    the six fields are longer than 10 characters, whichever fields they
    are. *)
Theorem graph_level_issues (now : Z) (p : VOPLProject) :
  let found := issues (getMockScore now p) in
  (In triggerIssue found <-> nodes p <> [] /\ ~ HasType p trigger)
  /\ (In outputIssue found <-> nodes p <> [] /\ ~ HasType p output)
  /\ (In noNodesIssue found <-> nodes p = [])
  /\ (In contextIssue found
      <-> (List.length (filledFields (systemContext p)) < 3)%nat).
Proof.
  intro found. subst found.
  assert (forall i, dimension i = completeness ->
                    (In i (issues (getMockScore now p))
                     <-> In i (snd (completenessPass p))
                         \/ In i (structurePass p))) as Hsplit.
  { intros i Hd. rewrite getMockScore_issues, !in_app_iff.
    split; [| tauto].
    intros [[H | H] | H]; auto.
    destruct (In_disconnected _ _ H) as (n & _ & ->). discriminate Hd. }
  assert (forall i, dimension i = completeness ->
                    In i (snd (completenessPass p)) ->
                    i = contextIssue \/ i = noNodesIssue) as Hcomp.
  { intros i Hd Hi.
    destruct (In_completeness_issue _ _ Hi) as [-> | [-> | (n & _ & Hn)]];
      auto.
    unfold intentIssue in Hn. destruct (_ || _) in Hn; [| contradiction].
    destruct Hn as [<- | []]. discriminate Hd. }
  assert ((0 <? List.length (nodes p))%nat = true <-> nodes p <> []) as Hne
    by apply has_example_iff.
  split; [| split; [| split]].
  - rewrite Hsplit by reflexivity.
    rewrite structure_trigger, <- has_type_iff, <- Hne.
    split.
    + intros [H | H]; [| split; [apply H | intro C; destruct H; congruence]].
      destruct (Hcomp triggerIssue eq_refl H) as [C | C]; discriminate C.
    + intros [H1 H2]. right. split; [| exact H1].
      destruct (existsb _ (nodes p)); [exfalso; auto | reflexivity].
  - rewrite Hsplit by reflexivity.
    rewrite structure_output, <- has_type_iff, <- Hne.
    split.
    + intros [H | H]; [| split; [apply H | intro C; destruct H; congruence]].
      destruct (Hcomp outputIssue eq_refl H) as [C | C]; discriminate C.
    + intros [H1 H2]. right. split; [| exact H1].
      destruct (existsb _ (nodes p)); [exfalso; auto | reflexivity].
  - rewrite Hsplit by reflexivity.
    split.
    + intros [H | H].
      * unfold completenessPass in H.
        destruct (List.length (nodes p) =? 0)%nat eqn:E.
        -- apply Nat.eqb_eq in E. destruct (nodes p); [reflexivity |].
           discriminate E.
        -- destruct (_ <? 3)%nat; cbn [snd app] in H;
             [destruct H as [C | H]; [discriminate C |] |];
             apply in_flat_map in H; destruct H as (n & _ & Hn);
             unfold intentIssue in Hn; destruct (_ || _) in Hn;
             try contradiction; destruct Hn as [C | []]; discriminate C.
      * destruct (In_structurePass _ _ H) as [C _]. discriminate C.
    + intro Hnil. left. unfold completenessPass. rewrite Hnil.
      cbn [List.length Nat.eqb]. destruct (_ <? 3)%nat; cbn [snd app];
        simpl; auto.
  - rewrite Hsplit by reflexivity.
    rewrite <- filled_count, <- Nat.ltb_lt.
    split.
    + intros [H | H].
      * unfold completenessPass in H.
        destruct (_ <? 3)%nat; [reflexivity |].
        destruct (_ =? 0)%nat; cbn [snd app] in H.
        -- destruct H as [C | []]. discriminate C.
        -- apply in_flat_map in H. destruct H as (n & _ & Hn).
           unfold intentIssue in Hn. destruct (_ || _) in Hn;
             try contradiction. destruct Hn as [C | []]. discriminate C.
      * destruct (In_structurePass _ _ H) as [C _]. discriminate C.
    + intro Hlt. left. unfold completenessPass. rewrite Hlt.
      destruct (_ =? 0)%nat; cbn [snd app]; left; reflexivity.
Qed.

Lemma graph_level_issues_witness :
  ~ In contextIssue (issues (getMockScore 0 MoreSamples.otherThreeProject))
  /\ In triggerIssue (issues (getMockScore 0 MoreSamples.otherThreeProject)).
Proof.
  destruct (graph_level_issues 0 MoreSamples.otherThreeProject)
    as (Htrigger & _ & _ & Hcontext).
  split.
  - intro H. apply Hcontext in H. vm_compute in H. lia.
  - apply Htrigger. split; [discriminate |].
    intros (n & [<- | []] & Ht). discriminate Ht.
Defined.

End ScorerLaws.

(** ** More about the adapter *)

Module AdapterLaws.

Import JS SpecAnalysis Props JSFacts AdapterProofs AdapterProps.
Local Open Scope list_scope.

Lemma get_member (v : value) (k : string) :
  Readable v -> get v k = Return (member v k).
Proof.
  intros [H1 H2]. destruct v; try reflexivity; congruence.
Qed.

Lemma get_returns (v : value) (k : string) (x : value) :
  get v k = Return x -> Readable v /\ x = member v k.
Proof.
  destruct v; simpl; intro H; try discriminate;
    injection H as <-; (split; [split; discriminate | reflexivity]).
Qed.

Lemma get_throws (v : value) (k : string) (e : Error) :
  get v k = Throw e -> ~ Readable v.
Proof.
  destruct v; simpl; intro H; try discriminate; intros [H1 H2]; congruence.
Qed.

Lemma snd_lift {A : Type} (c : Completion A) : snd (lift c) = c.
Proof. reflexivity. Qed.

(** A dimension object is built exactly when that member of the response
    is readable. *)
Lemma dimensionOf_returns (result : value) (k : string) :
  Readable result ->
  (exists d, snd (dimensionOf result k) = Return d)
  <-> Readable (member result k).
Proof.
  intro Hr. unfold dimensionOf.
  rewrite snd_bind, snd_lift, (get_member _ _ Hr).
  rewrite snd_bind, snd_lift.
  destruct (get (member result k) "score") as [s | e] eqn:E.
  - apply get_returns in E. destruct E as [Hm _].
    rewrite snd_bind, snd_lift, (get_member _ _ Hm).
    split; [intros _; exact Hm | intros _; eexists; reflexivity].
  - split; [intros [d Hd]; discriminate Hd |].
    intro Hm. apply get_throws in E. contradiction.
Qed.

Lemma normalizeIssue_returns (issue : value) :
  (exists o, snd (normalizeIssue issue) = Return o) <-> Readable issue.
Proof.
  unfold normalizeIssue. split.
  - intros [o H]. rewrite snd_bind, snd_lift in H.
    destruct (get issue "severity") eqn:E; [| discriminate H].
    apply get_returns in E. apply E.
  - intro Hr.
    repeat (rewrite snd_bind, snd_lift, (get_member _ _ Hr)).
    eexists. reflexivity.
Qed.

Lemma mapM_returns {A B : Type} (f : A -> M B) (l : list A) :
  (exists bs, snd (mapM f l) = Return bs)
  <-> Forall (fun a => exists b, snd (f a) = Return b) l.
Proof.
  induction l as [|a l IH]; simpl.
  - split; [constructor | intros _; eexists; reflexivity].
  - rewrite snd_bind. split.
    + intros [bs H]. destruct (snd (f a)) as [b | e] eqn:E;
        [| discriminate H].
      rewrite snd_bind in H.
      destruct (snd (mapM f l)) as [bs' | e] eqn:E'; [| discriminate H].
      constructor; [exists b; exact E |].
      apply IH. exists bs'. reflexivity.
    + intro H. inversion H as [| a' l' [b Hb] Hl]; subst.
      rewrite Hb, snd_bind. apply IH in Hl. destruct Hl as [bs ->].
      eexists. reflexivity.
Qed.

Lemma normalizeIssues_returns (issues : value) :
  (exists o, snd (normalizeIssues issues) = Return o) <-> IssuesOk issues.
Proof.
  unfold normalizeIssues, IssuesOk, vor.
  destruct (truthy_value issues) eqn:T.
  - destruct issues; simpl in T; try discriminate;
      try (split; [intros [o H]; discriminate H
                  | intros [C | (items' & C & _)]; discriminate C]).
    rewrite snd_bind. split.
    + intros [o H]. right. exists items. split; [reflexivity |].
      destruct (snd (mapM normalizeIssue items)) as [l | e] eqn:E;
        [| discriminate H].
      assert (exists bs, snd (mapM normalizeIssue items) = Return bs) as Hm
        by (eexists; exact E).
      apply mapM_returns in Hm.
      eapply Forall_impl; [| exact Hm].
      intros a Ha. apply normalizeIssue_returns, Ha.
    + intros [C | (items' & Heq & Hall)]; [discriminate C |].
      injection Heq as <-.
      assert (exists bs, snd (mapM normalizeIssue items) = Return bs)
        as [bs ->].
      { apply mapM_returns. eapply Forall_impl; [| exact Hall].
        intros a Ha. apply normalizeIssue_returns, Ha. }
      eexists. reflexivity.
  - split; [intros _; left; reflexivity |].
    intros _. simpl. eexists. reflexivity.
Qed.

Lemma returns_bind {A B : Type} (m : M A) (k : A -> M B) :
  (exists b, snd (bind m k) = Return b)
  <-> exists a, snd m = Return a /\ exists b, snd (k a) = Return b.
Proof.
  rewrite snd_bind. destruct (snd m) as [a | e].
  - split; [intro H; exists a; split; [reflexivity | exact H] |].
    intros (a' & Ha & H). injection Ha as <-. exact H.
  - split; [intros [b H]; discriminate H |].
    intros (a & Ha & _). discriminate Ha.
Qed.

Lemma returns_get (v : value) (k : string) (P : value -> Prop) :
  (exists a, snd (lift (get v k)) = Return a /\ P a)
  <-> Readable v /\ P (member v k).
Proof.
  rewrite snd_lift. split.
  - intros (a & Ha & HP). apply get_returns in Ha.
    destruct Ha as [Hr ->]. split; assumption.
  - intros [Hr HP]. exists (member v k). split;
      [apply get_member, Hr | exact HP].
Qed.

Lemma returns_dimension (v : value) (k : string) (P : Prop) :
  Readable v ->
  ((exists d, snd (dimensionOf v k) = Return d /\ P)
   <-> Readable (member v k) /\ P).
Proof.
  intro Hr. rewrite <- (dimensionOf_returns v k Hr).
  split; [intros (d & Hd & HP) | intros ((d & Hd) & HP)];
    repeat split; eauto.
Qed.

Lemma member_readable (v : value) (k : string) :
  Readable (member v k) -> Readable v.
Proof.
  intros [H1 H2]. destruct v; simpl in *; split; congruence.
Qed.

Lemma normalize_returns_iff (now : Z) (v : value) :
  (exists o, snd (normalize now v) = Return o) <-> Accepted v.
Proof.
  unfold normalize, Accepted.
  rewrite returns_bind, returns_get.
  split.
  - intros (Hr & H).
    rewrite returns_bind in H. destruct H as (c & Hc & H).
    rewrite returns_bind in H. destruct H as (a & Ha & H).
    rewrite returns_bind in H. destruct H as (k & Hk & H).
    rewrite returns_bind in H. destruct H as (g & Hg & H).
    rewrite returns_bind, returns_get in H. destruct H as (_ & H).
    rewrite returns_bind in H. destruct H as (iss & Hiss & _).
    split; [| split; [| split; [| split]]];
      try (apply (dimensionOf_returns v _ Hr); eexists; eassumption).
    apply normalizeIssues_returns. eexists. exact Hiss.
  - intros (Hc & Ha & Hk & Hg & Hi).
    pose proof (member_readable _ _ Hc) as Hr.
    split; [exact Hr |].
    apply (dimensionOf_returns v _ Hr) in Hc, Ha, Hk, Hg.
    destruct Hc as [c Hc], Ha as [a Ha], Hk as [k Hk], Hg as [g Hg].
    apply normalizeIssues_returns in Hi. destruct Hi as [iss Hi].
    rewrite returns_bind. exists c. split; [exact Hc |].
    rewrite returns_bind. exists a. split; [exact Ha |].
    rewrite returns_bind. exists k. split; [exact Hk |].
    rewrite returns_bind. exists g. split; [exact Hg |].
    rewrite returns_bind, returns_get. split; [exact Hr |].
    rewrite returns_bind. exists iss. split; [exact Hi |].
    rewrite returns_bind, returns_get. split; [exact Hr |].
    eexists. reflexivity.
Qed.

(** What the object built from a response holds. *)
Lemma normalize_members (now : Z) (v o : value) :
  snd (normalize now v) = Return o ->
  member o "overall" = member v "overall"
  /\ member o "lastUpdated" = VNum (inject_Z now)
  /\ member o "suggestions" = vor (member v "suggestions") (VArr []).
Proof.
  intro Ho.
  assert (Readable v) as Hr.
  { unfold normalize in Ho. rewrite snd_bind, snd_lift in Ho.
    destruct (get v "overall") eqn:E; [| discriminate Ho].
    apply get_returns in E. apply E. }
  unfold normalize in Ho. rewrite !(get_member v _ Hr) in Ho.
  repeat (rewrite snd_bind in Ho; cbn [lift snd] in Ho;
          try match type of Ho with
              | match ?m with Return _ => _ | Throw _ => _ end = _ =>
                  destruct m; [| discriminate Ho]
              end).
  cbn [ret snd] in Ho. injection Ho as <-. repeat split.
Qed.

(** X11. Which responses the adapter accepts. Building the score from a
    parsed response succeeds exactly when the four dimension members are
    present and are neither null nor undefined, and the issues member is
    absent, falsy, or an array without null items. Nothing else is
    required: a response without [overall], without scores, or with
    scores that are not numbers is accepted as it is; in the object
    built, [overall] is the member of the response (undefined when the
    response has none), [lastUpdated] is the current time and absent
    suggestions become the empty array. Building causes no event. *)
Theorem normalize_accepts (now : Z) (v : value) :
  ((exists o, snd (normalize now v) = Return o) <-> Accepted v)
  /\ (forall o, snd (normalize now v) = Return o ->
                member o "overall" = member v "overall"
                /\ member o "lastUpdated" = VNum (inject_Z now)
                /\ member o "suggestions"
                   = vor (member v "suggestions") (VArr []))
  /\ fst (normalize now v) = [].
Proof.
  split; [apply normalize_returns_iff | split; [| apply silent_normalize]].
  intros o Ho. exact (normalize_members now v o Ho).
Qed.

Lemma normalize_accepts_witness :
  exists o, snd (normalize 0 MoreSamples.terseResponse) = Return o.
Proof.
  apply (normalize_accepts 0 MoreSamples.terseResponse).
  unfold Accepted, Readable, IssuesOk.
  repeat split; try discriminate.
  right. eexists. split; [reflexivity |].
  repeat constructor; discriminate.
Defined.

(** [analyzeSpec] returns the heuristic score or an object built from the
    response. *)
Lemma analyzeSpec_result_cases
    (key : option string) (create : Request -> Reply)
    (parse_json : string -> option value) (now : Z)
    (promptText : VOPLProject -> string) (project : VOPLProject) :
  snd (analyzeSpec key create parse_json now promptText project)
  = Return (Typed (getMockScore now project))
  \/ exists v,
      snd (analyzeSpec key create parse_json now promptText project)
      = Return (Dynamic v).
Proof.
  rewrite analyzeSpec_unfold.
  destruct (truthy (apiKey key)); simpl negb; cbv iota;
    [| left; reflexivity].
  rewrite snd_tryCatch.
  destruct (analysisBody_result key create parse_json now promptText project)
    as [[e ->] | [v ->]].
  - left. reflexivity.
  - right. exists v. reflexivity.
Qed.

Section ModelPath.

Variable key : option string.
Variable create : Request -> Reply.
Variable parse_json : string -> option value.
Variable now : Z.
Variable promptText : VOPLProject -> string.

Local Abbreviation request := (analysisRequest key promptText).

Lemma normalize_pair (v o : value) :
  snd (normalize now v) = Return o -> normalize now v = ([], Return o).
Proof.
  intro H. pose proof (silent_normalize now v) as Hs. unfold silent in Hs.
  destruct (normalize now v) as [t r]. simpl in *. congruence.
Qed.

(** X12. When the model score is used. With a credential configured,
    [analyzeSpec] returns the object built from the model response exactly
    when the call is resolved with a text block first, the text parses and
    the parsed value is accepted; the request is then the only event (no
    error is logged) and the object is the one that [normalize] builds. In
    every other case the result is that of the heuristic scorer. *)
Theorem analyzeSpec_uses_model_score (project : VOPLProject) (o : value) :
  let run := analyzeSpec key create parse_json now promptText project in
  (snd run = Return (Dynamic o)
   <-> truthy (apiKey key) = true
       /\ exists text rest v,
           create (request project) = Resolved (TextBlock text :: rest)
           /\ parse_json text = Some v
           /\ Accepted v
           /\ snd (normalize now v) = Return o)
  /\ (snd run = Return (Dynamic o) ->
      run = ([NetworkCall (request project)], Return (Dynamic o)))
  /\ ((forall o', snd run <> Return (Dynamic o')) ->
      snd run = Return (Typed (getMockScore now project))).
Proof.
  intro run. subst run.
  assert (forall o0,
             snd (analyzeSpec key create parse_json now promptText project)
             = Return (Dynamic o0) ->
             truthy (apiKey key) = true
             /\ exists text rest v,
                 create (request project) = Resolved (TextBlock text :: rest)
                 /\ parse_json text = Some v
                 /\ snd (normalize now v) = Return o0) as Hinv.
  { intros o0 H. rewrite analyzeSpec_unfold in H.
    destruct (truthy (apiKey key)); [| discriminate H].
    split; [reflexivity |]. cbn [negb] in H. cbv iota in H.
    rewrite snd_tryCatch in H. unfold Props.analysisBody, call in H.
    rewrite snd_bind in H. cbn [snd] in H.
    destruct (create (request project)) as [e | content];
      [discriminate H |].
    rewrite snd_bind in H.
    destruct content as [| [text | ty] rest]; [discriminate H | | discriminate H].
    cbn [textOf nth_error ret snd] in H. rewrite snd_bind in H.
    unfold parse in H. destruct (parse_json text) as [v |] eqn:Ep;
      [| discriminate H].
    cbn [ret snd] in H. rewrite snd_bind in H.
    destruct (snd (normalize now v)) as [o1 | e] eqn:En; [| discriminate H].
    cbn [ret snd] in H. injection H as <-.
    exists text, rest, v. repeat split; assumption. }
  assert (forall text rest v o0,
             truthy (apiKey key) = true ->
             create (request project) = Resolved (TextBlock text :: rest) ->
             parse_json text = Some v ->
             snd (normalize now v) = Return o0 ->
             analyzeSpec key create parse_json now promptText project
             = ([NetworkCall (request project)], Return (Dynamic o0)))
    as Hrun.
  { intros text rest v o0 Hk Hc Hp Hn.
    rewrite analyzeSpec_unfold, Hk. cbn [negb]. cbv iota.
    unfold Props.analysisBody, call. rewrite Hc.
    cbn [bind textOf nth_error ret]. unfold parse. rewrite Hp.
    cbn [bind ret]. rewrite (normalize_pair _ _ Hn). reflexivity. }
  split; [| split].
  - split.
    + intro H. destruct (Hinv o H) as (Hk & text & rest & v & Hc & Hp & Hn).
      split; [exact Hk |]. exists text, rest, v.
      split; [exact Hc |]. split; [exact Hp |]. split; [| exact Hn].
      apply (proj1 (normalize_returns_iff now v)). exists o. exact Hn.
    + intros (Hk & text & rest & v & Hc & Hp & _ & Hn).
      rewrite (Hrun text rest v o Hk Hc Hp Hn). reflexivity.
  - intro H. destruct (Hinv o H) as (Hk & text & rest & v & Hc & Hp & Hn).
    exact (Hrun text rest v o Hk Hc Hp Hn).
  - intros Hnone.
    destruct (analyzeSpec_result_cases key create parse_json now
                promptText project) as [H | [v H]]; [exact H |].
    destruct (Hnone v H).
Qed.

End ModelPath.

Lemma terse_accepted : Accepted MoreSamples.terseResponse.
Proof.
  unfold Accepted, Readable, IssuesOk.
  repeat split; try discriminate.
  right. eexists. split; [reflexivity |].
  repeat constructor; discriminate.
Qed.

Lemma analyzeSpec_uses_model_score_witness :
  exists o,
    analyzeSpec (Some "sk-test") MoreSamples.online MoreSamples.parsesTerse
                0 Samples.plainAnalysisPrompt Samples.emptyProject
    = ([NetworkCall (analysisRequest (Some "sk-test")
                       Samples.plainAnalysisPrompt Samples.emptyProject)],
       Return (Dynamic o)).
Proof.
  destruct (snd (normalize 0 MoreSamples.terseResponse)) as [o | e] eqn:E;
    [| vm_compute in E; discriminate E].
  exists o.
  destruct (analyzeSpec_uses_model_score (Some "sk-test") MoreSamples.online
              MoreSamples.parsesTerse 0 Samples.plainAnalysisPrompt
              Samples.emptyProject o) as (Hiff & Hrun & _).
  apply Hrun, Hiff. split; [reflexivity |].
  exists "{...}", [], MoreSamples.terseResponse.
  split; [reflexivity |]. split; [reflexivity |].
  split; [exact terse_accepted | exact E].
Defined.

Section Fallback.

Variable key : option string.
Variable create : Request -> Reply.
Variable parse_json : string -> option value.
Variable now : Z.
Variable promptText : VOPLProject -> string.

Local Abbreviation request := (analysisRequest key promptText).

Local Abbreviation analysisBody :=
  (Props.analysisBody key create parse_json now promptText).

(** A failure of the external call makes the [try] block throw, after the
    one network call. *)
Lemma analysisBody_failure (project : VOPLProject) :
  ExternalFailure create parse_json (request project) ->
  exists e,
    analysisBody project = ([NetworkCall (request project)], Throw e).
Proof.
  unfold Props.analysisBody, call.
  intros [e H | H | ty rest H | text rest H Hp | text rest v H Hp Hn];
    rewrite H; simpl.
  - exists e. reflexivity.
  - exists TypeError. reflexivity.
  - exists (ErrorMsg "Unexpected response type"). reflexivity.
  - unfold parse. rewrite Hp. exists SyntaxError. reflexivity.
  - unfold parse. rewrite Hp. simpl.
    pose proof (silent_normalize now v) as Hs. unfold silent in Hs.
    destruct (normalize now v) as [t [d | e']] eqn:E; simpl in Hs.
    + exfalso. apply Hn. apply (proj1 (normalize_returns_iff now v)).
      exists d. rewrite E. reflexivity.
    + subst t. exists e'. reflexivity.
Qed.

(** A response that the adapter accepts makes the [try] block return the
    object built from it, after the one network call. *)
Lemma analysisBody_success (project : VOPLProject)
    (text : string) (rest : list ContentBlock) (v : value) :
  create (request project) = Resolved (TextBlock text :: rest) ->
  parse_json text = Some v ->
  Accepted v ->
  exists o,
    snd (normalize now v) = Return o
    /\ analysisBody project
       = ([NetworkCall (request project)], Return (Dynamic o)).
Proof.
  intros Hc Hp Ha.
  apply (proj2 (normalize_returns_iff now v)) in Ha. destruct Ha as [o Ho].
  exists o. split; [exact Ho |]. unfold Props.analysisBody, call. rewrite Hc.
  cbn [bind textOf nth_error ret]. unfold parse. rewrite Hp.
  cbn [bind ret]. rewrite (normalize_pair now v o Ho). reflexivity.
Qed.

(** Either the external call fails, or it delivers a response that the
    adapter accepts. *)
Lemma failure_or_accepted (project : VOPLProject) :
  ExternalFailure create parse_json (request project)
  \/ exists text rest v,
      create (request project) = Resolved (TextBlock text :: rest)
      /\ parse_json text = Some v
      /\ Accepted v.
Proof.
  destruct (create (request project)) as [e | [| [text | ty] rest]] eqn:Hc.
  - left. exact (transport_error _ _ _ e Hc).
  - left. exact (empty_content _ _ _ Hc).
  - destruct (parse_json text) as [v |] eqn:Hp.
    + destruct (snd (normalize now v)) as [o | e] eqn:Hn.
      * right. exists text, rest, v.
        split; [reflexivity | split; [exact Hp |]].
        apply (proj1 (normalize_returns_iff now v)). exists o. exact Hn.
      * left. apply (unreadable_json _ _ _ text rest v Hc Hp).
        intro Ha. apply (proj2 (normalize_returns_iff now v)) in Ha.
        destruct Ha as [o Ho]. congruence.
    + left. exact (unparseable_json _ _ _ text rest Hc Hp).
  - left. exact (non_text_content _ _ _ ty rest Hc).
Qed.

(** C3, as amended. [analyzeSpec] always returns a score: its promise is
    never rejected. Without a configured credential it returns the result
    of the heuristic scorer at once, with no event at all, hence no network
    attempt. With a credential, when the external call fails (the request
    is rejected, the response has no text block first, the text is not
    JSON, or the parsed value lacks one of the four dimension members or
    has an issues member that cannot be mapped over), the failure is
    caught, logged, and the result of the heuristic scorer on the same
    graph is returned. Nothing else counts as a failure: in every other
    case the call was resolved with a text block first, the text parsed,
    and the object built from the parsed value is returned after the one
    request, with no error logged; its overall score is whatever the
    response gives as overall, undefined when it gives none. *)
Theorem analyzeSpec_never_throws (project : VOPLProject) :
  let run := analyzeSpec key create parse_json now promptText project in
  let mock := Typed (getMockScore now project) in
  (exists s, snd run = Return s)
  /\ (snd run = Return mock \/ exists v, snd run = Return (Dynamic v))
  /\ (truthy (apiKey key) = false -> run = ([], Return mock))
  /\ (truthy (apiKey key) = true ->
      ExternalFailure create parse_json (request project) ->
      exists e,
        run = ([ NetworkCall (request project);
                 ConsoleError "Spec analysis failed:" e ],
               Return mock))
  /\ (truthy (apiKey key) = true ->
      ~ ExternalFailure create parse_json (request project) ->
      exists text rest v o,
        create (request project) = Resolved (TextBlock text :: rest)
        /\ parse_json text = Some v
        /\ run = ([NetworkCall (request project)], Return (Dynamic o))
        /\ member o "overall" = member v "overall"
        /\ member o "lastUpdated" = VNum (inject_Z now)).
Proof.
  intros run mock. subst run mock.
  pose proof (analyzeSpec_result_cases key create parse_json now
                promptText project) as Hcases.
  split; [| split; [exact Hcases | split; [| split]]].
  - destruct Hcases as [H | [v H]]; rewrite H; eexists; reflexivity.
  - intro Hkey. rewrite analyzeSpec_unfold, Hkey. reflexivity.
  - intros Hkey Hfail. rewrite analyzeSpec_unfold, Hkey. simpl negb. cbv iota.
    destruct (analysisBody_failure project Hfail) as [e ->].
    exists e. reflexivity.
  - intros Hkey Hnot. rewrite analyzeSpec_unfold, Hkey. simpl negb. cbv iota.
    destruct (failure_or_accepted project)
      as [Hfail | (text & rest & v & Hc & Hp & Ha)]; [destruct (Hnot Hfail) |].
    destruct (analysisBody_success project text rest v Hc Hp Ha)
      as (o & Ho & ->).
    destruct (normalize_members now v o Ho) as (Hoverall & Htime & _).
    exists text, rest, v, o. repeat split; assumption.
Qed.

End Fallback.

Lemma analyzeSpec_never_throws_witness :
  analyzeSpec None Samples.offline Samples.noJson 0
              Samples.plainAnalysisPrompt Samples.emptyProject
  = ([], Return (Typed (getMockScore 0 Samples.emptyProject)))
  /\ (exists e,
         analyzeSpec (Some "sk-test") Samples.offline Samples.noJson 0
                     Samples.plainAnalysisPrompt Samples.emptyProject
         = ([ NetworkCall (analysisRequest (Some "sk-test")
                             Samples.plainAnalysisPrompt
                             Samples.emptyProject);
              ConsoleError "Spec analysis failed:" e ],
            Return (Typed (getMockScore 0 Samples.emptyProject))))
  /\ (exists e,
         analyzeSpec (Some "sk-test") MoreSamples.online
                     MoreSamples.parsesScoreOnly 0
                     Samples.plainAnalysisPrompt Samples.emptyProject
         = ([ NetworkCall (analysisRequest (Some "sk-test")
                             Samples.plainAnalysisPrompt
                             Samples.emptyProject);
              ConsoleError "Spec analysis failed:" e ],
            Return (Typed (getMockScore 0 Samples.emptyProject)))).
Proof.
  split; [| split].
  - apply (analyzeSpec_never_throws None Samples.offline Samples.noJson 0
             Samples.plainAnalysisPrompt Samples.emptyProject).
    reflexivity.
  - apply (analyzeSpec_never_throws (Some "sk-test") Samples.offline
             Samples.noJson 0 Samples.plainAnalysisPrompt
             Samples.emptyProject).
    + reflexivity.
    + apply (transport_error _ _ _ TransportError). reflexivity.
  - apply (analyzeSpec_never_throws (Some "sk-test") MoreSamples.online
             MoreSamples.parsesScoreOnly 0 Samples.plainAnalysisPrompt
             Samples.emptyProject).
    + reflexivity.
    + apply (unreadable_json _ _ _ "{...}" [] MoreSamples.scoreOnly);
        [reflexivity | reflexivity |].
      intros [[H _] _]. apply H. reflexivity.
Defined.

(** C3, the claim as it was stated fails: a response that parses but
    lacks the overall score is one of the failures that the specification
    lists (a required member is missing), yet [analyzeSpec] does not fall
    back to the heuristic scorer: it returns the object built from the
    response, whose overall score is undefined. *)
Lemma analyzeSpec_keeps_incomplete_response :
  ListedFailure MoreSamples.online MoreSamples.parsesTerse
                (analysisRequest (Some "sk-test") Samples.plainAnalysisPrompt
                                 Samples.emptyProject)
  /\ snd (analyzeSpec (Some "sk-test") MoreSamples.online
                      MoreSamples.parsesTerse 0 Samples.plainAnalysisPrompt
                      Samples.emptyProject)
     <> Return (Typed (getMockScore 0 Samples.emptyProject))
  /\ exists o,
      snd (analyzeSpec (Some "sk-test") MoreSamples.online
                       MoreSamples.parsesTerse 0 Samples.plainAnalysisPrompt
                       Samples.emptyProject)
      = Return (Dynamic o)
      /\ member o "overall" = VUndefined.
Proof.
  split; [| split].
  - apply (listed_missing_member _ _ _ "{...}" [] MoreSamples.terseResponse
                                 "overall"); try reflexivity.
    left. reflexivity.
  - vm_compute. discriminate.
  - eexists. split; vm_compute; reflexivity.
Qed.

(** X13. The defaults of a normalised issue. Whatever a readable issue of
    the response holds, the issue built from it has a truthy severity,
    dimension and message: a member that is absent or falsy is replaced
    (by "warning", "completeness" and "Unknown issue"), a truthy one is
    kept as it is; its node and its field are truthy or undefined, never
    null or empty. *)
Theorem normalizeIssue_defaults (issue o : value)
    (Hbuilt : snd (normalizeIssue issue) = Return o) :
  let kept k fallback :=
    member o k = if truthy_value (member issue k)
                 then member issue k else fallback in
  kept "severity" (VStr "warning")
  /\ kept "dimension" (VStr "completeness")
  /\ kept "message" (VStr "Unknown issue")
  /\ kept "nodeId" VUndefined
  /\ kept "field" VUndefined
  /\ truthy_value (member o "severity") = true
  /\ truthy_value (member o "dimension") = true
  /\ truthy_value (member o "message") = true
  /\ (member o "nodeId" = VUndefined
      \/ truthy_value (member o "nodeId") = true)
  /\ (member o "field" = VUndefined
      \/ truthy_value (member o "field") = true).
Proof.
  intro kept. subst kept. cbv beta.
  assert (Readable issue) as Hr
    by (apply normalizeIssue_returns; exists o; exact Hbuilt).
  unfold normalizeIssue in Hbuilt.
  rewrite !(get_member issue _ Hr) in Hbuilt.
  repeat (rewrite snd_bind in Hbuilt; cbn [lift snd] in Hbuilt).
  cbn [ret snd] in Hbuilt. injection Hbuilt as <-.
  cbn [member assoc String.eqb Ascii.eqb Bool.eqb]. unfold vor.
  destruct (truthy_value (member issue "severity")) eqn:E1;
    destruct (truthy_value (member issue "dimension")) eqn:E2;
    destruct (truthy_value (member issue "message")) eqn:E3;
    destruct (truthy_value (member issue "nodeId")) eqn:E4;
    destruct (truthy_value (member issue "field")) eqn:E5;
    repeat split; auto.
Qed.

Lemma normalizeIssue_defaults_witness :
  member (VObj [ ("severity", VStr "warning");
                 ("dimension", VStr "completeness");
                 ("nodeId", VUndefined);
                 ("field", VUndefined);
                 ("message", VStr "Too vague") ]) "severity"
  = VStr "warning".
Proof.
  apply (normalizeIssue_defaults
           (VObj [("message", VStr "Too vague")])
           (VObj [ ("severity", VStr "warning");
                   ("dimension", VStr "completeness");
                   ("nodeId", VUndefined);
                   ("field", VUndefined);
                   ("message", VStr "Too vague") ])).
  reflexivity.
Defined.

(** *** [autogenField] and the mock generator *)

Lemma mock_field (context : AutogenContext) :
  res_field (getMockAutogenResult context) = ctx_field context.
Proof.
  unfold getMockAutogenResult.
  destruct (findNode _ _); [destruct (ctx_field context) |]; reflexivity.
Qed.


Lemma found_node (p : VOPLProject) (id : string) (n : VOPLNode) :
  findNode p id = Some n -> In n (nodes p) /\ node_id n = id.
Proof.
  unfold findNode. intro H. apply find_some in H.
  destruct H as [Hin Heq]. apply String.eqb_eq in Heq. split; assumption.
Qed.

(** X15. The mock generator succeeds exactly when the requested node is
    in the graph. When it succeeds it reports no error and its value has
    the shape that the field requires: a string for intent and behavior,
    ports for inputs and outputs, examples for examples, strings for
    constraints. When the node is missing the result says so and carries
    the empty string. *)
Theorem getMockAutogenResult_shape (context : AutogenContext) :
  let r := getMockAutogenResult context in
  (res_success r = true
   <-> exists n, In n (nodes (ctx_project context))
                 /\ node_id n = ctx_nodeId context)
  /\ (res_success r = true ->
      ShapeMatches (ctx_field context) (res_value r)
      /\ res_error r = None)
  /\ (res_success r = false -> r = notFound (ctx_field context))
  /\ res_field r = ctx_field context.
Proof.
  intro r. subst r.
  split; [| split; [| split; [| apply mock_field]]].
  - unfold getMockAutogenResult.
    destruct (findNode _ _) as [n |] eqn:E.
    + apply found_node in E.
      split; [intros _; exists n; exact E |].
      intros _. destruct (ctx_field context); reflexivity.
    + apply findNode_None in E.
      split; [intro C; discriminate C |].
      intros (n & Hn & Hid). destruct (E n Hn Hid).
  - unfold getMockAutogenResult.
    destruct (findNode _ _); [| intro C; discriminate C].
    intros _. destruct (ctx_field context); split; exact I || reflexivity.
  - unfold getMockAutogenResult.
    destruct (findNode _ _); [| reflexivity].
    intro C. destruct (ctx_field context); discriminate C.
Qed.

Lemma getMockAutogenResult_shape_witness :
  ShapeMatches f_inputs
    (res_value (getMockAutogenResult
                  (mkAutogenContext Samples.registration "process-1"
                                    f_inputs "")))
  /\ getMockAutogenResult Samples.staleContext = notFound f_behavior.
Proof.
  split.
  - apply (getMockAutogenResult_shape
             (mkAutogenContext Samples.registration "process-1" f_inputs "")).
    reflexivity.
  - apply (getMockAutogenResult_shape Samples.staleContext). reflexivity.
Defined.


Lemma port_eta (p : PortDefinition) :
  {| port_name := port_name p;
     port_description := port_description p;
     port_shape := port_shape p |} = p.
Proof. destruct p. reflexivity. Qed.

Lemma append_nonempty (a b : string) : a <> "" -> (a ++ b)%string <> "".
Proof. destruct a; [congruence | discriminate]. Qed.

Section MockPorts.

Variables (shape describe : string) (fallback : PortDefinition).
Hypothesis shape_set : shape <> "" /\ shape <> "unknown".
Hypothesis describe_set : describe <> "".
Hypothesis fallback_set :
  port_shape fallback <> "" /\ port_shape fallback <> "unknown"
  /\ port_description fallback <> "".

Lemma mockPorts_each (ports : list PortDefinition) (q : PortDefinition) :
  In q (mockPorts ports shape describe fallback) ->
  port_shape q <> "unknown" /\ port_description q <> "".
Proof.
  unfold mockPorts. destruct (0 <? List.length ports)%nat.
  - intro H. apply in_map_iff in H. destruct H as (p & <- & _).
    cbn [port_shape port_description]. split.
    + destruct (String.eqb (port_shape p) "unknown") eqn:E;
        [apply shape_set | apply String.eqb_neq, E].
    + unfold or_else. destruct (truthy (port_description p)) eqn:E;
        [apply truthy_true_iff, E | apply append_nonempty, describe_set].
  - intros [<- | []]. split; apply fallback_set.
Qed.

Lemma mockPorts_fixed (ports : list PortDefinition) :
  ports <> [] ->
  (forall q, In q ports ->
             port_shape q <> "unknown" /\ port_description q <> "") ->
  mockPorts ports shape describe fallback = ports.
Proof.
  intros Hne Hall. unfold mockPorts.
  destruct ports as [|p l]; [congruence |]. cbn [List.length Nat.ltb Nat.leb].
  rewrite <- (map_id (p :: l)) at 2. apply map_ext_in.
  intros q Hq. destruct (Hall q Hq) as [Hs Hd].
  apply String.eqb_neq in Hs. apply truthy_true_iff in Hd.
  unfold or_else. rewrite Hs, Hd. apply port_eta.
Qed.

Lemma mockPorts_nonempty (ports : list PortDefinition) :
  mockPorts ports shape describe fallback <> [].
Proof.
  unfold mockPorts. destruct ports; simpl; discriminate.
Qed.

Lemma mockPorts_names (ports : list PortDefinition) :
  ports <> [] ->
  map port_name (mockPorts ports shape describe fallback)
  = map port_name ports.
Proof.
  intro Hne. unfold mockPorts. destruct ports as [|p l]; [congruence |].
  cbn [List.length Nat.ltb Nat.leb]. rewrite map_map. reflexivity.
Qed.

Lemma mockPorts_defined (ports : list PortDefinition) :
  HasDefinedShape (mockPorts ports shape describe fallback)
  <-> ports = [] \/ exists p, In p ports /\ port_shape p <> "".
Proof.
  unfold HasDefinedShape, mockPorts. destruct ports as [|p0 l].
  - cbn [List.length Nat.ltb Nat.leb]. split; [auto |].
    intros _. exists fallback. split; [left; reflexivity |].
    split; apply fallback_set.
  - cbn [List.length Nat.ltb Nat.leb]. split.
    + intros (q & Hq & Hs & Hu). right.
      apply in_map_iff in Hq. destruct Hq as (p & <- & Hp).
      exists p. split; [exact Hp |]. cbn [port_shape] in Hs.
      destruct (String.eqb (port_shape p) "unknown") eqn:E;
        [apply String.eqb_eq in E; rewrite E; discriminate | exact Hs].
    + intros [C | (p & Hp & Hs)]; [discriminate C |].
      eexists. split; [apply in_map; exact Hp |].
      cbn [port_shape].
      destruct (String.eqb (port_shape p) "unknown") eqn:E;
        [exact shape_set | split; [exact Hs | apply String.eqb_neq, E]].
Qed.

End MockPorts.

Lemma inputs_constants :
  ("{ data: unknown }" <> "" /\ "{ data: unknown }" <> "unknown")
  /\ "Input data for " <> ""
  /\ (port_shape (mkPort "input" "Primary input data" "{ data: unknown }")
       <> ""
      /\ port_shape (mkPort "input" "Primary input data" "{ data: unknown }")
         <> "unknown"
      /\ port_description
           (mkPort "input" "Primary input data" "{ data: unknown }") <> "").
Proof. repeat split; discriminate. Qed.

Lemma outputs_constants :
  ("{ result: unknown }" <> "" /\ "{ result: unknown }" <> "unknown")
  /\ "Output data from " <> ""
  /\ (port_shape (mkPort "output" "Primary output data"
                          "{ result: unknown }") <> ""
      /\ port_shape (mkPort "output" "Primary output data"
                            "{ result: unknown }") <> "unknown"
      /\ port_description
           (mkPort "output" "Primary output data" "{ result: unknown }")
         <> "").
Proof. repeat split; discriminate. Qed.

(** X16. The ports that the mock generator proposes. For the inputs and
    for the outputs alike, the proposal is never empty, none of its ports
    has the shape "unknown" or an empty description, and when the node
    has ports their names are kept in order. Proposing again from a
    proposal changes nothing. The proposal has a port with a defined
    shape, and so earns the completeness credit of the scorer, exactly
    when the node had no port or had a port with a non-empty shape: ports
    whose shape is the empty string are left without a shape. *)
Theorem mock_ports_are_defined (ports : list PortDefinition) :
  (mockInputs ports <> [] /\ mockOutputs ports <> [])
  /\ (forall q, In q (mockInputs ports) \/ In q (mockOutputs ports) ->
                port_shape q <> "unknown" /\ port_description q <> "")
  /\ (ports <> [] ->
      map port_name (mockInputs ports) = map port_name ports
      /\ map port_name (mockOutputs ports) = map port_name ports)
  /\ (mockInputs (mockInputs ports) = mockInputs ports
      /\ mockOutputs (mockOutputs ports) = mockOutputs ports)
  /\ (HasDefinedShape (mockInputs ports)
      <-> ports = [] \/ exists p, In p ports /\ port_shape p <> "")
  /\ (HasDefinedShape (mockOutputs ports)
      <-> ports = [] \/ exists p, In p ports /\ port_shape p <> "").
Proof.
  destruct inputs_constants as (Hi1 & Hi2 & Hi3).
  destruct outputs_constants as (Ho1 & Ho2 & Ho3).
  unfold mockInputs, mockOutputs.
  split; [split; apply mockPorts_nonempty |].
  split.
  { intros q [H | H];
      [apply (mockPorts_each _ _ _ Hi1 Hi2 Hi3 _ _ H)
      | apply (mockPorts_each _ _ _ Ho1 Ho2 Ho3 _ _ H)]. }
  split; [intro Hne; split; apply mockPorts_names, Hne |].
  split.
  { split; apply mockPorts_fixed; try apply mockPorts_nonempty.
    - apply (mockPorts_each _ _ _ Hi1 Hi2 Hi3).
    - apply (mockPorts_each _ _ _ Ho1 Ho2 Ho3). }
  split; [apply (mockPorts_defined _ _ _ Hi1 Hi3)
         | apply (mockPorts_defined _ _ _ Ho1 Ho3)].
Qed.

Lemma mock_ports_are_defined_witness :
  map port_name (mockInputs (inputs (data Samples.validateInput)))
  = ["body"].
Proof.
  apply (mock_ports_are_defined (inputs (data Samples.validateInput))).
  discriminate.
Defined.

(** The value that the mock generator returns for inputs and outputs is
    the proposal above. *)
Lemma mock_value_inputs (context : AutogenContext) (n : VOPLNode) :
  findNode (ctx_project context) (ctx_nodeId context) = Some n ->
  (ctx_field context = f_inputs ->
   res_value (getMockAutogenResult context)
   = APorts (mockInputs (inputs (data n))))
  /\ (ctx_field context = f_outputs ->
      res_value (getMockAutogenResult context)
      = APorts (mockOutputs (outputs (data n)))).
Proof.
  intro H. unfold getMockAutogenResult. rewrite H.
  split; intros ->; reflexivity.
Qed.

End AdapterLaws.

(** ** More about the inference of the field *)

Module InferenceLaws.

Import JS SpecAnalysis Props JSFacts ScorerProofs InferenceProofs.
Import AdapterProofs AdapterProps ScorerLaws AdapterLaws.
Local Open Scope list_scope.

(** The result of the keyword rules is a field kind or none. *)
Lemma keyword_rules_safe (issue : SpecIssue) :
  truthy (match field issue with Some f => f | None => "" end) = false ->
  forall k, inferFieldFromIssue issue <> IsPrototypeMember k.
Proof.
  intros H k. unfold inferFieldFromIssue. rewrite H.
  repeat match goal with
         | |- context [if ?b then _ else _] => destruct b
         end; try discriminate.
  destruct (dimension issue); discriminate.
Qed.

Lemma prototype_keys_not_fields (k : string) :
  In k Object_prototype_keys -> assoc k fieldMap = None /\ truthy k = true.
Proof.
  intro H. simpl in H.
  repeat (destruct H as [<- | H]; [split; reflexivity |]).
  contradiction.
Qed.

Lemma inferred_cases (r : InferredField) :
  (exists f, r = IsField f) \/ r = IsNull
  \/ exists k, r = IsPrototypeMember k.
Proof. destruct r; eauto. Qed.

(** X17. When the inherited member escapes. [inferFieldFromIssue] returns
    a member of the object prototype exactly when the explicit field of
    the issue is one of the inherited names; in every other case it
    returns a field kind or none. In particular, for every issue that the
    heuristic scorer emits the answer is a field kind or none, and for
    its intent warnings it is the field intent. *)
Theorem inferFieldFromIssue_escape (issue : SpecIssue) :
  (forall k, inferFieldFromIssue issue = IsPrototypeMember k
             <-> field issue = Some k /\ In k Object_prototype_keys)
  /\ (forall now p,
         In issue (issues (getMockScore now p)) ->
         (exists f, inferFieldFromIssue issue = IsField f)
         \/ inferFieldFromIssue issue = IsNull)
  /\ (forall now p,
         In issue (issues (getMockScore now p)) ->
         dimension issue = ambiguity ->
         inferFieldFromIssue issue = IsField f_intent).
Proof.
  assert (forall k, inferFieldFromIssue issue = IsPrototypeMember k
                    <-> field issue = Some k /\ In k Object_prototype_keys)
    as Hescape.
  { intro k. split.
    - intro H.
      destruct (truthy (match field issue with Some f => f | None => "" end))
        eqn:T; [| destruct (keyword_rules_safe issue T k H)].
      unfold inferFieldFromIssue in H. rewrite T in H.
      destruct (field issue) as [fname |]; [| discriminate T].
      unfold lookup in H. destruct (assoc fname fieldMap); [discriminate H |].
      destruct (existsb (String.eqb fname) Object_prototype_keys) eqn:E;
        [| discriminate H].
      injection H as <-. split; [reflexivity |].
      apply existsb_exists in E. destruct E as (x & Hx & Heq).
      apply String.eqb_eq in Heq. subst x. exact Hx.
    - intros [Hf Hk]. destruct (prototype_keys_not_fields k Hk) as [Ha Ht].
      unfold inferFieldFromIssue. rewrite Hf, Ht. unfold lookup. rewrite Ha.
      replace (existsb (String.eqb k) Object_prototype_keys) with true;
        [reflexivity |].
      symmetry. apply existsb_exists. exists k.
      split; [exact Hk | apply String.eqb_refl]. }
  assert (forall now p, In issue (issues (getMockScore now p)) ->
                        field issue = None
                        \/ (field issue = Some "intent"
                            /\ dimension issue = ambiguity)) as Hfield.
  { intros now p H. rewrite getMockScore_issues in H.
    apply in_app_or in H. destruct H as [H | H];
      [apply in_app_or in H; destruct H as [H | H] |].
    - destruct (In_completeness_issue _ _ H) as [-> | [-> | (n & _ & Hn)]];
        auto.
      unfold intentIssue in Hn. destruct (_ || _) in Hn; [| contradiction].
      destruct Hn as [<- | []]. right. split; reflexivity.
    - destruct (In_disconnected _ _ H) as (n & _ & ->). left. reflexivity.
    - unfold structurePass in H.
      destruct (negb _ && _); destruct (negb _ && _); simpl in H;
        repeat destruct H as [H | H]; try contradiction; subst issue;
        left; reflexivity. }
  split; [exact Hescape | split].
  - intros now p H.
    destruct (inferred_cases (inferFieldFromIssue issue))
      as [Hr | [Hr | [k E]]]; [left; exact Hr | right; exact Hr |].
    apply Hescape in E. destruct E as [Hf Hk].
    destruct (Hfield now p H) as [C | [C _]]; rewrite C in Hf;
      [discriminate Hf |].
    injection Hf as <-. simpl in Hk.
    repeat (destruct Hk as [C' | Hk]; [discriminate C' |]). contradiction.
  - intros now p H Hd.
    destruct (Hfield now p H) as [Hf | [Hf _]].
    + unfold inferFieldFromIssue. rewrite Hf. cbn [truthy].
      exfalso. rewrite getMockScore_issues in H.
      apply in_app_or in H. destruct H as [H | H];
        [apply in_app_or in H; destruct H as [H | H] |].
      * destruct (In_completeness_issue _ _ H)
          as [-> | [-> | (n & _ & Hn)]]; try discriminate Hd.
        unfold intentIssue in Hn. destruct (_ || _) in Hn; [| contradiction].
        destruct Hn as [<- | []]. discriminate Hf.
      * destruct (In_disconnected _ _ H) as (n & _ & ->). discriminate Hd.
      * destruct (In_structurePass _ _ H) as [_ C]. congruence.
    + apply (inferFieldFromIssue_explicit_field issue "intent");
        [exact Hf | reflexivity].
Qed.

Lemma inferFieldFromIssue_escape_witness :
  (exists f,
      inferFieldFromIssue (disconnectedIssue (Samples.newProcess "c"))
      = IsField f)
  \/ inferFieldFromIssue (disconnectedIssue (Samples.newProcess "c"))
     = IsNull.
Proof.
  destruct (inferFieldFromIssue_escape
              (disconnectedIssue (Samples.newProcess "c")))
    as (_ & Hsafe & _).
  apply (Hsafe 0 Samples.threeNodes). vm_compute. tauto.
Defined.

Lemma lower_char_idempotent (c : ascii) :
  lower_char (lower_char c) = lower_char c.
Proof.
  destruct c as [b0 b1 b2 b3 b4 b5 b6 b7].
  destruct b0, b1, b2, b3, b4, b5, b6, b7; reflexivity.
Qed.

Lemma toLowerCase_idempotent (s : string) :
  toLowerCase (toLowerCase s) = toLowerCase s.
Proof.
  induction s as [|c s IH]; [reflexivity |].
  simpl. rewrite lower_char_idempotent, IH. reflexivity.
Qed.

(** X18. The keyword rules of [inferFieldFromIssue], for an issue without
    explicit field. A message that mentions the intent or the purpose is
    about the intent, whatever else it mentions. A message that mentions
    both input and output is never taken to be about the inputs or about
    the outputs. The rules do not distinguish upper and lower case: two
    issues of the same dimension whose messages agree up to case get the
    same answer, and so does the issue with its message in lower case. *)
Theorem inferFieldFromIssue_keywords (issue : SpecIssue)
    (Hnone : field issue = None) :
  let m := toLowerCase (message issue) in
  (Occurs "intent" m \/ Occurs "purpose" m ->
   inferFieldFromIssue issue = IsField f_intent)
  /\ (Occurs "input" m -> Occurs "output" m ->
      inferFieldFromIssue issue <> IsField f_inputs
      /\ inferFieldFromIssue issue <> IsField f_outputs)
  /\ (forall other,
         field other = None ->
         dimension other = dimension issue ->
         toLowerCase (message other) = m ->
         inferFieldFromIssue other = inferFieldFromIssue issue)
  /\ inferFieldFromIssue (withMessage issue m) = inferFieldFromIssue issue.
Proof.
  intro m. subst m.
  assert (forall other,
             field other = None ->
             dimension other = dimension issue ->
             toLowerCase (message other) = toLowerCase (message issue) ->
             inferFieldFromIssue other = inferFieldFromIssue issue) as Hsame.
  { intros other Hf Hd Hm. unfold inferFieldFromIssue.
    rewrite Hf, Hnone, Hd, Hm. reflexivity. }
  split; [| split; [| split]].
  - intro H. unfold inferFieldFromIssue. rewrite Hnone. cbn [truthy].
    replace (includes (toLowerCase (message issue)) "intent"
             || includes (toLowerCase (message issue)) "purpose")
      with true; [reflexivity |].
    symmetry. apply orb_true_iff.
    destruct H as [H | H]; [left | right]; apply includes_Occurs, H.
  - intros Hin Hout. apply includes_Occurs in Hin, Hout.
    unfold inferFieldFromIssue. rewrite Hnone, Hin, Hout. cbn [truthy].
    cbn [negb andb].
    repeat match goal with
           | |- context [if ?b then _ else _] => destruct b
           end; split; try discriminate;
      destruct (dimension issue); discriminate.
  - exact Hsame.
  - apply Hsame; [exact Hnone | reflexivity |].
    apply toLowerCase_idempotent.
Qed.

Lemma inferFieldFromIssue_keywords_witness :
  inferFieldFromIssue
    (mkIssue info consistency None None None
             "The PURPOSE of the input and output is unclear.")
  = IsField f_intent.
Proof.
  destruct (inferFieldFromIssue_keywords
              (mkIssue info consistency None None None
                       "The PURPOSE of the input and output is unclear.")
              eq_refl) as (Hintent & _).
  apply Hintent. right. apply includes_Occurs. reflexivity.
Defined.

(** *** Suggestions *)

Lemma inferFieldFromSuggestion_unfold (suggestion : string)
    (p : VOPLProject) :
  inferFieldFromSuggestion suggestion p
  = match match find (fun node => includes suggestion (name (data node)))
                     (nodes p) with
          | Some node => Some node
          | None => nth_error (nodes p) 0
          end with
    | None => None
    | Some t => Some (suggestionField suggestion, node_id t)
    end.
Proof.
  unfold inferFieldFromSuggestion, suggestionField.
  destruct (match find _ (nodes p) with
            | Some node => Some node
            | None => nth_error (nodes p) 0
            end); [| reflexivity].
  repeat match goal with
         | |- context [if ?b then _ else _] => destruct b
         end; reflexivity.
Qed.

(** X19. What a suggestion is routed to. When [inferFieldFromSuggestion]
    answers, the node it names is a node of the graph, so that the mock
    generator succeeds for the answer; the field it names depends on the
    text of the suggestion alone, not on the graph. The three suggestions
    of the heuristic scorer are routed to the behavior, the inputs and the
    examples, in this order. *)
Theorem suggestion_routing
    (suggestion : string) (p : VOPLProject) (f : AutogenFieldType)
    (id : string)
    (Hsome : inferFieldFromSuggestion suggestion p = Some (f, id)) :
  (exists n, In n (nodes p) /\ node_id n = id)
  /\ res_success (getMockAutogenResult
                    (mkAutogenContext p id f suggestion)) = true
  /\ (forall q, nodes q <> [] ->
                exists id', inferFieldFromSuggestion suggestion q
                            = Some (f, id'))
  /\ (forall now,
         map (fun s => option_map fst (inferFieldFromSuggestion s p))
             (suggestions (getMockScore now p))
         = [Some f_behavior; Some f_inputs; Some f_examples]).
Proof.
  rewrite inferFieldFromSuggestion_unfold in Hsome.
  assert (exists n, In n (nodes p) /\ node_id n = id
                    /\ f = suggestionField suggestion) as (n & Hn & Hid & Hf).
  { destruct (find _ (nodes p)) as [t |] eqn:E.
    - injection Hsome as <- <-. apply find_some in E.
      exists t. repeat split. apply E.
    - destruct (nodes p) as [|t l]; [discriminate Hsome |].
      injection Hsome as <- <-. exists t. repeat split. left. reflexivity. }
  assert (forall s, exists t,
             match find (fun node => includes s (name (data node)))
                        (nodes p) with
             | Some node => Some node
             | None => nth_error (nodes p) 0
             end = Some t) as Htarget.
  { clear Hsome. intro s.
    destruct (find (fun node => includes s (name (data node))) (nodes p))
      as [t |]; [exists t; reflexivity |].
    destruct (nodes p) as [|t l]; [destruct Hn | exists t; reflexivity]. }
  split; [exists n; split; assumption |].
  split.
  { unfold getMockAutogenResult. cbn [ctx_project ctx_nodeId ctx_field].
    destruct (findNode p id) as [t |] eqn:E.
    - destruct f; reflexivity.
    - apply findNode_None in E. destruct (E n Hn Hid). }
  split.
  { intros q Hq. rewrite inferFieldFromSuggestion_unfold.
    destruct (find _ (nodes q)) as [t |].
    - exists (node_id t). rewrite Hf. reflexivity.
    - destruct (nodes q) as [|t l]; [congruence |].
      exists (node_id t). rewrite Hf. reflexivity. }
  intro now.
  assert (suggestions (getMockScore now p) = firstn 3 allSuggestions) as ->.
  { unfold getMockScore.
    destruct (completenessPass p), (consistencyPass p). reflexivity. }
  cbn [firstn allSuggestions map].
  rewrite !inferFieldFromSuggestion_unfold.
  destruct (Htarget "Add detailed behavior descriptions with error handling to each node.")
    as [t1 ->].
  destruct (Htarget "Define explicit data shapes (types) for all inputs and outputs.")
    as [t2 ->].
  destruct (Htarget "Include examples for edge cases, not just happy paths.")
    as [t3 ->].
  reflexivity.
Qed.

Lemma suggestion_routing_witness :
  res_success (getMockAutogenResult
                 (mkAutogenContext Samples.registration "trigger-1"
                                   f_behavior behaviorSuggestion)) = true.
Proof.
  apply (suggestion_routing behaviorSuggestion Samples.registration
           f_behavior "trigger-1").
  reflexivity.
Defined.

End InferenceLaws.

(** ** The completeness badge *)

Module BadgeLaws.

Import JS SpecAnalysis DoubleFacts ScorerProofs ScorerLaws BaseNode.
Local Open Scope list_scope.

Lemma ratio_unit (a b : nat) :
  (a <= b)%nat -> (0 < b)%nat ->
  (0 <= fdiv (nat_to_Q a) (nat_to_Q b) <= 1)%Q.
Proof.
  intros H Hb. apply fdiv_unit; q_of_z.
Qed.

Lemma ratio_half (a b : nat) :
  (a <= 1)%nat -> (2 <= b)%nat ->
  (0 <= fdiv (nat_to_Q a) (nat_to_Q b) <= 1 # 2)%Q.
Proof.
  intros Ha Hb. split; [apply (ratio_unit a b); lia |].
  apply (Qle_trans _ (double (1 # 2))); [| q_eval].
  apply double_monotone. apply Qle_shift_div_r; [q_of_z |].
  assert (nat_to_Q a <= 1)%Q by (change 1%Q with (inject_Z 1); q_of_z).
  assert (2 <= nat_to_Q b)%Q by (change 2%Q with (inject_Z 2); q_of_z).
  lra.
Qed.

Lemma Math_min_bounds (x : Q) :
  (0 <= x)%Q -> (0 <= Math_min 25 x <= 25)%Q.
Proof.
  intro H. unfold Math_min. destruct (Qle_bool 25 x) eqn:E.
  - split; lra.
  - split; [exact H |].
    destruct (Qlt_le_dec x 25) as [Hlt | Hge]; [lra |].
    apply Qle_bool_iff in Hge. congruence.
Qed.

(** One step of the running score: a term between 0 and [T] is added to a
    score between 0 and [S]. *)
Lemma step_add (s t S T U : Q) :
  (0 <= s <= S)%Q -> (0 <= t <= T)%Q -> (fadd S T <= U)%Q ->
  (0 <= fadd s t <= U)%Q.
Proof.
  intros [Hs0 Hs1] [Ht0 Ht1] HU. split.
  - apply fadd_nonneg; assumption.
  - apply (Qle_trans _ (fadd S T)); [| exact HU].
    apply fadd_monotone; assumption.
Qed.

Lemma step_if (b : bool) (x y U : Q) :
  (0 <= x <= U)%Q -> (0 <= y <= U)%Q -> (0 <= (if b then x else y) <= U)%Q.
Proof. intros Hx Hy. destruct b; assumption. Qed.

Lemma step_keep (s S U : Q) : (0 <= s <= S)%Q -> (S <= U)%Q -> (0 <= s <= U)%Q.
Proof. intros [H0 H1] HU. split; lra. Qed.

(** A ratio between 0 and [R], multiplied by 15. *)
Lemma share (r R : Q) :
  (0 <= r <= R)%Q -> (0 <= fmul r 15 <= fmul R 15)%Q.
Proof.
  intros [H0 H1]. split.
  - apply fmul_nonneg; [exact H0 | lra].
  - apply fmul_monotone; [lra | exact H1].
Qed.

(** The percentage of a score of at most [S] out of the total of 100. *)
Lemma percent_bounds (s S : Q) :
  (0 <= s <= S)%Q ->
  0 <= Math_round (fmul (fdiv s 100) 100)
  <= Math_round (fmul (fdiv S 100) 100).
Proof.
  intros [H0 H1]. split.
  - apply (Z.le_trans _ (Math_round (fmul (fdiv 0 100) 100)));
      [vm_compute; discriminate |].
    apply Math_round_monotone, fmul_monotone; [lra |].
    apply fdiv_monotone; [lra | exact H0].
  - apply Math_round_monotone, fmul_monotone; [lra |].
    apply fdiv_monotone; [lra | exact H1].
Qed.

(** The running score after the first five steps is at most 85. *)
Lemma score_before_examples (d : VOPLNodeData) (b1 b2 b5 : bool) :
  let inputs := inputs d in
  let outputs := outputs d in
  let behavior := or_else (behavior d) "" in
  let s1 := if b1 then fadd 0 10 else 0%Q in
  let s2 := if b2 then fadd s1 20 else s1 in
  let s3 :=
    if (0 <? List.length inputs)%nat
    then fadd s2
              (fmul (fdiv (nat_to_Q (List.length (filter definedPort inputs)))
                          (nat_to_Q (List.length inputs)))
                    15)
    else if (0 <? List.length outputs)%nat then fadd s2 15 else s2 in
  let s4 :=
    if (0 <? List.length outputs)%nat
    then fadd s3
              (fmul (fdiv (nat_to_Q (List.length (filter definedPort outputs)))
                          (nat_to_Q (List.length outputs)))
                    15)
    else fadd s3 15 in
  let s5 :=
    if b5
    then fadd s4
              (Math_min 25
                 (fmul (fdiv (nat_to_Q (String.length behavior)) 200) 25))
    else s4 in
  (0 <= s5 <= 85)%Q.
Proof.
  intros inputs outputs behavior s1 s2 s3 s4 s5.
  assert (0 <= s1 <= 10)%Q as H1.
  { apply step_if; [| split; lra].
    apply (step_add 0 10 0 10); [split; lra .. | q_eval]. }
  assert (0 <= s2 <= 30)%Q as H2.
  { apply step_if; [| apply (step_keep _ 10); [exact H1 | lra]].
    apply (step_add s1 20 10 20); [exact H1 | split; lra | q_eval]. }
  assert (forall ports : list PortDefinition,
             (0 <? List.length ports)%nat = true ->
             0 <= fmul (fdiv (nat_to_Q (List.length (filter definedPort ports)))
                             (nat_to_Q (List.length ports))) 15
             <= fmul 1 15)%Q as Hports.
  { intros ports Hp. apply Nat.ltb_lt in Hp. apply share.
    apply ratio_unit; [apply filter_length_le | exact Hp]. }
  assert (0 <= s3 <= 45)%Q as H3.
  { subst s3. destruct (0 <? List.length inputs)%nat eqn:Ei.
    - apply (step_add s2 _ 30 (fmul 1 15)); [exact H2 | | q_eval].
      apply Hports, Ei.
    - apply step_if; [| apply (step_keep _ 30); [exact H2 | lra]].
      apply (step_add s2 15 30 15); [exact H2 | split; lra | q_eval]. }
  assert (0 <= s4 <= 60)%Q as H4.
  { subst s4. destruct (0 <? List.length outputs)%nat eqn:Eo.
    - apply (step_add s3 _ 45 (fmul 1 15)); [exact H3 | | q_eval].
      apply Hports, Eo.
    - apply (step_add s3 15 45 15); [exact H3 | split; lra | q_eval]. }
  apply step_if; [| apply (step_keep _ 60); [exact H4 | lra]].
  apply (step_add s4 _ 60 25); [exact H4 | | q_eval].
  apply Math_min_bounds. apply fmul_nonneg; [| lra].
  apply double_nonneg. apply Qle_shift_div_l; [lra |].
  rewrite Qmult_0_l. q_of_z.
Qed.

(** X20. The badge of a node is a percentage: [calculateCompleteness] is
    between 0 and 100 for every node, in the double-precision arithmetic
    of the source. It shows 100 only for a node with at least two good
    examples (an example is good when neither its input nor its output is
    "{}" and it has notes): with fewer, the result is at most 93. *)
Theorem calculateCompleteness_range (d : VOPLNodeData) :
  0 <= calculateCompleteness d <= 100
  /\ ((List.length (filter goodExample (examples d)) < 2)%nat ->
      calculateCompleteness d <= 93).
Proof.
  unfold calculateCompleteness. cbv zeta.
  replace (fadd (fadd (fadd (fadd (fadd (fadd 0 10) 20) 15) 15) 25) 15)
    with 100%Q by (vm_compute; reflexivity).
  pose proof (score_before_examples d
                (truthy (or_else (name d) "")
                 && negb (startsWith (or_else (name d) "") "New "))
                (truthy (or_else (intent d) "")
                 && (20 <? String.length (or_else (intent d) ""))%nat
                 && negb (startsWith (or_else (intent d) "") "Describe"))
                (truthy (or_else (behavior d) "")
                 && (50 <? String.length (or_else (behavior d) ""))%nat))
    as H5.
  cbv zeta in H5.
  set (s5 := if truthy (or_else (behavior d) "") && _ then _ else _) in *.
  clearbody s5.
  set (good := List.length (filter goodExample (examples d))).
  set (all := Math_max (List.length (examples d)) 2).
  assert (good <= all)%nat as Hgood.
  { pose proof (filter_length_le goodExample (examples d)).
    unfold good, all, Math_max. lia. }
  assert (2 <= all)%nat as Hall by (unfold all, Math_max; lia).
  split.
  - assert (0 <= (if (0 <? List.length (examples d))%nat
                  then fadd s5 (fmul (fdiv (nat_to_Q good) (nat_to_Q all)) 15)
                  else s5) <= 100)%Q as H6.
    { apply step_if; [| apply (step_keep _ 85); [exact H5 | lra]].
      apply (step_add s5 _ 85 (fmul 1 15)); [exact H5 | | q_eval].
      apply share, ratio_unit; lia. }
    pose proof (percent_bounds _ 100 H6) as [L U].
    split; [exact L |].
    apply (Z.le_trans _ _ _ U). vm_compute. discriminate.
  - intro Hfew.
    assert (0 <= (if (0 <? List.length (examples d))%nat
                  then fadd s5 (fmul (fdiv (nat_to_Q good) (nat_to_Q all)) 15)
                  else s5) <= fadd 85 (fmul (1 # 2) 15))%Q as H6.
    { apply step_if.
      - apply (step_add s5 _ 85 (fmul (1 # 2) 15));
          [exact H5 | | apply Qle_refl].
        apply share, ratio_half; [unfold good; lia | exact Hall].
      - apply (step_keep _ 85); [exact H5 | q_eval]. }
    pose proof (percent_bounds _ _ H6) as [_ U].
    apply (Z.le_trans _ _ _ U). vm_compute. discriminate.
Qed.

Lemma calculateCompleteness_range_witness :
  calculateCompleteness Samples.defaultProcessData <= 93.
Proof.
  apply (calculateCompleteness_range Samples.defaultProcessData).
  vm_compute. lia.
Defined.

End BadgeLaws.

(** ** The header *)

Module HeaderLaws.

Import JS SpecAnalysis ProjectStore StoreActions Header.
Local Open Scope list_scope.

Lemma dashes_no_whitespace (b : bool) (s : string) (c : ascii) :
  In c (chars (dashes b s)) -> isWhitespace c = false.
Proof.
  revert b. induction s as [|a s IH]; intros b H; [destruct H |].
  simpl in H. destruct (isWhitespace a) eqn:E.
  - destruct b; [exact (IH true H) |].
    destruct H as [<- | H]; [reflexivity | exact (IH true H)].
  - destruct H as [<- | H]; [exact E | exact (IH false H)].
Qed.

Lemma dashes_fixed (s : string) :
  (forall c, In c (chars s) -> isWhitespace c = false) ->
  dashes false s = s.
Proof.
  induction s as [|a s IH]; intro H; [reflexivity |].
  simpl. rewrite (H a (or_introl eq_refl)). f_equal. apply IH.
  intros c Hc. apply H. right. exact Hc.
Qed.

Lemma dashes_length (b : bool) (s : string) :
  (String.length (dashes b s) <= String.length s)%nat.
Proof.
  revert b. induction s as [|a s IH]; intro b; [apply le_n |].
  pose proof (IH true) as Ht. pose proof (IH false) as Hf.
  simpl. destruct (isWhitespace a); [destruct b |]; simpl; lia.
Qed.

Lemma chars_append (a b : string) : chars (a ++ b) = chars a ++ chars b.
Proof.
  unfold chars. induction a as [|c a IH]; [reflexivity |].
  simpl. rewrite IH. reflexivity.
Qed.

(** X21. The names of the exported files. Whatever the name of the
    project, the file names offered for the JSON and for the Markdown
    export contain no whitespace: every run of spaces, tabs or line breaks
    in the project name has become a single dash. The replacement is not
    longer than the name, leaves a name without whitespace as it is, and
    applying it twice is applying it once. *)
Theorem export_file_names (p : VOPLProject) :
  (forall c, In c (chars (jsonFileName p)) \/ In c (chars (markdownFileName p))
             -> isWhitespace c = false)
  /\ (String.length (replaceWhitespace (project_name p))
      <= String.length (project_name p))%nat
  /\ replaceWhitespace (replaceWhitespace (project_name p))
     = replaceWhitespace (project_name p)
  /\ ((forall c, In c (chars (project_name p)) -> isWhitespace c = false) ->
      replaceWhitespace (project_name p) = project_name p).
Proof.
  split; [| split; [apply dashes_length | split]].
  - intros c H. unfold jsonFileName, markdownFileName in H.
    rewrite !chars_append in H.
    destruct H as [H | H]; apply in_app_or in H; destruct H as [H | H];
      try (apply (dashes_no_whitespace false _ _ H));
      simpl in H; repeat (destruct H as [<- | H]; [reflexivity |]);
      contradiction.
  - apply dashes_fixed. apply dashes_no_whitespace.
  - apply dashes_fixed.
Qed.

Lemma export_file_names_witness :
  replaceWhitespace
    (project_name (mkProject "p" "Orders" defaultSystemContext [] [] None 0))
  = "Orders".
Proof.
  apply (export_file_names
           (mkProject "p" "Orders" defaultSystemContext [] [] None 0)).
  intros c H. simpl in H.
  repeat (destruct H as [<- | H]; [reflexivity |]). contradiction.
Defined.

(** *** Trimming *)

Lemma dropWhitespace_first (s : string) :
  notWhitespace (firstChar (dropWhitespace s)).
Proof.
  induction s as [|a s IH]; [exact I |].
  simpl. destruct (isWhitespace a) eqn:E; [exact IH | exact E].
Qed.

Lemma trimEnd_first (s : string) :
  notWhitespace (firstChar s) -> notWhitespace (firstChar (trimEnd s)).
Proof.
  destruct s as [|a s]; [intros _; exact I |].
  cbn [firstChar chars list_ascii_of_string hd_error notWhitespace].
  intro H. cbn [trimEnd]. destruct (trimEnd s); [rewrite H |]; exact H.
Qed.

Lemma trimEnd_last (s : string) : notWhitespace (lastChar (trimEnd s)).
Proof.
  induction s as [|a s IH]; [exact I |].
  cbn [trimEnd]. destruct (trimEnd s) as [|b r] eqn:E.
  - destruct (isWhitespace a) eqn:W; [exact I | exact W].
  - unfold lastChar, chars in *. cbn [list_ascii_of_string rev] in *.
    destruct (rev (list_ascii_of_string r) ++ [b]) as [|x l] eqn:R.
    + destruct (rev (list_ascii_of_string r)); discriminate R.
    + exact IH.
Qed.

Lemma trimEnd_blank (s : string) :
  (forall c, In c (chars s) -> isWhitespace c = true) -> trimEnd s = "".
Proof.
  induction s as [|a s IH]; intro H; [reflexivity |].
  cbn [trimEnd]. rewrite IH; [rewrite (H a (or_introl eq_refl)); reflexivity |].
  intros c Hc. apply H. right. exact Hc.
Qed.

Lemma dropWhitespace_blank (s : string) :
  (forall c, In c (chars s) -> isWhitespace c = true) ->
  dropWhitespace s = "".
Proof.
  induction s as [|a s IH]; intro H; [reflexivity |].
  simpl. rewrite (H a (or_introl eq_refl)). apply IH.
  intros c Hc. apply H. right. exact Hc.
Qed.

(** X22. Renaming the project from the header. The name of the project
    after [handleNameSubmit] is either the old name or the trimmed entry,
    and the trimmed entry is taken only when it is not empty: a blank
    entry leaves the whole state as it is, so that a project with a name
    keeps having one. A name that is taken neither begins nor ends with
    whitespace. Nodes, edges and system context are not touched. *)
Theorem handleNameSubmit_keeps_a_name
    (now : Z) (editName : string) (state : ProjectState) :
  let state' := handleNameSubmit now editName state in
  (trim editName <> "" ->
   project_name (project state') = trim editName
   /\ notWhitespace (firstChar (project_name (project state')))
   /\ notWhitespace (lastChar (project_name (project state'))))
  /\ (trim editName = "" -> state' = state)
  /\ ((forall c, In c (chars editName) -> isWhitespace c = true) ->
      state' = state)
  /\ (project_name (project state) <> "" ->
      project_name (project state') <> "")
  /\ nodes (project state') = nodes (project state)
  /\ edges (project state') = edges (project state)
  /\ systemContext (project state') = systemContext (project state).
Proof.
  intro state'. subst state'. unfold handleNameSubmit.
  split; [| split; [| split; [| split]]].
  - intro H. apply JSFacts.truthy_true_iff in H. rewrite H.
    cbn [setProjectName withProject project project_name].
    split; [reflexivity |]. split.
    + apply trimEnd_first, dropWhitespace_first.
    + apply trimEnd_last.
  - intros ->. reflexivity.
  - intro H. unfold trim. rewrite (dropWhitespace_blank _ H). reflexivity.
  - intro H. destruct (truthy (trim editName)) eqn:T; [| exact H].
    cbn [setProjectName withProject project project_name].
    apply JSFacts.truthy_true_iff, T.
  - destruct (truthy (trim editName)); repeat split.
Qed.

Lemma handleNameSubmit_keeps_a_name_witness :
  project_name
    (project (handleNameSubmit 3 "  Order  intake " MoreSamples.twoConnected))
  = "Order  intake".
Proof.
  destruct (handleNameSubmit_keeps_a_name 3 "  Order  intake "
              MoreSamples.twoConnected) as (Htaken & _).
  destruct Htaken as (Hname & _); [discriminate |].
  exact Hname.
Defined.

End HeaderLaws.

(** ** The score panel and the node panel *)

Module PanelLaws.

Import JS SpecAnalysis Props JSFacts ScorerProofs.
Import ProjectStore StoreActions StoreProps StoreInvariants.
Import AdapterProofs AdapterLaws ScorerProps ScorerLaws.
Import BaseNode SpecOMeter NodePanel.
Local Open Scope list_scope.

Section ManualAnalysis.

Variable key : option string.
Variable create : Request -> Reply.
Variable parse_json : string -> option value.
Variable promptText : VOPLProject -> string.

(** X23. A manual analysis always ends well, when no other action
    reaches the store while it is awaited. Whatever the credential,
    the model call and the parser do, the handler completes without
    throwing, leaves the analysing flag lowered and stores the score that
    [analyzeSpec] returned for the project; nodes, edges, system context
    and selection are as before. Storing the score does not change what
    the heuristic scorer reads, so that scoring the project again gives
    the same result. Without a credential no event occurs and the stored
    score is the heuristic one. *)
Theorem manual_analysis_always_stores
    (scored_at stored_at : Z) (state : ProjectState) :
  let result := handleManualAnalyze key create parse_json promptText
                                    scored_at stored_at state in
  let state' := snd (fst result) in
  snd result = Return tt
  /\ isAnalyzing state' = false
  /\ (exists score,
         specScore (project state') = Some score
         /\ snd (analyzeSpec key create parse_json scored_at promptText
                             (project state)) = Return score)
  /\ nodes (project state') = nodes (project state)
  /\ edges (project state') = edges (project state)
  /\ systemContext (project state') = systemContext (project state)
  /\ selectedNodeId state' = selectedNodeId state
  /\ (forall now, getMockScore now (project state')
                  = getMockScore now (project state))
  /\ (truthy (apiKey key) = false ->
      fst (fst result) = []
      /\ specScore (project state')
         = Some (Typed (getMockScore scored_at (project state)))).
Proof.
  intros result state'. subst result state'. unfold handleManualAnalyze.
  pose proof (analyzeSpec_result_cases key create parse_json scored_at
                promptText (project state)) as Hcases.
  pose proof (analyzeSpec_unfold key create parse_json scored_at promptText
                (project state)) as Hunfold.
  destruct (analyzeSpec key create parse_json scored_at promptText
                        (project state)) as [events [score | e]].
  - cbn [fst snd setIsAnalyzing setSpecScore withProject project
         isAnalyzing specScore nodes edges systemContext selectedNodeId].
    repeat split; try reflexivity.
    + exists score. split; reflexivity.
    + destruct (truthy (apiKey key)); [discriminate |].
      cbn [negb] in Hunfold. cbv iota in Hunfold.
      injection Hunfold as -> _. reflexivity.
    + destruct (truthy (apiKey key)); [discriminate |].
      cbn [negb] in Hunfold. cbv iota in Hunfold.
      injection Hunfold as _ ->. reflexivity.
  - exfalso. cbn [snd] in Hcases.
    destruct Hcases as [C | [v C]]; discriminate C.
Qed.

End ManualAnalysis.

Lemma manual_analysis_always_stores_witness :
  specScore
    (project
       (snd (fst (handleManualAnalyze None Samples.offline Samples.noJson
                    Samples.plainAnalysisPrompt 5 6
                    MoreSamples.twoConnected))))
  = Some (Typed (getMockScore 5 (project MoreSamples.twoConnected))).
Proof.
  apply (manual_analysis_always_stores None Samples.offline Samples.noJson
           Samples.plainAnalysisPrompt 5 6 MoreSamples.twoConnected).
  reflexivity.
Defined.

(** X24. Clicking an issue of the heuristic score selects a node that
    exists. For every issue that the scorer reports on the project of the
    store, the click leaves the selection valid; when the issue names a
    node (by a non-empty identifier), that node becomes the selection and
    the panel opens, and otherwise the state stays as it is. The project
    is not touched. *)
Theorem issue_click_selects_node
    (now : Z) (state : ProjectState) (i : SpecIssue)
    (Hissue : In i (issues (getMockScore now (project state))))
    (Hvalid : SelectionValid state) :
  let state' := handleIssueClick i state in
  SelectionValid state'
  /\ project state' = project state
  /\ (forall id, nodeId i = Some id -> id <> "" ->
                 selectedNodeId state' = Some id /\ isPanelOpen state' = true)
  /\ (nodeId i = None \/ nodeId i = Some "" -> state' = state).
Proof.
  intro state'. subst state'. unfold handleIssueClick.
  destruct (nodeId i) as [id |] eqn:E.
  - destruct (truthy id) eqn:T.
    + split; [| split; [reflexivity | split]].
      * intros id' Hsel. cbn [selectNode selectedNodeId] in Hsel.
        injection Hsel as <-. cbn [selectNode project].
        exact (issue_node_in_graph now (project state) i id Hissue E).
      * intros id' Hid _. injection Hid as <-. split; reflexivity.
      * intros [C | C]; [discriminate C |]. injection C as ->.
        discriminate T.
    + split; [exact Hvalid | split; [reflexivity | split]].
      * intros id' Hid Hne. injection Hid as <-.
        apply truthy_true_iff in Hne. congruence.
      * reflexivity.
  - split; [exact Hvalid | split; [reflexivity | split]].
    + intros id' C. discriminate C.
    + reflexivity.
Qed.

Lemma issue_click_selects_node_witness :
  selectedNodeId
    (handleIssueClick (intentWarning (mkNode "n1" trigger (0%Q, 0%Q)
                                             (defaultNodeData trigger)))
                      MoreSamples.twoConnected)
  = Some "n1".
Proof.
  destruct (issue_click_selects_node 0 MoreSamples.twoConnected
              (intentWarning (mkNode "n1" trigger (0%Q, 0%Q)
                                     (defaultNodeData trigger))))
    as (_ & _ & Hselect & _).
  - vm_compute. tauto.
  - intros id Hid. vm_compute in Hid. injection Hid as <-.
    apply HasNode_by_id. reflexivity.
  - apply (Hselect "n1"); [reflexivity | discriminate].
Defined.

Lemma removeAt_last {A : Type} (l : list A) (x : A) :
  removeAt (List.length l) (l ++ [x]) = l.
Proof.
  induction l as [|a l IH]; [reflexivity |]. simpl. rewrite IH. reflexivity.
Qed.

Lemma removeAt_length {A : Type} (i : nat) (l : list A) :
  (i < List.length l)%nat ->
  S (List.length (removeAt i l)) = List.length l.
Proof.
  revert i. induction l as [|a l IH]; intros i H; [simpl in H; lia |].
  destruct i as [|i]; [reflexivity |]. simpl in *. rewrite IH; lia.
Qed.

Lemma removeAt_nth {A : Type} (i j : nat) (l : list A) :
  nth_error (removeAt i l) j
  = if (j <? i)%nat then nth_error l j else nth_error l (S j).
Proof.
  revert i j. induction l as [|a l IH]; intros i j.
  - destruct j, i; simpl; try reflexivity; destruct (_ <? _)%nat;
      reflexivity.
  - destruct i as [|i]; [destruct j; reflexivity |].
    destruct j as [|j]; [reflexivity |].
    simpl removeAt. cbn [nth_error]. rewrite IH.
    change (S j <? S i)%nat with (j <? i)%nat. reflexivity.
Qed.

Lemma removeAt_beyond {A : Type} (i : nat) (l : list A) :
  (List.length l <= i)%nat -> removeAt i l = l.
Proof.
  revert i. induction l as [|a l IH]; intros i H; [destruct i; reflexivity |].
  destruct i as [|i]; [simpl in H; lia |].
  simpl. rewrite IH; [reflexivity | simpl in H; lia].
Qed.

(** X25. Editing the port list of a node. Removing the port that was
    just added gives the list back; removing at a position of the list
    takes out exactly that port, the others keeping their order, and
    removing beyond the end changes nothing. A port that was just added
    is blank and earns nothing: it does not give the list a defined
    shape, and a node scores the same with it as without it, whether it is
    added to the inputs or handed to the store as an update of the
    inputs. *)
Theorem port_list_editing (ports : list PortDefinition) :
  removePort (List.length ports) (addPort ports) = ports
  /\ (forall i, (i < List.length ports)%nat ->
                S (List.length (removePort i ports)) = List.length ports)
  /\ (forall i j, nth_error (removePort i ports) j
                  = if (j <? i)%nat then nth_error ports j
                    else nth_error ports (S j))
  /\ (forall i, (List.length ports <= i)%nat -> removePort i ports = ports)
  /\ (HasDefinedShape (addPort ports) <-> HasDefinedShape ports)
  /\ (forall node, inputs (data node) = ports ->
                   nodeScore (withInputs node (addPort ports))
                   = nodeScore node)
  /\ (forall node, data (withInputs node (addPort ports))
                   = mergeData (data node) (onlyInputs (addPort ports))).
Proof.
  unfold removePort, addPort.
  split; [apply removeAt_last |].
  split; [intros i; apply removeAt_length |].
  split; [intros i j; apply removeAt_nth |].
  split; [intros i; apply removeAt_beyond |].
  assert (existsb (fun i => truthy (port_shape i)
                            && negb (String.eqb (port_shape i) "unknown"))
                  (ports ++ [mkPort "" "" ""])
          = existsb (fun i => truthy (port_shape i)
                              && negb (String.eqb (port_shape i) "unknown"))
                    ports) as Hsame.
  { rewrite existsb_app. simpl. apply orb_false_r. }
  split; [| split].
  - rewrite <- !defined_shape_iff, Hsame. reflexivity.
  - intros node Hin. rewrite !nodeScore_sum.
    cbn [withInputs data name intent behavior inputs outputs examples].
    rewrite Hsame, Hin. reflexivity.
  - intro node. reflexivity.
Qed.

Lemma port_list_editing_witness :
  nodeScore (withInputs Samples.validateInput
               (addPort (inputs (data Samples.validateInput))))
  = nodeScore Samples.validateInput.
Proof.
  destruct (port_list_editing (inputs (data Samples.validateInput)))
    as (_ & _ & _ & _ & _ & Hscore & _).
  apply Hscore. reflexivity.
Defined.

(** X26. A node as it is created. Whatever its type, the node that
    [addNode] appends carries the given identifier, scores 60 of 100 in
    the heuristic scorer (its placeholder intent and behavior are long
    enough to count, and it has an example), draws the intent warning
    because its intent begins with "Describe", has no port with a defined
    shape, and shows a badge below 50, in red. *)
Theorem new_node_scores (uuid : string) (now : Z) (type : VOPLNodeType)
    (position : Q * Q) (state : ProjectState) :
  exists n,
    nodes (project (addNode uuid now type position state))
    = nodes (project state) ++ [n]
    /\ node_id n = uuid
    /\ node_type n = type
    /\ nodeScore n = 60
    /\ intentIssue n = [intentWarning n]
    /\ ~ HasDefinedShape (inputs (data n))
    /\ ~ HasDefinedShape (outputs (data n))
    /\ calculateCompleteness (data n) < 50
    /\ completenessColor (calculateCompleteness (data n)) = "bg-red-500".
Proof.
  eexists. split; [reflexivity |].
  split; [reflexivity |]. split; [reflexivity |].
  destruct type; (split; [reflexivity |]); (split; [reflexivity |]);
    (split; [intro H; apply defined_shape_iff in H; discriminate H |]);
    (split; [intro H; apply defined_shape_iff in H; discriminate H |]);
    split; reflexivity.
Qed.

End PanelLaws.
